(** * A contact-manager assistant: shallow embedding of [main.py]

    The program keeps an address book (names, phone numbers, birthdays),
    validates what the operator types, pickles the book on exit and lists
    the birthdays of the coming week.

    Python values are modelled as follows.
    - [str] is a list of Unicode code points ([N]); string literals of the
      source are written as Rocq strings and decoded from UTF-8 by [u].
    - [int] is [Z]; Python's [//] is [Z.div] (both round towards minus
      infinity).
    - An exception is a value of [exn]; code that may raise returns a
      [result].
    - A [dict] is an association list in insertion order with unique keys.
    - Objects held by the book (records) are modelled by value.  No
      operation of the program stores one record object under two keys
      ([add_record] files a record under its own name, which no method
      changes), and the handlers reach a record only through the key it is
      stored under, so an in-place update of the record is an update of
      that entry ([dict_update]); a method called on a record that the
      book does not hold leaves the book as it is.
    - The clock and the file system are inputs: [today] is what
      [datetime.today()] answers, and a [filesystem] says what each
      path names and what opening it gives.
    - [Pickle] is the interface of [pickle.dump] and [pickle.load];
      [pickle4] is Python's implementation of it, at the level of the
      opcodes of the pickle machine.
    - The library functions the program calls ([re], [datetime],
      [str.split], [int]) are written out for the arguments the program
      gives them, after CPython 3.11. *)

From Stdlib Require Import NArith ZArith List String Ascii Bool Lia.
From Stdlib Require Import DecimalString.
Import ListNotations.

(** ** Strings *)

Definition str := list N.

(** UTF-8 decoding of a source literal (well-formed input only). *)
Fixpoint utf8_decode (bs : list N) : str :=
  match bs with
  | [] => []
  | b0 :: t0 =>
      if (b0 <? 128)%N then b0 :: utf8_decode t0
      else if (b0 <? 224)%N then
        match t0 with
        | b1 :: t1 => ((b0 - 192) * 64 + (b1 - 128))%N :: utf8_decode t1
        | _ => []
        end
      else if (b0 <? 240)%N then
        match t0 with
        | b1 :: b2 :: t2 =>
            ((b0 - 224) * 4096 + (b1 - 128) * 64 + (b2 - 128))%N
              :: utf8_decode t2
        | _ => []
        end
      else
        match t0 with
        | b1 :: b2 :: b3 :: t3 =>
            ((b0 - 240) * 262144 + (b1 - 128) * 4096
             + (b2 - 128) * 64 + (b3 - 128))%N :: utf8_decode t3
        | _ => []
        end
  end.

Definition u (s : string) : str :=
  utf8_decode (map N_of_ascii (list_ascii_of_string s)).

Definition str_eqb (a b : str) : bool :=
  if list_eq_dec N.eq_dec a b then true else false.

(** [sep.join(parts)] *)
Fixpoint join (sep : str) (parts : list str) : str :=
  match parts with
  | [] => []
  | [p] => p
  | p :: ps => p ++ sep ++ join sep ps
  end.

(** ** Unicode tables used by [re], [int] and [str.split]

    The code points whose general category is [Nd] come in runs of ten,
    one per script, in the order 0..9.  [decimal_zeros] lists the first
    code point of each run (Unicode 14.0, the database of CPython 3.11). *)

Definition decimal_zeros : list N :=
  [ 0x30; 0x660; 0x6f0; 0x7c0; 0x966; 0x9e6; 0xa66; 0xae6; 0xb66; 0xbe6;
    0xc66; 0xce6; 0xd66; 0xde6; 0xe50; 0xed0; 0xf20; 0x1040; 0x1090;
    0x17e0; 0x1810; 0x1946; 0x19d0; 0x1a80; 0x1a90; 0x1b50; 0x1bb0;
    0x1c40; 0x1c50; 0xa620; 0xa8d0; 0xa900; 0xa9d0; 0xa9f0; 0xaa50;
    0xabf0; 0xff10; 0x104a0; 0x10d30; 0x11066; 0x110f0; 0x11136; 0x111d0;
    0x112f0; 0x11450; 0x114d0; 0x11650; 0x116c0; 0x11730; 0x118e0;
    0x11950; 0x11c50; 0x11d50; 0x11da0; 0x16a60; 0x16ac0; 0x16b50;
    0x1d7ce; 0x1d7d8; 0x1d7e2; 0x1d7ec; 0x1d7f6; 0x1e140; 0x1e2f0;
    0x1e950; 0x1fbf0 ]%N.

(** The digit value of a decimal character, as [unicodedata.decimal]. *)
Fixpoint decimal_in (zeros : list N) (c : N) : option N :=
  match zeros with
  | [] => None
  | z :: zs =>
      if ((z <=? c) && (c <? z + 10))%N then Some (c - z)%N
      else decimal_in zs c
  end.

Definition decimal_value (c : N) : option N := decimal_in decimal_zeros c.

Definition is_decimal (c : N) : bool :=
  match decimal_value c with Some _ => true | None => false end.

(** [str.isspace] on one character. *)
Definition is_space (c : N) : bool :=
  (((0x9 <=? c) && (c <=? 0xd)) || ((0x1c <=? c) && (c <=? 0x20))
   || (c =? 0x85) || (c =? 0xa0) || (c =? 0x1680)
   || ((0x2000 <=? c) && (c <=? 0x200a))
   || (c =? 0x2028) || (c =? 0x2029) || (c =? 0x202f) || (c =? 0x205f)
   || (c =? 0x3000))%N.

Arguments decimal_value : simpl never.
Arguments is_decimal : simpl never.
Arguments is_space : simpl never.

(** ** Exceptions and results *)

Inductive exn_class :=
| ValueError | IndexError | OverflowError
| FileNotFoundError | IsADirectoryError | PermissionError
| UnpicklingError | EOFError | AttributeError | TypeError.

Record exn := Exn { exn_cls : exn_class; exn_msg : str }.

Inductive result (A : Type) :=
| Return (a : A)
| Raise (e : exn).
Arguments Return {A} a.
Arguments Raise {A} e.

Definition bind {A B} (m : result A) (k : A -> result B) : result B :=
  match m with
  | Return a => k a
  | Raise e => Raise e
  end.

Declare Scope result_scope.
Delimit Scope result_scope with result.
Notation "x <- m ;; k" := (bind m (fun x => k))
  (at level 61, m at next level, right associativity) : result_scope.

Definition is_return {A} (r : result A) : bool :=
  match r with Return _ => true | Raise _ => false end.

(** ** The fragment of [re] that the program exercises

    Matching is by backtracking; [run r st] lists the states in which a
    match of [r] started in [st] can end, in the order in which the
    backtracking matcher tries them.  [Pattern.match] reports the first. *)

Module Re.

Inductive charset :=
| Digit                      (* \d : any Unicode decimal digit *)
| Range (lo hi : N).         (* [lo-hi] *)

Definition charset_mem (cs : charset) (c : N) : bool :=
  match cs with
  | Digit => is_decimal c
  | Range lo hi => ((lo <=? c) && (c <=? hi))%N
  end.

Inductive regex :=
| Bol                                   (* ^ *)
| Eol                                   (* $ *)
| Chr (c : N)                           (* a literal character *)
| In (cs : charset)
| Seq (r1 r2 : regex)
| Alt (r1 r2 : regex)                   (* r1|r2 *)
| Repeat (n : nat) (r : regex)          (* r{n} *)
| Group (name : string) (r : regex).    (* (?P<name>r) *)

Record mstate := MState
  { pos : nat;                  (* characters consumed so far *)
    rest : str;                 (* characters still to read *)
    groups : list (string * str) }.

Definition advance (st : mstate) (t : str) : mstate :=
  {| pos := S (pos st); rest := t; groups := groups st |}.

Definition one (ok : N -> bool) (st : mstate) : list mstate :=
  match rest st with
  | c :: t => if ok c then [advance st t] else []
  | [] => []
  end.

(** [times k step]: [step] taken [k] times in a row. *)
Fixpoint times (k : nat) (step : mstate -> list mstate) (s : mstate)
  : list mstate :=
  match k with
  | O => [s]
  | S k' => flat_map (times k' step) (step s)
  end.

(** Without [re.MULTILINE], [^] matches at the start of the string only
    and [$] matches at the end of the string or just before a newline
    that is the last character of the string. *)
Fixpoint run (r : regex) (st : mstate) : list mstate :=
  match r with
  | Bol => if Nat.eqb (pos st) 0 then [st] else []
  | Eol =>
      match rest st with
      | [] => [st]
      | [c] => if (c =? 10)%N then [st] else []
      | _ => []
      end
  | Chr c => one (N.eqb c) st
  | In cs => one (charset_mem cs) st
  | Seq r1 r2 => flat_map (run r2) (run r1 st)
  | Alt r1 r2 => run r1 st ++ run r2 st
  | Repeat n r1 => times n (run r1) st
  | Group name r1 =>
      map (fun st' =>
             {| pos := pos st'; rest := rest st';
                groups := (name, firstn (pos st' - pos st) (rest st))
                            :: groups st' |})
          (run r1 st)
  end.

(** [pattern.match(s)]: the first match anchored at position 0. *)
Definition match_ (r : regex) (s : str) : option mstate :=
  hd_error (run r {| pos := 0; rest := s; groups := [] |}).

(** [m.end()] *)
Definition end_ (m : mstate) : nat := pos m.

(** [m.groupdict().get(name)] *)
Fixpoint group (gs : list (string * str)) (name : string) : option str :=
  match gs with
  | [] => None
  | (n, v) :: gs' => if String.eqb n name then Some v else group gs' name
  end.

End Re.

(** ** Validated value types *)

(** [Name.__init__] *)
Definition Name_new (value : str) : result str :=
  match value with
  | [] => Raise (Exn ValueError (u "Ім'я не може бути порожнім"))
  | _ => Return value
  end.

(** The pattern [r"^\d{10}$"]. *)
Definition phone_pattern : Re.regex :=
  Re.Seq Re.Bol (Re.Seq (Re.Repeat 10 (Re.In Re.Digit)) Re.Eol).

(** [Phone.validate_phone] *)
Definition validate_phone (phone : str) : bool :=
  match Re.match_ phone_pattern phone with
  | Some _ => true
  | None => false
  end.

(** [Phone.__init__]; the object is represented by its [value]. *)
Definition Phone_new (value : str) : result str :=
  if negb (validate_phone value)
  then Raise (Exn ValueError (u "Номер телефону повинен містити 10 цифр"))
  else Return value.

(** ** Integers and text *)

(** [str.strip] with no argument. *)
Fixpoint lstrip (s : str) : str :=
  match s with
  | c :: t => if is_space c then lstrip t else s
  | [] => []
  end.

Definition rstrip (s : str) : str := rev (lstrip (rev s)).

Definition strip (s : str) : str := rstrip (lstrip s).

(** [str.split] with no argument: the maximal runs of characters that are
    not whitespace.  [cur] is the run being read. *)
Fixpoint split_from (cur : str) (s : str) : list str :=
  match s with
  | [] => match cur with [] => [] | _ => [cur] end
  | c :: t =>
      if is_space c
      then match cur with [] => split_from [] t | _ => cur :: split_from [] t end
      else split_from (cur ++ [c]) t
  end.

Definition split (s : str) : list str := split_from [] s.

(** [str.lower].  The ASCII letters and the two characters outside ASCII
    whose lower case contains an ASCII letter are mapped as Python maps
    them; every other character is left as it is (its lower case is not
    ASCII either, which is all the command dispatch depends on). *)
Definition lower_char (c : N) : str :=
  if ((0x41 <=? c) && (c <=? 0x5a))%N then [(c + 32)%N]
  else if (c =? 0x130)%N then [0x69; 0x307]%N
  else if (c =? 0x212a)%N then [0x6b]%N
  else [c].

Definition lower (s : str) : str := flat_map lower_char s.

(** Digits of a string read as a base-ten numeral, most significant first. *)
Fixpoint digits_value (acc : Z) (s : str) : option Z :=
  match s with
  | [] => Some acc
  | c :: t =>
      match decimal_value c with
      | Some d => digits_value (10 * acc + Z.of_N d) t
      | None => None
      end
  end.

(** [int(s)] for the strings the program converts: surrounding whitespace
    is dropped and the rest must be a non-empty run of decimal digits
    (signs and underscores, which [int] also accepts, never reach it). *)
Definition int (s : str) : result Z :=
  match strip s with
  | [] => Raise (Exn ValueError (u "invalid literal for int() with base 10"))
  | body =>
      match digits_value 0 body with
      | Some z => Return z
      | None => Raise (Exn ValueError (u "invalid literal for int() with base 10"))
      end
  end.

(** [str(n)] for a non-negative [n], and the same zero-padded to two
    places ([%02d]). *)
Definition str_of_N (n : N) : str :=
  map N_of_ascii
      (list_ascii_of_string (NilEmpty.string_of_uint (N.to_uint n))).

Definition str_of_Z (z : Z) : str :=
  if (z <? 0)%Z then 0x2d%N :: str_of_N (Z.to_N (- z)) else str_of_N (Z.to_N z).

Definition pad2 (z : Z) : str :=
  if ((0 <=? z) && (z <? 10))%Z then 0x30%N :: str_of_Z z else str_of_Z z.

(** ** [datetime] *)

Module Datetime.

Open Scope Z_scope.

Record datetime := DT
  { year : Z; month : Z; day : Z;
    hour : Z; minute : Z; second : Z; microsecond : Z }.

Definition MINYEAR : Z := 1.
Definition MAXYEAR : Z := 9999.
Definition _MAXORDINAL : Z := 3652059.

Definition _is_leap (y : Z) : bool :=
  (y mod 4 =? 0) && (negb (y mod 100 =? 0) || (y mod 400 =? 0)).

Definition _DAYS_IN_MONTH (m : Z) : Z :=
  match m with
  | 1 => 31 | 2 => 28 | 3 => 31 | 4 => 30 | 5 => 31 | 6 => 30
  | 7 => 31 | 8 => 31 | 9 => 30 | 10 => 31 | 11 => 30 | 12 => 31
  | _ => -1
  end.

Definition _DAYS_BEFORE_MONTH (m : Z) : Z :=
  match m with
  | 1 => 0 | 2 => 31 | 3 => 59 | 4 => 90 | 5 => 120 | 6 => 151
  | 7 => 181 | 8 => 212 | 9 => 243 | 10 => 273 | 11 => 304 | 12 => 334
  | _ => -1
  end.

Definition _days_in_month (y m : Z) : Z :=
  if (m =? 2) && _is_leap y then 29 else _DAYS_IN_MONTH m.

Definition _days_before_year (y : Z) : Z :=
  let y' := y - 1 in y' * 365 + y' / 4 - y' / 100 + y' / 400.

Definition _days_before_month (y m : Z) : Z :=
  _DAYS_BEFORE_MONTH m + (if (2 <? m) && _is_leap y then 1 else 0).

Definition _ymd2ord (y m d : Z) : Z :=
  _days_before_year y + _days_before_month y m + d.

Definition _DI400Y : Z := _days_before_year 401.
Definition _DI100Y : Z := _days_before_year 101.
Definition _DI4Y : Z := _days_before_year 5.

Definition _ord2ymd (n0 : Z) : Z * Z * Z :=
  let n := n0 - 1 in
  let n400 := n / _DI400Y in
  let n := n mod _DI400Y in
  let y := n400 * 400 + 1 in
  let n100 := n / _DI100Y in
  let n := n mod _DI100Y in
  let n4 := n / _DI4Y in
  let n := n mod _DI4Y in
  let n1 := n / 365 in
  let n := n mod 365 in
  let y := y + n100 * 100 + n4 * 4 + n1 in
  if (n1 =? 4) || (n100 =? 4) then (y - 1, 12, 31)
  else
    let leapyear := (n1 =? 3) && (negb (n4 =? 24) || (n100 =? 3)) in
    let m := Z.shiftr (n + 50) 5 in
    let preceding :=
      _DAYS_BEFORE_MONTH m + (if (2 <? m) && leapyear then 1 else 0) in
    if n <? preceding
    then
      let m' := m - 1 in
      let preceding' :=
        preceding
        - (_DAYS_IN_MONTH m' + (if (m' =? 2) && leapyear then 1 else 0)) in
      (y, m', n - preceding' + 1)
    else (y, m, n - preceding + 1).

Definition in_range (lo x hi : Z) : bool := (lo <=? x) && (x <=? hi).

(** [datetime(year, month, day, hour, minute, second, microsecond)] *)
Definition new (y m d h mi s us : Z) : result datetime :=
  if negb (in_range MINYEAR y MAXYEAR) then
    Raise (Exn ValueError (u "year " ++ str_of_Z y ++ u " is out of range"))
  else if negb (in_range 1 m 12) then
    Raise (Exn ValueError (u "month must be in 1..12"))
  else if negb (in_range 1 d (_days_in_month y m)) then
    Raise (Exn ValueError (u "day is out of range for month"))
  else if negb (in_range 0 h 23) then
    Raise (Exn ValueError (u "hour must be in 0..23"))
  else if negb (in_range 0 mi 59) then
    Raise (Exn ValueError (u "minute must be in 0..59"))
  else if negb (in_range 0 s 59) then
    Raise (Exn ValueError (u "second must be in 0..59"))
  else if negb (in_range 0 us 999999) then
    Raise (Exn ValueError (u "microsecond must be in 0..999999"))
  else Return (DT y m d h mi s us).

(** [dt.replace(year=y)] *)
Definition replace_year (dt : datetime) (y : Z) : result datetime :=
  new y (month dt) (day dt) (hour dt) (minute dt) (second dt)
      (microsecond dt).

(** [dt.toordinal()] *)
Definition toordinal (dt : datetime) : Z :=
  _ymd2ord (year dt) (month dt) (day dt).

(** [dt + timedelta(days=days)]: the time of day is kept. *)
Definition add_days (dt : datetime) (days : Z) : result datetime :=
  let o := toordinal dt + days in
  if (0 <? o) && (o <=? _MAXORDINAL) then
    let '(y, m, d) := _ord2ymd o in
    Return (DT y m d (hour dt) (minute dt) (second dt) (microsecond dt))
  else Raise (Exn OverflowError (u "date value out of range")).

(** Comparison of naive datetimes: lexicographic on the seven fields. *)
Definition fields (dt : datetime) : list Z :=
  [year dt; month dt; day dt; hour dt; minute dt; second dt;
   microsecond dt].

Fixpoint cmp (a b : list Z) : comparison :=
  match a, b with
  | [], [] => Eq
  | [], _ :: _ => Lt
  | _ :: _, [] => Gt
  | x :: a', y :: b' =>
      match x ?= y with
      | Eq => cmp a' b'
      | c => c
      end
  end.

Definition le (a b : datetime) : bool :=
  match cmp (fields a) (fields b) with Gt => false | _ => true end.

Definition lt (a b : datetime) : bool :=
  match cmp (fields a) (fields b) with Lt => true | _ => false end.

(** The regular expression that [_strptime] builds for ["%d.%m.%Y"]:
    [(?P<d>3[0-1]|[1-2]\d|0[1-9]|[1-9]| [1-9])\.(?P<m>1[0-2]|0[1-9]|[1-9])\.(?P<Y>\d\d\d\d)] *)
Definition chr (s : string) : Re.regex :=
  match u s with
  | c :: _ => Re.Chr c
  | [] => Re.Chr 0
  end.

Definition range (lo hi : string) : Re.regex :=
  match u lo, u hi with
  | a :: _, b :: _ => Re.In (Re.Range a b)
  | _, _ => Re.In (Re.Range 1 0)
  end.

Definition digit : Re.regex := Re.In Re.Digit.

Definition alt_d : Re.regex :=
  Re.Alt (Re.Seq (chr "3") (range "0" "1"))
 (Re.Alt (Re.Seq (range "1" "2") digit)
 (Re.Alt (Re.Seq (chr "0") (range "1" "9"))
 (Re.Alt (range "1" "9")
         (Re.Seq (chr " ") (range "1" "9"))))).

Definition alt_m : Re.regex :=
  Re.Alt (Re.Seq (chr "1") (range "0" "2"))
 (Re.Alt (Re.Seq (chr "0") (range "1" "9"))
         (range "1" "9")).

Definition seq_Y : Re.regex :=
  Re.Seq digit (Re.Seq digit (Re.Seq digit digit)).

Definition re_d : Re.regex := Re.Group "d" alt_d.
Definition re_m : Re.regex := Re.Group "m" alt_m.
Definition re_Y : Re.regex := Re.Group "Y" seq_Y.

Definition format_regex : Re.regex :=
  Re.Seq re_d (Re.Seq (chr ".") (Re.Seq re_m (Re.Seq (chr ".") re_Y))).

(** The value of a group of the match, converted by [int]; [dflt] is the
    value [_strptime] starts from when the group is absent. *)
Definition int_group (found : Re.mstate) (name : string) (dflt : Z)
  : result Z :=
  match Re.group (Re.groups found) name with
  | Some text => int text
  | None => Return dflt
  end.

(** [datetime.strptime(data_string, "%d.%m.%Y")].  The texts of the two
    parse errors are abbreviated (Python quotes the input in them). *)
Definition strptime (data_string : str) : result datetime :=
  match Re.match_ format_regex data_string with
  | None =>
      Raise (Exn ValueError (u "time data does not match format"))
  | Some found =>
      if negb (Nat.eqb (List.length data_string) (Re.end_ found)) then
        Raise (Exn ValueError (u "unconverted data remains"))
      else
        (y <- int_group found "Y" 1900 ;;
         m <- int_group found "m" 1 ;;
         d <- int_group found "d" 1 ;;
         new y m d 0 0 0 0)%result
  end.

(** [dt.strftime("%d.%m.%Y")]; the year is printed without padding, as
    the C library of Linux does. *)
Definition strftime (dt : datetime) : str :=
  pad2 (day dt) ++ u "." ++ pad2 (month dt) ++ u "." ++ str_of_Z (year dt).

End Datetime.

Import Datetime.

(** [Birthday.validate_date] *)
Definition validate_date (date_text : str) : result bool :=
  match strptime date_text with
  | Return _ => Return true
  | Raise e =>
      match exn_cls e with
      | ValueError => Return false
      | _ => Raise e
      end
  end.

(** [Birthday.__init__]; the object is represented by its [value]. *)
Definition Birthday_new (value : str) : result datetime :=
  (ok <- validate_date value ;;
   if negb ok
   then Raise (Exn ValueError
                 (u "Неправильний формат дати. Використовуйте DD.MM.YYYY"))
   else strptime value)%result.

(** ** Contact record *)

Record Record_ := MkRecord
  { name : str;                      (* [self.name.value] *)
    phones : list str;               (* the [value] of each [Phone] *)
    birthday : option datetime }.    (* [self.birthday.value], if set *)

(** [Record.__init__] *)
Definition Record_new (name : str) : result Record_ :=
  (n <- Name_new name ;;
   Return {| name := n; phones := []; birthday := None |})%result.

(** A method that updates the record in place returns what the call
    returns or raises, together with the record as the call leaves it. *)

(** [Record.add_phone] *)
Definition add_phone (phone : str) (self : Record_) : result unit * Record_ :=
  match Phone_new phone with
  | Return p =>
      (Return tt,
       {| name := name self; phones := phones self ++ [p];
          birthday := birthday self |})
  | Raise e => (Raise e, self)
  end.

(** [Record.remove_phone] *)
Definition remove_phone (phone : str) (self : Record_) : Record_ :=
  {| name := name self;
     phones := filter (fun p => negb (str_eqb p phone)) (phones self);
     birthday := birthday self |}.

(** [Record.edit_phone] *)
Definition edit_phone (old_phone new_phone : str) (self : Record_)
  : result unit * Record_ :=
  add_phone new_phone (remove_phone old_phone self).

(** [Record.find_phone] *)
Definition find_phone (phone : str) (self : Record_) : option str :=
  List.find (fun p => str_eqb p phone) (phones self).

(** [Record.add_birthday] *)
Definition add_birthday (birthday_text : str) (self : Record_)
  : result unit * Record_ :=
  match Birthday_new birthday_text with
  | Return b =>
      (Return tt,
       {| name := name self; phones := phones self; birthday := Some b |})
  | Raise e => (Raise e, self)
  end.

(** [Record.__str__] *)
Definition Record_str (self : Record_) : str :=
  let phones_str := join (u "; ") (phones self) in
  let birthday_str :=
    match birthday self with
    | Some b => u ", День народження: " ++ strftime b
    | None => []
    end in
  u "Ім'я контакту: " ++ name self ++ u ", телефони: " ++ phones_str
    ++ birthday_str.

(** ** Address book *)

(** [self.data]: keys in insertion order, each key once. *)
Definition AddressBook := list (str * Record_).

(** [d[key] = value]: an existing key keeps its place. *)
Fixpoint dict_set (key : str) (value : Record_) (d : AddressBook)
  : AddressBook :=
  match d with
  | [] => [(key, value)]
  | (k, v) :: d' =>
      if str_eqb k key then (k, value) :: d'
      else (k, v) :: dict_set key value d'
  end.

(** The state of the object held under [key] replaced by [value]: what a
    dict shows once a method has mutated an object it holds.  Nothing is
    ever inserted this way: a dict that holds nothing under [key] is left
    as it is. *)
Fixpoint dict_update (key : str) (value : Record_) (d : AddressBook)
  : AddressBook :=
  match d with
  | [] => []
  | (k, v) :: d' =>
      if str_eqb k key then (k, value) :: d'
      else (k, v) :: dict_update key value d'
  end.

(** [d.get(key, None)] *)
Fixpoint dict_get (key : str) (d : AddressBook) : option Record_ :=
  match d with
  | [] => None
  | (k, v) :: d' => if str_eqb k key then Some v else dict_get key d'
  end.

(** [del d[key]] *)
Fixpoint dict_del (key : str) (d : AddressBook) : AddressBook :=
  match d with
  | [] => []
  | (k, v) :: d' => if str_eqb k key then d' else (k, v) :: dict_del key d'
  end.

(** [d.values()] *)
Definition values (d : AddressBook) : list Record_ := map snd d.

(** [record.name.value] *)
Definition key_of (record : Record_) : str := name record.

(** [AddressBook.add_record] *)
Definition add_record (record : Record_) (self : AddressBook) : AddressBook :=
  dict_set (key_of record) record self.

(** [AddressBook.find] *)
Definition find (name : str) (self : AddressBook) : option Record_ :=
  dict_get name self.

(** [AddressBook.delete] *)
Definition delete (name : str) (self : AddressBook) : AddressBook :=
  match dict_get name self with
  | Some _ => dict_del name self
  | None => self
  end.

(** The loop of [get_upcoming_birthdays]; [acc] is [birthdays_next_week]. *)
Fixpoint upcoming_loop (today upcoming : datetime) (records : list Record_)
         (acc : list str) : result (list str) :=
  match records with
  | [] => Return acc
  | record :: records' =>
      match birthday record with
      | Some b =>
          (birthday_this_year <- replace_year b (year today) ;;
           if Datetime.le today birthday_this_year
              && Datetime.lt birthday_this_year upcoming
           then upcoming_loop today upcoming records' (acc ++ [name record])
           else upcoming_loop today upcoming records' acc)%result
      | None => upcoming_loop today upcoming records' acc
      end
  end.

(** [AddressBook.get_upcoming_birthdays]; [today] is what
    [datetime.today()] returns when the method is called. *)
Definition get_upcoming_birthdays (today : datetime) (days : Z)
           (self : AddressBook) : result (list str) :=
  (upcoming <- add_days today days ;;
   upcoming_loop today upcoming (values self) [])%result.

(** ** Persistence *)

Definition bytes := list N.

(** [pickle.dump] and [pickle.load] belong to Python's library; the
    program only relies on what this interface gives.  [pickled] is what
    [pickle.dump] hands to the file. *)
Class Pickle := MkPickle
  { pickled : Type;
    pickle_dumps : AddressBook -> pickled;
    pickle_loads : pickled -> result AddressBook }.

(** The files the program can see.  A path names a regular file that
    the process may read and write, with its contents; a directory;
    nothing, where the process may create a file; or anything else: a
    file or a directory the process may not use, a path below a directory
    that does not exist, a file that may be written and not read, a
    device such as [/dev/null].  Of the last kind all that matters is
    what [open(path, "rb")] and reading give, and what [open(path, "wb")]
    raises, if it raises; what is written there is not what is read
    afterwards. *)
Inductive node {P : Pickle} :=
| File (content : pickled)
| Directory
| Other (on_read : result pickled) (on_write : option exn).

Definition filesystem {P : Pickle} := str -> option node.

(** A regular file that the process may read and write, or no file yet
    where one can be created. *)
Definition regular {P : Pickle} (fs : filesystem) (path : str) : bool :=
  match fs path with
  | None | Some (File _) => true
  | Some Directory | Some (Other _ _) => false
  end.

Definition fs_write {P : Pickle} (path : str) (content : pickled)
           (fs : filesystem) : filesystem :=
  fun p => if str_eqb p path then Some (File content) else fs p.

(** [open(filename, "rb")] followed by reading the whole file. *)
Definition read_file {P : Pickle} (filename : str) (fs : filesystem)
  : result pickled :=
  match fs filename with
  | None => Raise (Exn FileNotFoundError (u "No such file or directory"))
  | Some Directory => Raise (Exn IsADirectoryError (u "Is a directory"))
  | Some (File content) => Return content
  | Some (Other on_read _) => on_read
  end.

(** [open(filename, "wb")]: whether the file can be opened for writing. *)
Definition open_wb {P : Pickle} (filename : str) (fs : filesystem)
  : result unit :=
  match fs filename with
  | Some Directory => Raise (Exn IsADirectoryError (u "Is a directory"))
  | Some (Other _ (Some on_write)) => Raise on_write
  | Some (Other _ None) | Some (File _) | None => Return tt
  end.

(** [open(filename, "wb")] followed by writing [content]. *)
Definition write_file {P : Pickle} (filename : str) (content : pickled)
           (fs : filesystem) : result filesystem :=
  (_ <- open_wb filename fs ;;
   Return (if regular fs filename then fs_write filename content fs
           else fs))%result.

Definition default_filename : str := u "addressbook.pkl".

(** [save_data] *)
Definition save_data {P : Pickle} (book : AddressBook) (filename : str)
           (fs : filesystem) : result filesystem :=
  write_file filename (pickle_dumps book) fs.

(** [load_data]: the [try] covers both the [open] and the [pickle.load]. *)
Definition load_data {P : Pickle} (filename : str) (fs : filesystem)
  : result AddressBook :=
  match (content <- read_file filename fs ;; pickle_loads content)%result with
  | Return book => Return book
  | Raise e =>
      match exn_cls e with
      | FileNotFoundError => Return []
      | _ => Raise e
      end
  end.

(** ** Command handlers *)

(** [input_error]: what the wrapped function raises becomes the text that
    is returned; what it did to the book before raising stays done. *)
Definition input_error (func : AddressBook -> result str * AddressBook)
  : AddressBook -> str * AddressBook :=
  fun book =>
    match func book with
    | (Return text, book') => (text, book')
    | (Raise e, book') => (exn_msg e, book')
    end.

(** Raised by [a, b, *_ = args] when [args] is too short. *)
Definition unpack_error : exn :=
  Exn ValueError (u "not enough values to unpack").

Definition not_found (name : str) : str :=
  u "Контакт з іменем " ++ name ++ u " не знайдено.".

(** A call [record.method(...)] on the object [record], which the book
    holds under [key] if it holds it at all: the book shows what the
    method did to the object, also when the method raises. *)
Definition call_on (key : str) (record : Record_)
           (method : Record_ -> result unit * Record_) (book : AddressBook)
  : result unit * AddressBook :=
  let (r, record') := method record in (r, dict_update key record' book).

Definition add_birthday_body (args : list str) (book : AddressBook)
  : result str * AddressBook :=
  if (List.length args <? 2)%nat then
    (Return (u "Будь ласка, вкажіть ім'я та дату народження."), book)
  else
    match args with
    | name :: birthday :: _ =>
        match find name book with
        | None => (Return (not_found name), book)
        | Some record =>
            let (r, book') := call_on name record (add_birthday birthday) book in
            ((_ <- r ;;
              Return (u "День народження для " ++ name ++ u " додано."))%result,
             book')
        end
    | _ => (Raise unpack_error, book)
    end.

Definition add_birthday_cmd (args : list str) := input_error (add_birthday_body args).

Definition show_birthday_body (args : list str) (book : AddressBook)
  : result str * AddressBook :=
  if (List.length args <? 1)%nat then
    (Return (u "Будь ласка, вкажіть ім'я."), book)
  else
    match args with
    | name :: _ =>
        match find name book with
        | None => (Return (not_found name), book)
        | Some record =>
            match birthday record with
            | None =>
                (Return (u "Інформація про день народження для " ++ name
                           ++ u " відсутня."), book)
            | Some b =>
                (Return (u "День народження " ++ name ++ u ": "
                           ++ strftime b ++ u "."), book)
            end
        end
    | _ => (Raise unpack_error, book)
    end.

Definition show_birthday (args : list str) := input_error (show_birthday_body args).

Definition birthdays_body (today : datetime) (args : list str)
           (book : AddressBook) : result str * AddressBook :=
  ((birthdays_list <- get_upcoming_birthdays today 7 book ;;
    match birthdays_list with
    | [] => Return (u "Немає днів народження на наступному тижні.")
    | _ => Return (join [10%N] birthdays_list)
    end)%result,
   book).

Definition birthdays (today : datetime) (args : list str) :=
  input_error (birthdays_body today args).

Definition msg_updated : str := u "Контакт оновлено.".
Definition msg_added : str := u "Контакт додано.".

Definition add_contact_body (args : list str) (book : AddressBook)
  : result str * AddressBook :=
  if (List.length args <? 2)%nat then
    (Return (u "Будь ласка, вкажіть ім'я та телефон."), book)
  else
    match args with
    | name :: phone :: _ =>
        match find name book with
        | Some record =>
            let (r, book') := call_on name record (add_phone phone) book in
            ((_ <- r ;; Return msg_updated)%result, book')
        | None =>
            match Record_new name with
            | Raise e => (Raise e, book)
            | Return record =>
                let book1 := add_record record book in
                let (r, book2) :=
                  call_on (key_of record) record (add_phone phone) book1 in
                ((_ <- r ;; Return msg_added)%result, book2)
            end
        end
    | _ => (Raise unpack_error, book)
    end.

Definition add_contact (args : list str) := input_error (add_contact_body args).

Definition change_contact_body (args : list str) (book : AddressBook)
  : result str * AddressBook :=
  if (List.length args <? 3)%nat then
    (Return (u "Будь ласка, вкажіть ім'я, старий і новий телефон."), book)
  else
    match args with
    | name :: old_phone :: new_phone :: _ =>
        match find name book with
        | None => (Return (not_found name), book)
        | Some record =>
            let (r, book') :=
              call_on name record (edit_phone old_phone new_phone) book in
            ((_ <- r ;;
              Return (u "Телефонний номер для " ++ name ++ u " змінено."))%result,
             book')
        end
    | _ => (Raise unpack_error, book)
    end.

Definition change_contact (args : list str) := input_error (change_contact_body args).

Definition show_phone_body (args : list str) (book : AddressBook)
  : result str * AddressBook :=
  if (List.length args <? 1)%nat then
    (Return (u "Будь ласка, вкажіть ім'я."), book)
  else
    match args with
    | name :: _ =>
        match find name book with
        | None => (Return (not_found name), book)
        | Some record => (Return (join (u ", ") (phones record)), book)
        end
    | _ => (Raise unpack_error, book)
    end.

Definition show_phone (args : list str) := input_error (show_phone_body args).

Definition show_all_contacts_body (book : AddressBook)
  : result str * AddressBook :=
  match book with
  | [] => (Return (u "Адресна книга порожня."), book)
  | _ => (Return (join [10%N] (map Record_str (values book))), book)
  end.

Definition show_all_contacts := input_error show_all_contacts_body.

(** ** The command loop *)

(** [parse_input] *)
Definition parse_input (user_input : str) : result (str * list str) :=
  let parts := split (strip user_input) in
  match parts with
  | [] => Raise (Exn IndexError (u "list index out of range"))
  | part0 :: args => Return (lower part0, args)
  end.

(** What the process has at hand between two commands. *)
Record world {P : Pickle} := World
  { book : AddressBook;
    fs : filesystem;
    stdout : list str }.      (* everything printed so far *)

Arguments World {P} _ _ _.

Definition print {P : Pickle} (text : str) (w : world) : world :=
  {| book := book w; fs := fs w; stdout := stdout w ++ [text] |}.

Definition print_handler {P : Pickle}
           (h : AddressBook -> str * AddressBook) (w : world) : world :=
  let (text, book') := h (book w) in
  {| book := book'; fs := fs w; stdout := stdout w ++ [text] |}.

Inductive control := Continue | Break.

(** One turn of the [while True] loop of [main], on the line that
    [input] has returned; [today] is the clock at that moment. *)
Definition main_iteration {P : Pickle} (today : datetime) (user_input : str)
           (w : world) : result (control * world) :=
  let w := print (u "Введіть команду: ") w in
  (parsed <- parse_input user_input ;;
   let (command, args) := (parsed : str * list str) in
   if str_eqb command (u "close") || str_eqb command (u "exit") then
     (fs' <- save_data (book w) default_filename (fs w) ;;
      Return (Break,
              print (u "До побачення!")
                    {| book := book w; fs := fs'; stdout := stdout w |}))
   else if str_eqb command (u "hello") then
     Return (Continue, print (u "Чим я можу допомогти?") w)
   else if str_eqb command (u "add") then
     Return (Continue, print_handler (add_contact args) w)
   else if str_eqb command (u "change") then
     Return (Continue, print_handler (change_contact args) w)
   else if str_eqb command (u "phone") then
     Return (Continue, print_handler (show_phone args) w)
   else if str_eqb command (u "all") then
     Return (Continue, print_handler show_all_contacts w)
   else if str_eqb command (u "add-birthday") then
     Return (Continue, print_handler (add_birthday_cmd args) w)
   else if str_eqb command (u "show-birthday") then
     Return (Continue, print_handler (show_birthday args) w)
   else if str_eqb command (u "birthdays") then
     Return (Continue, print_handler (birthdays today args) w)
   else Return (Continue, print (u "Неправильна команда.") w))%result.

(** The loop, fed with the lines the operator types and the clock at each
    of them; [input] raises [EOFError] when no line is left. *)
Fixpoint main_loop {P : Pickle} (inputs : list (datetime * str)) (w : world)
  : result world :=
  match inputs with
  | [] => Raise (Exn EOFError (u "EOF when reading a line"))
  | (today, user_input) :: inputs' =>
      (r <- main_iteration today user_input w ;;
       match r with
       | (Break, w') => Return w'
       | (Continue, w') => main_loop inputs' w'
       end)%result
  end.

(** [main] *)
Definition main {P : Pickle} (inputs : list (datetime * str)) (fs0 : filesystem)
  : result world :=
  (book0 <- load_data default_filename fs0 ;;
   main_loop inputs
     {| book := book0; fs := fs0;
        stdout := [u "Ласкаво просимо до асистента!"] |})%result.

(** ** A concrete serialisation

    A small implementation of the [Pickle] interface with bytes for
    contents, for the examples of what holds whatever implements
    [pickle].  Numbers are written on four bytes,
    most significant first; a string is its length and its characters; a
    list is its length and its items. *)

Module Framed.

Definition parser (A : Type) := bytes -> option (A * bytes).

Definition enc32 (n : N) : bytes :=
  [(n / 16777216) mod 256; (n / 65536) mod 256; (n / 256) mod 256;
   n mod 256]%N.

Definition dec32 : parser N :=
  fun bs =>
    match bs with
    | a :: b :: c :: d :: t =>
        Some ((((a * 256 + b) * 256 + c) * 256 + d)%N, t)
    | _ => None
    end.

Fixpoint dec_list {A} (n : nat) (item : parser A) : parser (list A) :=
  fun bs =>
    match n with
    | O => Some ([], bs)
    | S n' =>
        match item bs with
        | Some (x, bs') =>
            match dec_list n' item bs' with
            | Some (xs, bs'') => Some (x :: xs, bs'')
            | None => None
            end
        | None => None
        end
    end.

Definition enc_list {A} (item : A -> bytes) (l : list A) : bytes :=
  enc32 (N.of_nat (List.length l)) ++ List.concat (map item l).

Definition dec_counted {A} (item : parser A) : parser (list A) :=
  fun bs =>
    match dec32 bs with
    | Some (n, bs') => dec_list (N.to_nat n) item bs'
    | None => None
    end.

Definition enc_str (s : str) : bytes := enc_list enc32 s.
Definition dec_str : parser str := dec_counted dec32.

Definition enc_Z (z : Z) : bytes := enc32 (Z.to_N z).
Definition dec_Z : parser Z :=
  fun bs =>
    match dec32 bs with
    | Some (n, bs') => Some (Z.of_N n, bs')
    | None => None
    end.

Definition enc_birthday (b : option datetime) : bytes :=
  match b with
  | None => [0%N]
  | Some dt => 1%N :: List.concat (map enc_Z (fields dt))
  end.

Definition dec_birthday : parser (option datetime) :=
  fun bs =>
    match bs with
    | 0%N :: t => Some (None, t)
    | 1%N :: t =>
        match dec_list 7 dec_Z t with
        | Some ([y; m; d; h; mi; s; us], t') =>
            Some (Some (DT y m d h mi s us), t')
        | _ => None
        end
    | _ => None
    end.

Definition enc_record (r : Record_) : bytes :=
  enc_str (name r) ++ enc_list enc_str (phones r)
    ++ enc_birthday (birthday r).

Definition dec_record : parser Record_ :=
  fun bs =>
    match dec_str bs with
    | Some (n, bs1) =>
        match dec_counted dec_str bs1 with
        | Some (ps, bs2) =>
            match dec_birthday bs2 with
            | Some (b, bs3) => Some (MkRecord n ps b, bs3)
            | None => None
            end
        | None => None
        end
    | None => None
    end.

Definition enc_entry (kv : str * Record_) : bytes :=
  enc_str (fst kv) ++ enc_record (snd kv).

Definition dec_entry : parser (str * Record_) :=
  fun bs =>
    match dec_str bs with
    | Some (k, bs1) =>
        match dec_record bs1 with
        | Some (r, bs2) => Some ((k, r), bs2)
        | None => None
        end
    | None => None
    end.

Definition dumps (book : AddressBook) : bytes := enc_list enc_entry book.

Definition loads (bs : bytes) : result AddressBook :=
  match dec_counted dec_entry bs with
  | Some (book, []) => Return book
  | _ => Raise (Exn UnpicklingError (u "invalid load key"))
  end.

Definition pickle : Pickle := MkPickle bytes dumps loads.

End Framed.

(** ** [pickle], protocol 4

    What [pickle.dump] writes for the objects of the program and what
    [pickle.load] makes of it, at the level of the opcodes of the pickle
    machine (after [Lib/pickle.py] and [Modules/_pickle.c] of CPython
    3.11, protocol 4, the default).  The encoding of the opcodes in bytes
    is left out: opcodes that differ only by the width of a length or of
    an index ([SHORT_BINUNICODE], [BINUNICODE] and [BINUNICODE8];
    [BINGET] and [LONG_BINGET]; [SHORT_BINBYTES] and [BINBYTES]) are one
    opcode here, and [FRAME], which only tells the reader how many bytes
    follow, does not appear.  The machine is written out for the opcodes
    and the classes that the pickle of an address book uses. *)

Module pickle.

#[local] Set Warnings "-register-all".

(** What the machine has on its stack and in its memo. *)
Inductive pyval :=
| PNone
| PMark                                   (* the mark of [MARK] *)
| PStr (s : str)
| PBytes (b : bytes)
| PTuple (items : list pyval)
| PList (items : list pyval)
| PDict (items : list (str * pyval))      (* keys in insertion order *)
| PClass (module qualname : str)
| PInstance (module qualname : str) (dict : list (str * pyval))
| PDatetime (dt : datetime).

Inductive opcode :=
| PROTO (version : N)
| STOP
| NONE
| UNICODE (s : str)
| BYTES (b : bytes)
| MEMOIZE
| GET (i : nat)
| STACK_GLOBAL
| EMPTY_TUPLE
| TUPLE1
| NEWOBJ
| REDUCE
| BUILD
| EMPTY_DICT
| EMPTY_LIST
| MARK
| SETITEM
| SETITEMS
| APPEND
| APPENDS.

(** *** [datetime.__reduce_ex__] and the constructor it names *)

(** [datetime._getstate]: year on two bytes, month, day, hour, minute,
    second, microsecond on three bytes. *)
Definition getstate (dt : datetime) : bytes :=
  map Z.to_N
      [year dt / 256; year dt mod 256; month dt; day dt;
       hour dt; minute dt; second dt;
       microsecond dt / 65536; (microsecond dt / 256) mod 256;
       microsecond dt mod 256]%Z.

(** [datetime(state)]: ten bytes with a month from 1 to 12 (bit 7 of the
    month is the [fold] flag, which the model does not keep) are taken
    as they are. *)
Definition setstate (state : bytes) : option datetime :=
  match state with
  | [yhi; ylo; m; d; h; mi; s; us1; us2; us3] =>
      let m := (m mod 128)%N in
      if ((1 <=? m) && (m <=? 12))%N then
        Some (DT (Z.of_N (yhi * 256 + ylo)) (Z.of_N m) (Z.of_N d)
                 (Z.of_N h) (Z.of_N mi) (Z.of_N s)
                 (Z.of_N ((us1 * 256 + us2) * 256 + us3)))
      else None
  | _ => None
  end.

(** *** Unpickling *)

Definition main_module : str := u "__main__".
Definition datetime_module : str := u "datetime".

(** The classes [find_class] is asked for: those of the program, which
    runs as [__main__], and [datetime.datetime]. *)
Definition classes : list (str * str) :=
  [(main_module, u "AddressBook"); (main_module, u "Record");
   (main_module, u "Field"); (main_module, u "Name");
   (main_module, u "Phone"); (main_module, u "Birthday");
   (datetime_module, u "datetime")].

Definition find_class (module qualname : str) : result pyval :=
  if existsb (fun c => str_eqb (fst c) module && str_eqb (snd c) qualname)
             classes
  then Return (PClass module qualname)
  else Raise (Exn AttributeError (u "Can't get attribute")).

Definition underflow {A} : result A :=
  Raise (Exn UnpicklingError (u "unpickling stack underflow")).

Definition type_error {A} : result A :=
  Raise (Exn TypeError (u "bad argument type")).

(** [d[k] = v] *)
Fixpoint setitem (k : str) (v : pyval) (d : list (str * pyval))
  : list (str * pyval) :=
  match d with
  | [] => [(k, v)]
  | (k', v') :: d' =>
      if str_eqb k' k then (k', v) :: d' else (k', v') :: setitem k v d'
  end.

Definition update (d items : list (str * pyval)) : list (str * pyval) :=
  fold_left (fun d kv => setitem (fst kv) (snd kv) d) items d.

(** Keys and values as they alternate on the stack. *)
Fixpoint pairs (items : list pyval) : option (list (str * pyval)) :=
  match items with
  | [] => Some []
  | PStr k :: v :: rest => option_map (cons (k, v)) (pairs rest)
  | _ => None
  end.

(** What lies above the topmost mark, oldest first, and what lies below
    it. *)
Fixpoint pop_mark (stack items : list pyval)
  : option (list pyval * list pyval) :=
  match stack with
  | [] => None
  | PMark :: rest => Some (items, rest)
  | v :: rest => pop_mark rest (v :: items)
  end.

(** [cls.__new__] called on [cls] and [args], for a class of the program. *)
Definition newobj (cls args : pyval) : result pyval :=
  match cls, args with
  | PClass module qualname, PTuple [] =>
      if str_eqb module main_module then Return (PInstance module qualname [])
      else type_error
  | _, _ => type_error
  end.

(** [callable] called on [args], for [datetime.datetime]. *)
Definition reduce (callable args : pyval) : result pyval :=
  match callable, args with
  | PClass module qualname, PTuple [PBytes state] =>
      if str_eqb module datetime_module && str_eqb qualname (u "datetime")
      then match setstate state with
           | Some dt => Return (PDatetime dt)
           | None => type_error
           end
      else type_error
  | _, _ => type_error
  end.

(** [inst.__dict__.update(state)] *)
Definition build (inst state : pyval) : result pyval :=
  match inst, state with
  | PInstance module qualname dict, PDict items =>
      Return (PInstance module qualname (update dict items))
  | _, _ => type_error
  end.

Definition setitems (dict : pyval) (items : list pyval) : result pyval :=
  match dict, pairs items with
  | PDict d, Some kvs => Return (PDict (update d kvs))
  | _, _ => type_error
  end.

Definition extend (list_ : pyval) (items : list pyval) : result pyval :=
  match list_ with
  | PList l => Return (PList (l ++ items))
  | _ => type_error
  end.

(** The stack and the memo. *)
Definition machine := (list pyval * list pyval)%type.

(** One opcode other than [STOP]. *)
Definition step (op : opcode) (s : machine) : result machine :=
  let (stack, memo) := s in
  match op with
  | PROTO version =>
      if (version <=? 5)%N then Return s
      else Raise (Exn ValueError (u "unsupported pickle protocol"))
  | STOP => Return s
  | NONE => Return (PNone :: stack, memo)
  | UNICODE x => Return (PStr x :: stack, memo)
  | BYTES b => Return (PBytes b :: stack, memo)
  | MEMOIZE =>
      match stack with
      | v :: _ => Return (stack, memo ++ [v])
      | [] => underflow
      end
  | GET i =>
      match nth_error memo i with
      | Some v => Return (v :: stack, memo)
      | None => Raise (Exn UnpicklingError (u "Memo value not found"))
      end
  | STACK_GLOBAL =>
      match stack with
      | PStr qualname :: PStr module :: rest =>
          (c <- find_class module qualname ;; Return (c :: rest, memo))%result
      | _ :: _ :: _ =>
          Raise (Exn UnpicklingError (u "STACK_GLOBAL requires str"))
      | _ => underflow
      end
  | EMPTY_TUPLE => Return (PTuple [] :: stack, memo)
  | TUPLE1 =>
      match stack with
      | v :: rest => Return (PTuple [v] :: rest, memo)
      | [] => underflow
      end
  | NEWOBJ =>
      match stack with
      | args :: cls :: rest =>
          (o <- newobj cls args ;; Return (o :: rest, memo))%result
      | _ => underflow
      end
  | REDUCE =>
      match stack with
      | args :: callable :: rest =>
          (o <- reduce callable args ;; Return (o :: rest, memo))%result
      | _ => underflow
      end
  | BUILD =>
      match stack with
      | state :: inst :: rest =>
          (o <- build inst state ;; Return (o :: rest, memo))%result
      | _ => underflow
      end
  | EMPTY_DICT => Return (PDict [] :: stack, memo)
  | EMPTY_LIST => Return (PList [] :: stack, memo)
  | MARK => Return (PMark :: stack, memo)
  | SETITEM =>
      match stack with
      | v :: k :: dict :: rest =>
          (d <- setitems dict [k; v] ;; Return (d :: rest, memo))%result
      | _ => underflow
      end
  | SETITEMS =>
      match pop_mark stack [] with
      | Some (items, dict :: rest) =>
          (d <- setitems dict items ;; Return (d :: rest, memo))%result
      | _ => underflow
      end
  | APPEND =>
      match stack with
      | v :: list_ :: rest =>
          (l <- extend list_ [v] ;; Return (l :: rest, memo))%result
      | _ => underflow
      end
  | APPENDS =>
      match pop_mark stack [] with
      | Some (items, list_ :: rest) =>
          (l <- extend list_ items ;; Return (l :: rest, memo))%result
      | _ => underflow
      end
  end.

(** The loop of [Unpickler.load]: opcodes are read and run until [STOP],
    which gives the top of the stack. *)
Fixpoint run (ops : list opcode) (s : machine) : result pyval :=
  match ops with
  | [] => Raise (Exn EOFError (u "Ran out of input"))
  | STOP :: _ =>
      match fst s with
      | v :: _ => Return v
      | [] => underflow
      end
  | op :: rest => (s' <- step op s ;; run rest s')%result
  end.

(** [pickle.loads] *)
Definition loads (ops : list opcode) : result pyval := run ops ([], []).

(** *** Pickling *)

(** The objects that are pickled.  A [str] carries the identity of the
    object when another reference to the same object may follow: the
    pickler writes an object it has met before as a reference into its
    memo. *)
Inductive obj :=
| ONone
| OStr (id : option nat) (s : str)
| OList (items : list obj)
| ODict (items : list (option nat * str * obj))
| OInstance (module qualname : str) (dict : list (str * obj))
| ODatetime (dt : datetime).

(** The objects that can be met twice: the name of a module and the
    name of a class (two attributes of the class), a class, the name of
    an attribute (interned), and a [str] of the data. *)
Inductive token :=
| TModule (module : str)
| TQualname (qualname : str)
| TClass (module qualname : str)
| TAttr (name : str)
| TData (id : nat) (s : str).

Definition token_eqb (a b : token) : bool :=
  match a, b with
  | TModule m, TModule m' => str_eqb m m'
  | TQualname n, TQualname n' => str_eqb n n'
  | TClass m n, TClass m' n' => str_eqb m m' && str_eqb n n'
  | TAttr x, TAttr x' => str_eqb x x'
  | TData i s, TData i' s' => Nat.eqb i i' && str_eqb s s'
  | _, _ => false
  end.

(** The memo of the pickler: at each index, the object memoized there if
    it is one that can be met again. *)
Definition memo := list (option token).

Fixpoint index_from (i : nat) (t : token) (m : memo) : option nat :=
  match m with
  | [] => None
  | Some t' :: m' =>
      if token_eqb t' t then Some i else index_from (S i) t m'
  | None :: m' => index_from (S i) t m'
  end.

(** A piece of the pickler: the opcodes written and the memo afterwards. *)
Definition pickler := memo -> list opcode * memo.

Definition write (ops : list opcode) : pickler := fun m => (ops, m).

Definition and_then (p q : pickler) : pickler :=
  fun m => let (ops1, m1) := p m in
           let (ops2, m2) := q m1 in (ops1 ++ ops2, m2).

Infix ">>" := and_then (at level 61, right associativity).

(** [Pickler.memoize] *)
Definition memoize (t : option token) : pickler :=
  fun m => ([MEMOIZE], m ++ [t]).

(** The head of [Pickler.save]: an object already in the memo is written
    as a reference. *)
Definition save_once (t : token) (p : pickler) : pickler :=
  fun m => match index_from 0 t m with
           | Some i => ([GET i], m)
           | None => (p >> memoize (Some t)) m
           end.

(** [save_str] *)
Definition save_str (t : option token) (s : str) : pickler :=
  match t with
  | Some t => save_once t (write [UNICODE s])
  | None => write [UNICODE s] >> memoize None
  end.

(** [save_global] *)
Definition save_global (module qualname : str) : pickler :=
  save_once (TClass module qualname)
            (save_str (Some (TModule module)) module
             >> save_str (Some (TQualname qualname)) qualname
             >> write [STACK_GLOBAL]).

Definition BATCHSIZE : nat := 1000.

(** The loop of [batch_list_exact] and [batch_dict_exact], after the
    first [MARK]: items are written in batches of [BATCHSIZE], each
    between a [MARK] and [close].  After a full batch the list loop goes
    on if items are left, the dict loop ([again]) in any case. *)
Fixpoint batch (close : opcode) (again : bool) (room : nat)
         (items : list pickler) : pickler :=
  match items with
  | [] => write [close]
  | item :: items' =>
      match room with
      | S (S room') => item >> batch close again (S room') items'
      | _ =>
          item >> write [close]
          >> match items' with
             | [] => if again then write [MARK; close] else write []
             | _ :: _ => write [MARK] >> batch close again BATCHSIZE items'
             end
      end
  end.

(** [batch_list_exact] *)
Definition batch_appends (items : list pickler) : pickler :=
  match items with
  | [] => write []
  | [item] => item >> write [APPEND]
  | _ => write [MARK] >> batch APPENDS false BATCHSIZE items
  end.

(** [batch_dict_exact] *)
Definition batch_setitems (items : list pickler) : pickler :=
  match items with
  | [] => write []
  | [item] => item >> write [SETITEM]
  | _ => write [MARK] >> batch SETITEMS true BATCHSIZE items
  end.

(** [save_dict] *)
Definition save_dict (items : list pickler) : pickler :=
  write [EMPTY_DICT] >> memoize None >> batch_setitems items.

(** [Pickler.save], with [save_list], [save_dict] and [save_reduce]: an
    instance is reduced to [copyreg.__newobj__], its class and its
    [__dict__] (nothing more when that is empty); a [datetime] to its
    class and its state. *)
Fixpoint save (o : obj) : pickler :=
  match o with
  | ONone => write [NONE]
  | OStr id s => save_str (option_map (fun i => TData i s) id) s
  | OList items =>
      write [EMPTY_LIST] >> memoize None >> batch_appends (map save items)
  | ODict items =>
      save_dict
        (map (fun kv : option nat * str * obj =>
                let (key, v) := kv in
                let (id, k) := key in
                save_str (option_map (fun i => TData i k) id) k >> save v)
             items)
  | OInstance module qualname dict =>
      save_global module qualname
      >> write [EMPTY_TUPLE; NEWOBJ] >> memoize None
      >> match dict with
         | [] => write []
         | _ :: _ =>
             save_dict
               (map (fun kv : str * obj =>
                       let (k, v) := kv in
                       save_str (Some (TAttr k)) k >> save v)
                    dict)
             >> write [BUILD]
         end
  | ODatetime dt =>
      save_global datetime_module (u "datetime")
      >> write [BYTES (getstate dt)] >> memoize None
      >> write [TUPLE1] >> memoize None
      >> write [REDUCE] >> memoize None
  end.

(** [pickle.dumps] *)
Definition dumps (o : obj) : list opcode :=
  [PROTO 4] ++ fst (save o []) ++ [STOP].

(** *** What a pickle unpickles to *)

(** What the machine builds from the pickle of an object. *)
Fixpoint value (o : obj) : pyval :=
  match o with
  | ONone => PNone
  | OStr _ s => PStr s
  | OList items => PList (map value items)
  | ODict items =>
      PDict (update []
               (map (fun kv : option nat * str * obj =>
                       (snd (fst kv), value (snd kv))) items))
  | OInstance module qualname dict =>
      PInstance module qualname
        (update []
           (map (fun kv : str * obj => (fst kv, value (snd kv))) dict))
  | ODatetime dt =>
      match setstate (getstate dt) with
      | Some dt' => PDatetime dt'
      | None => PNone
      end
  end.

(** The objects for which the machine is written out: instances of the
    classes of the program, and [datetime]s whose state is read back. *)
Fixpoint picklable (o : obj) : bool :=
  match o with
  | ONone | OStr _ _ => true
  | OList items => forallb picklable items
  | ODict items =>
      forallb (fun kv : option nat * str * obj => picklable (snd kv)) items
  | OInstance module qualname dict =>
      str_eqb module main_module
      && is_return (find_class module qualname)
      && forallb (fun kv : str * obj => picklable (snd kv)) dict
  | ODatetime dt =>
      match setstate (getstate dt) with Some _ => true | None => false end
  end.

(** The object behind a token. *)
Definition token_value (t : token) : pyval :=
  match t with
  | TModule module => PStr module
  | TQualname qualname => PStr qualname
  | TClass module qualname => PClass module qualname
  | TAttr name => PStr name
  | TData _ s => PStr s
  end.

(** The memo of the pickler and the memo of the machine go together:
    they hold the same objects at the same indices. *)
Definition agree (m : memo) (machine_memo : list pyval) : Prop :=
  Forall2 (fun t v => match t with
                      | Some t => v = token_value t
                      | None => True
                      end) m machine_memo.

(** The elements of a container as they lie on the stack before the
    opcode that closes a batch, the latest on top. *)
Definition pushed {E} (push : E -> list pyval) (es : list E) : list pyval :=
  List.concat (map push (rev es)).

(** An item of a dict: the value on top of the key. *)
Definition push_item (kv : str * pyval) : list pyval :=
  [snd kv; PStr (fst kv)].

Definition no_mark (kv : str * pyval) : Prop := snd kv <> PMark.

(** Keys and values as [SETITEMS] finds them above the mark. *)
Fixpoint flat (kvs : list (str * pyval)) : list pyval :=
  match kvs with
  | [] => []
  | (k, v) :: kvs' => PStr k :: v :: flat kvs'
  end.

(** The opcodes a piece of the pickler writes take the stack of the
    machine from [before] to [after], and the memos still agree. *)
Definition acts (p : pickler) (before after : list pyval) : Prop :=
  forall m machine_memo rest,
    agree m machine_memo ->
    exists machine_memo',
      run (fst (p m) ++ rest) (before, machine_memo)
      = run rest (after, machine_memo')
      /\ agree (snd (p m)) machine_memo'.

(** A piece of the pickler that leaves the element [e] on the stack. *)
Definition saves {E} (push : E -> list pyval) (ok : E -> Prop)
           (p : pickler) (e : E) : Prop :=
  ok e /\ forall st, acts p st (push e ++ st).

End pickle.

(** ** The address book as [pickle] sees it *)

(** The objects behind a book, as the classes of the program lay them
    out: a [Field] has its [value], a [Record] its [name], [phones] and
    [birthday], an [AddressBook] (a [UserDict]) its [data].  The key of
    an entry is the very object that is the [value] of the record's
    name, as [add_record] files it. *)
Definition field_obj (cls : string) (value : pickle.obj) : pickle.obj :=
  pickle.OInstance pickle.main_module (u cls) [(u "value", value)].

Definition record_obj (id : nat) (r : Record_) : pickle.obj :=
  pickle.OInstance pickle.main_module (u "Record")
    [(u "name", field_obj "Name" (pickle.OStr (Some id) (name r)));
     (u "phones",
      pickle.OList
        (map (fun p => field_obj "Phone" (pickle.OStr None p)) (phones r)));
     (u "birthday",
      match birthday r with
      | None => pickle.ONone
      | Some dt => field_obj "Birthday" (pickle.ODatetime dt)
      end)].

Fixpoint entries_obj (id : nat) (book : AddressBook)
  : list (option nat * str * pickle.obj) :=
  match book with
  | [] => []
  | (k, r) :: book' =>
      (Some id, k, record_obj id r) :: entries_obj (S id) book'
  end.

Definition book_obj (book : AddressBook) : pickle.obj :=
  pickle.OInstance pickle.main_module (u "AddressBook")
    [(u "data", pickle.ODict (entries_obj 0 book))].

(** What the machine builds for a field and for a record. *)
Definition field_val (cls : string) (v : pickle.pyval) : pickle.pyval :=
  pickle.PInstance pickle.main_module (u cls) [(u "value", v)].

Definition record_val (r : Record_) : pickle.pyval :=
  pickle.PInstance pickle.main_module (u "Record")
    [(u "name", field_val "Name" (pickle.PStr (name r)));
     (u "phones",
      pickle.PList (map (fun p => field_val "Phone" (pickle.PStr p)) (phones r)));
     (u "birthday",
      match birthday r with
      | None => pickle.PNone
      | Some dt => field_val "Birthday" (pickle.PDatetime dt)
      end)].

(** The book behind the object that [pickle.load] has built: attributes
    are looked up by name, as the program does. *)
Definition not_a_book {A} : result A :=
  Raise (Exn AttributeError (u "object has no such attribute")).

Fixpoint getattr (name : str) (dict : list (str * pickle.pyval))
  : result pickle.pyval :=
  match dict with
  | [] => not_a_book
  | (k, v) :: dict' => if str_eqb k name then Return v else getattr name dict'
  end.

Definition value_of_field (cls : string) (v : pickle.pyval)
  : result pickle.pyval :=
  match v with
  | pickle.PInstance module qualname dict =>
      if str_eqb module pickle.main_module && str_eqb qualname (u cls)
      then getattr (u "value") dict
      else not_a_book
  | _ => not_a_book
  end.

Fixpoint traverse {A B} (f : A -> result B) (l : list A) : result (list B) :=
  match l with
  | [] => Return []
  | x :: l' => (y <- f x ;; ys <- traverse f l' ;; Return (y :: ys))%result
  end.

Definition str_of (v : pickle.pyval) : result str :=
  match v with
  | pickle.PStr s => Return s
  | _ => not_a_book
  end.

Definition birthday_of (v : pickle.pyval) : result (option datetime) :=
  match v with
  | pickle.PNone => Return None
  | _ =>
      (d <- value_of_field "Birthday" v ;;
       match d with
       | pickle.PDatetime dt => Return (Some dt)
       | _ => not_a_book
       end)%result
  end.

Definition record_of (v : pickle.pyval) : result Record_ :=
  match v with
  | pickle.PInstance module qualname dict =>
      if str_eqb module pickle.main_module && str_eqb qualname (u "Record")
      then
        (n <- getattr (u "name") dict ;;
         n <- value_of_field "Name" n ;;
         n <- str_of n ;;
         ps <- getattr (u "phones") dict ;;
         ps <- match ps with
               | pickle.PList items =>
                   traverse (fun p => (p <- value_of_field "Phone" p ;;
                                       str_of p)%result) items
               | _ => not_a_book
               end ;;
         b <- getattr (u "birthday") dict ;;
         b <- birthday_of b ;;
         Return {| name := n; phones := ps; birthday := b |})%result
      else not_a_book
  | _ => not_a_book
  end.

Definition book_of (v : pickle.pyval) : result AddressBook :=
  match v with
  | pickle.PInstance module qualname dict =>
      if str_eqb module pickle.main_module
         && str_eqb qualname (u "AddressBook")
      then
        (d <- getattr (u "data") dict ;;
         match d with
         | pickle.PDict entries =>
             traverse (fun kv : str * pickle.pyval =>
                         (r <- record_of (snd kv) ;; Return (fst kv, r))%result)
                      entries
         | _ => not_a_book
         end)%result
      else not_a_book
  | _ => not_a_book
  end.

(** [pickle.dump] and [pickle.load] of the program, protocol 4. *)
Definition pickle4 : Pickle :=
  MkPickle (list pickle.opcode)
           (fun book => pickle.dumps (book_obj book))
           (fun ops => (v <- pickle.loads ops ;; book_of v)%result).

(** Two contacts and the clock used in the examples. *)
Definition alice : Record_ :=
  {| name := u "Alice"; phones := [u "0501234567"; u "0509999999"];
     birthday := Some (DT 1990 3 3 0 0 0 0) |}.

Definition bob : Record_ :=
  {| name := u "Bob"; phones := []; birthday := Some (DT 2000 2 29 0 0 0 0) |}.

Definition sample_book : AddressBook := [(u "Bob", bob); (u "Alice", alice)].

Definition no_files {P : Pickle} : filesystem := fun _ => None.

(** A file the process may neither read nor write. *)
Definition permission_denied : exn :=
  Exn PermissionError (u "Permission denied").

Definition locked {P : Pickle} : node :=
  Other (Raise permission_denied) (Some permission_denied).

(** [/dev/null]: anything can be written there, and reading gives
    nothing. *)
Definition dev_null : node (P := pickle4) :=
  Other (P := pickle4) (Return ([] : list pickle.opcode)) None.

(** * What the specification says

    Predicates written from the words of the specification, to be compared
    with the functions above. *)

Definition newline : N := 10.
Definition dot : N := 0x2e.
Definition space : N := 0x20.

(** One of the ten characters [0] to [9]. *)
Definition is_ascii_digit (c : N) : bool := ((0x30 <=? c) && (c <=? 0x39))%N.

(** "A string of exactly 10 decimal digits". *)
Definition ten_digits (s : str) : bool :=
  Nat.eqb (List.length s) 10 && forallb is_ascii_digit s.

(** The row of the command table for [add]: the record is created under
    [name] when there is none and reused otherwise, the two cases answer
    with different messages, and in both the phone ends up last in the
    record's phones. *)
Definition add_creates_or_updates (book : AddressBook) (name phone : str)
           (rest : list str) : Prop :=
  let (text, book') := add_contact (name :: phone :: rest) book in
  match find name book with
  | None =>
      text = msg_added
      /\ find name book'
         = Some {| name := name; phones := [phone]; birthday := None |}
  | Some r =>
      text = msg_updated
      /\ find name book'
         = Some {| name := key_of r; phones := phones r ++ [phone];
                   birthday := birthday r |}
  end.

(** The birthday of a record moved to the year of [today]: month, day and
    time of day kept, year replaced. *)
Definition anchored (today : datetime) (r : Record_) : option datetime :=
  match birthday r with
  | Some b =>
      Some (DT (year today) (month b) (day b) (hour b) (minute b)
               (second b) (microsecond b))
  | None => None
  end.

(** [today <= anchored < upcoming] *)
Definition in_window (today upcoming : datetime) (r : Record_) : bool :=
  match anchored today r with
  | Some a => Datetime.le today a && Datetime.lt a upcoming
  | None => false
  end.

(** The names the query is said to return, in the order of the book. *)
Definition window_names (today upcoming : datetime) (book : AddressBook)
  : list str :=
  map name (filter (in_window today upcoming) (values book)).

(** A datetime that the constructor of [datetime] accepts. *)
Definition valid_datetime (dt : datetime) : Prop :=
  new (year dt) (month dt) (day dt) (hour dt) (minute dt) (second dt)
      (microsecond dt) = Return dt.

(** The invariant of the data model, for a given rule on phones: every
    phone of every record obeys the rule, every birthday is a calendar
    date, and every key is the name of the record stored under it. *)
Definition record_inv (rule : str -> bool) (r : Record_) : Prop :=
  Forall (fun p => rule p = true) (phones r)
  /\ (forall b, birthday r = Some b -> valid_datetime b).

Definition entry_inv (rule : str -> bool) (kv : str * Record_) : Prop :=
  fst kv = name (snd kv) /\ record_inv rule (snd kv).

Definition book_inv (rule : str -> bool) (book : AddressBook) : Prop :=
  Forall (entry_inv rule) book.

(** The strings a pattern without anchors matches in full. *)
Fixpoint lang_times (k : nat) (L : str -> Prop) (f : str) : Prop :=
  match k with
  | O => f = []
  | S k' => exists f1 f2, f = f1 ++ f2 /\ L f1 /\ lang_times k' L f2
  end.

Fixpoint lang (r : Re.regex) (f : str) : Prop :=
  match r with
  | Re.Bol | Re.Eol => f = []
  | Re.Chr c => f = [c]
  | Re.In cs => exists x, f = [x] /\ Re.charset_mem cs x = true
  | Re.Seq r1 r2 => exists f1 f2, f = f1 ++ f2 /\ lang r1 f1 /\ lang r2 f2
  | Re.Alt r1 r2 => lang r1 f \/ lang r2 f
  | Re.Repeat n r1 => lang_times n (lang r1) f
  | Re.Group _ r1 => lang r1 f
  end.

(** Patterns made of characters, classes, sequences, alternatives and
    repetitions only. *)
Fixpoint plain (r : Re.regex) : bool :=
  match r with
  | Re.Bol | Re.Eol | Re.Group _ _ => false
  | Re.Chr _ | Re.In _ => true
  | Re.Seq r1 r2 | Re.Alt r1 r2 => plain r1 && plain r2
  | Re.Repeat _ r1 => plain r1
  end.

(** The state reached from [st] by reading [f], with [t] left to read. *)
Definition shift (st : Re.mstate) (f t : str) : Re.mstate :=
  {| Re.pos := Re.pos st + List.length f; Re.rest := t;
     Re.groups := Re.groups st |}.

Definition between (lo c hi : N) : bool := ((lo <=? c) && (c <=? hi))%N.

(** The texts that [%d], [%m] and [%Y] read: a day is [30] or [31], [1]
    or [2] and a decimal digit, [0] and a digit from 1 to 9, one digit
    from 1 to 9, or a space and a digit from 1 to 9; a month is [10] to
    [12], [0] and a digit from 1 to 9, or one digit from 1 to 9; a year is
    four decimal digits. *)
Definition day_field (f : str) : bool :=
  match f with
  | [a; b] =>
      (a =? 0x33)%N && between 0x30 b 0x31
      || between 0x31 a 0x32 && is_decimal b
      || (a =? 0x30)%N && between 0x31 b 0x39
      || (a =? 0x20)%N && between 0x31 b 0x39
  | [a] => between 0x31 a 0x39
  | _ => false
  end.

Definition month_field (f : str) : bool :=
  match f with
  | [a; b] =>
      (a =? 0x31)%N && between 0x30 b 0x32
      || (a =? 0x30)%N && between 0x31 b 0x39
  | [a] => between 0x31 a 0x39
  | _ => false
  end.

Definition year_field (f : str) : bool :=
  Nat.eqb (List.length f) 4 && forallb is_decimal f.

(** The number a field denotes. *)
Definition field_value (f : str) : Z :=
  match digits_value 0 (strip f) with
  | Some z => z
  | None => 0
  end.

(** "Legal calendar values". *)
Definition legal_date (y m d : Z) : bool :=
  in_range MINYEAR y MAXYEAR && in_range 1 m 12
  && in_range 1 d (_days_in_month y m).

Definition bad_date : exn :=
  Exn ValueError (u "Неправильний формат дати. Використовуйте DD.MM.YYYY").

(** A string is a date text when it is a day, a dot, a month, a dot and a
    year. *)
Definition date_text (s d m y : str) : Prop :=
  s = d ++ dot :: m ++ dot :: y
  /\ day_field d = true /\ month_field m = true /\ year_field y = true.

(** "DD.MM.YYYY" read to the letter: two digits, a dot, two digits, a dot,
    four digits; the result is the day, the month and the year. *)
Definition DD_MM_YYYY (s : str) : option (Z * Z * Z) :=
  match s with
  | [d1; d2; p1; m1; m2; p2; y1; y2; y3; y4] =>
      if (p1 =? dot)%N && (p2 =? dot)%N
         && forallb is_ascii_digit [d1; d2; m1; m2; y1; y2; y3; y4]
      then Some (field_value [d1; d2], field_value [m1; m2],
                 field_value [y1; y2; y3; y4])
      else None
  | _ => None
  end.

(** What the claim on [Birthday] says of a string: the date it must
    store, or [None] when the construction must fail. *)
Definition claimed_birthday (s : str) : option datetime :=
  match DD_MM_YYYY s with
  | Some (d, m, y) =>
      if legal_date y m d then Some (DT y m d 0 0 0 0) else None
  | None => None
  end.

Definition Birthday_as_claimed (s : str) : Prop :=
  match claimed_birthday s with
  | Some dt => Birthday_new s = Return dt
  | None => is_return (Birthday_new s) = false
  end.

(** The [len] code points from [lo] on. *)
Fixpoint N_range (lo : N) (len : nat) : list N :=
  match len with
  | O => []
  | S len' => lo :: N_range (N.succ lo) len'
  end.

(** The operations of the model and the commands, each leaving the
    invariant in place. *)
Definition kept_by_all (rule : str -> bool) (book : AddressBook)
           (r : Record_) : Prop :=
  (forall n r', Record_new n = Return r' -> record_inv rule r')
  /\ book_inv rule (add_record r book)
  /\ (forall k, book_inv rule (delete k book))
  /\ (forall p, record_inv rule (snd (add_phone p r)))
  /\ (forall p, record_inv rule (remove_phone p r))
  /\ (forall old new, record_inv rule (snd (edit_phone old new r)))
  /\ (forall text, record_inv rule (snd (add_birthday text r)))
  /\ (forall args, book_inv rule (snd (add_contact args book)))
  /\ (forall args, book_inv rule (snd (change_contact args book)))
  /\ (forall args, book_inv rule (snd (add_birthday_cmd args book)))
  /\ (forall args, book_inv rule (snd (show_phone args book)))
  /\ (forall args, book_inv rule (snd (show_birthday args book)))
  /\ (forall today args, book_inv rule (snd (birthdays today args book)))
  /\ book_inv rule (snd (show_all_contacts book)).

(** A dictionary holds each key once. *)
Definition unique_keys (book : AddressBook) : Prop := NoDup (map fst book).


(** A book as Python can hold one: a dict has each key once, and a
    [datetime] is one the constructor accepts. *)
Definition python_book (book : AddressBook) : Prop :=
  unique_keys book
  /\ Forall (fun r => forall dt, birthday r = Some dt -> valid_datetime dt)
            (values book).

(** A word of the command line: not empty, no whitespace in it. *)
Definition token (t : str) : Prop :=
  t <> [] /\ forallb (fun c => negb (is_space c)) t = true.

(** The line asks to leave: its first word is [exit] or [close] in any
    case of the letters. *)
Definition is_exit (user_input : str) : bool :=
  match parse_input user_input with
  | Return (command, _) =>
      str_eqb command (u "close") || str_eqb command (u "exit")
  | Raise _ => false
  end.

(** The record with its phones replaced. *)
Definition with_phones (r : Record_) (ps : list str) : Record_ :=
  {| name := name r; phones := ps; birthday := birthday r |}.

(** The month and day of [b] do not come before those of [today] in the
    calendar year. *)
Definition not_before (today b : datetime) : Prop :=
  (month today < month b
   \/ (month today = month b /\ day today <= day b))%Z.

(** The ten characters [0] to [9]. *)
Definition ascii_digits : list N := N_range 0x30 10.

(** * Properties *)

(** ** Phone numbers *)

Example validate_phone_plain : validate_phone (u "0501234567") = true.
Proof. reflexivity. Qed.

Example validate_phone_short : validate_phone (u "050123456") = false.
Proof. reflexivity. Qed.

Example validate_phone_long : validate_phone (u "05012345678") = false.
Proof. reflexivity. Qed.

Example validate_phone_letters : validate_phone (u "05012e4567") = false.
Proof. reflexivity. Qed.

(** Ten steps of [\d] consume ten decimal digits or fail. *)
Lemma times_digit (n : nat) (st : Re.mstate) :
  Re.times n (Re.run (Re.In Re.Digit)) st =
  if (n <=? List.length (Re.rest st))%nat
     && forallb is_decimal (firstn n (Re.rest st))
  then [ {| Re.pos := n + Re.pos st; Re.rest := skipn n (Re.rest st);
            Re.groups := Re.groups st |} ]
  else [].
Proof.
  revert st; induction n as [|n IH]; intros [p r g]; simpl.
  - reflexivity.
  - unfold Re.one; simpl. destruct r as [|c t]; simpl; [reflexivity|].
    destruct (is_decimal c); simpl;
      [|now rewrite andb_false_r].
    rewrite app_nil_r, IH; simpl.
    replace (n + S p)%nat with (S (n + p))%nat by lia. reflexivity.
Qed.

(** What [validate_phone] accepts: ten decimal digits, alone or followed
    by one newline. *)
Lemma validate_phone_eq (s : str) :
  validate_phone s =
  (10 <=? List.length s)%nat && forallb is_decimal (firstn 10 s)
  && match skipn 10 s with
     | [] => true
     | [c] => (c =? 10)%N
     | _ => false
     end.
Proof.
  unfold validate_phone, Re.match_, phone_pattern.
  cbn [Re.run Re.pos Nat.eqb flat_map]. rewrite app_nil_r.
  rewrite times_digit. cbn [Re.rest Re.pos Re.groups].
  destruct ((10 <=? List.length s)%nat && forallb is_decimal (firstn 10 s));
    [|reflexivity].
  cbn [flat_map Re.run Re.rest andb]. rewrite app_nil_r.
  destruct (skipn 10 s) as [|c [|c' t]]; try reflexivity.
  destruct (c =? 10)%N; reflexivity.
Qed.

Lemma is_ascii_digit_decimal (c : N) :
  is_ascii_digit c = true -> is_decimal c = true.
Proof.
  unfold is_ascii_digit, is_decimal, decimal_value; intros H.
  cbn [decimal_zeros decimal_in]. 
  apply andb_true_iff in H as [H1 H2].
  apply N.leb_le in H1, H2.
  replace ((48 <=? c)%N && (c <? 48 + 10)%N) with true; [reflexivity|].
  symmetry; apply andb_true_iff; split;
    [apply N.leb_le | apply N.ltb_lt]; lia.
Qed.

Lemma forallb_ascii_decimal (s : str) :
  forallb is_ascii_digit s = true -> forallb is_decimal s = true.
Proof.
  induction s as [|c s IH]; simpl; [reflexivity|].
  intros H; apply andb_true_iff in H as [Hc Hs].
  now rewrite (is_ascii_digit_decimal _ Hc), IH.
Qed.

(** Ten digits are accepted and stored as they are. *)
Lemma Phone_new_ten_digits (s : str) :
  ten_digits s = true -> Phone_new s = Return s.
Proof.
  unfold ten_digits, Phone_new; intros H.
  apply andb_true_iff in H as [Hlen Hdig]. apply Nat.eqb_eq in Hlen.
  rewrite validate_phone_eq.
  rewrite firstn_all2 by lia. rewrite skipn_all2 by lia.
  rewrite (forallb_ascii_decimal _ Hdig), Hlen. reflexivity.
Qed.

(** C2 (the code departs from the claim): a string of eleven characters,
    ten digits and a final newline, is not a string of exactly ten
    decimal digits, and yet [Phone] accepts it and stores it: the [$] of
    the pattern also matches just before a newline that ends the string. *)
Theorem Phone_new_trailing_newline :
  ten_digits (u "0123456789" ++ [newline]) = false
  /\ Phone_new (u "0123456789" ++ [newline])
     = Return (u "0123456789" ++ [newline]).
Proof. split; reflexivity. Qed.

(** ** Editing a phone *)

Lemma filter_absent (old : str) (l : list str) :
  ~ List.In old l -> filter (fun p => negb (str_eqb p old)) l = l.
Proof.
  induction l as [|p l IH]; simpl; intros H; [reflexivity|].
  unfold str_eqb at 1. destruct (list_eq_dec N.eq_dec p old) as [->|Hne].
  - exfalso; apply H; now left.
  - simpl. f_equal. apply IH. intros Hin; apply H; now right.
Qed.

Lemma str_eqb_eq (a b : str) : str_eqb a b = true <-> a = b.
Proof.
  unfold str_eqb; destruct (list_eq_dec N.eq_dec a b); split;
    intros; congruence.
Qed.

Lemma str_eqb_refl (a : str) : str_eqb a a = true.
Proof. now apply str_eqb_eq. Qed.

Lemma str_eqb_neq (a b : str) : str_eqb a b = false <-> a <> b.
Proof.
  unfold str_eqb; destruct (list_eq_dec N.eq_dec a b); split;
    intros; congruence.
Qed.

(** C4: [edit_phone old new] first drops every phone equal to [old] (and
    no other, the rest keeping their order), then appends [new] through
    the validating constructor: the call returns exactly when [new] is a
    valid phone, whether or not [old] was there; and when [old] was not
    there the phones end up as the original list with [new] appended. *)
Theorem edit_phone_remove_then_add (r : Record_) (old new : str) :
  let kept := filter (fun p => negb (str_eqb p old)) (phones r) in
  (forall p, List.In p kept <-> List.In p (phones r) /\ p <> old)
  /\ edit_phone old new r =
     (if validate_phone new
      then (Return tt,
            {| name := name r; phones := kept ++ [new];
               birthday := birthday r |})
      else (Raise (Exn ValueError
                     (u "Номер телефону повинен містити 10 цифр")),
            {| name := name r; phones := kept; birthday := birthday r |}))
  /\ (~ List.In old (phones r) -> kept = phones r).
Proof.
  intros kept; split; [|split].
  - intros p; unfold kept; rewrite filter_In, negb_true_iff, str_eqb_neq.
    tauto.
  - unfold edit_phone, add_phone, remove_phone, Phone_new; simpl.
    destruct (validate_phone new); reflexivity.
  - apply filter_absent.
Qed.

(** ** Persistence *)

Example framed_roundtrip :
  Framed.loads (Framed.dumps sample_book) = Return sample_book.
Proof. vm_compute. reflexivity. Qed.

Lemma read_after_write {P : Pickle} (filename : str) (content : pickled)
      (fs : filesystem) :
  regular fs filename = true ->
  exists fs',
    write_file filename content fs = Return fs'
    /\ read_file filename fs' = Return content
    /\ fs' = fs_write filename content fs.
Proof.
  intros Hreg. exists (fs_write filename content fs).
  unfold write_file, open_wb, read_file. rewrite Hreg.
  unfold regular in Hreg. split; [|split; [|reflexivity]].
  - destruct (fs filename) as [[| |]|]; try discriminate; reflexivity.
  - unfold fs_write. now rewrite str_eqb_refl.
Qed.

(** Whatever implements [pickle]: on a regular file [save_data]
    succeeds, and what [load_data] then reads is what was written,
    unpickled. *)
Lemma load_after_save {P : Pickle} (book : AddressBook) (filename : str)
      (fs : filesystem) :
  regular fs filename = true ->
  exists fs',
    save_data book filename fs = Return fs'
    /\ read_file filename fs' = Return (pickle_dumps book)
    /\ load_data filename fs'
       = match pickle_loads (pickle_dumps book) with
         | Return book' => Return book'
         | Raise e =>
             match exn_cls e with
             | FileNotFoundError => Return []
             | _ => Raise e
             end
         end.
Proof.
  intros Hreg.
  destruct (read_after_write filename (pickle_dumps book) fs Hreg)
    as (fs' & Hwrite & Hread & _).
  exists fs'. unfold save_data, load_data. rewrite Hread.
  split; [exact Hwrite|]. split; reflexivity.
Qed.

(** ** Pickling and unpickling *)

Section Unpickling.

Import pickle.

Lemma token_eqb_eq (a b : token) : token_eqb a b = true -> a = b.
Proof.
  destruct a, b; cbn; try discriminate; intros H;
    repeat match goal with
           | H : _ && _ = true |- _ => apply andb_true_iff in H as [? ?]
           | H : str_eqb _ _ = true |- _ => apply str_eqb_eq in H
           | H : Nat.eqb _ _ = true |- _ => apply Nat.eqb_eq in H
           end; congruence.
Qed.

Lemma index_from_agree (t : token) (m : memo) (vm : list pyval)
      (k i : nat) :
  agree m vm -> index_from k t m = Some i ->
  exists j, i = (k + j)%nat /\ nth_error vm j = Some (token_value t).
Proof.
  intros Hag. revert k. induction Hag as [|t' v m vm Hv Hag IH]; intros k.
  - discriminate.
  - cbn [index_from]. destruct t' as [t'|].
    + destruct (token_eqb t' t) eqn:E.
      * intros [= <-]. apply token_eqb_eq in E. subst t'.
        exists 0%nat. split; [lia|]. cbn. now rewrite Hv.
      * intros H. destruct (IH _ H) as (j & -> & Hj).
        exists (S j). split; [lia|exact Hj].
    + intros H. destruct (IH _ H) as (j & -> & Hj).
      exists (S j). split; [lia|exact Hj].
Qed.

Lemma agree_snoc (t : option token) (v : pyval) (m : memo)
      (vm : list pyval) :
  agree m vm ->
  match t with Some t => v = token_value t | None => True end ->
  agree (m ++ [t]) (vm ++ [v]).
Proof.
  intros Hag Hv. apply Forall2_app; [exact Hag|].
  constructor; [exact Hv|constructor].
Qed.

Lemma run_cons (op : opcode) (rest : list opcode) (s : machine) :
  op <> STOP ->
  run (op :: rest) s = (s' <- step op s ;; run rest s')%result.
Proof. destruct op; intros H; try reflexivity. congruence. Qed.

Lemma acts_nothing (st : list pyval) : acts (write []) st st.
Proof. intros m vm rest Hag. exists vm. split; [reflexivity|exact Hag]. Qed.

(** One opcode that leaves the memo alone. *)
Lemma acts_write (op : opcode) (st st' : list pyval) :
  op <> STOP ->
  (forall vm, step op (st, vm) = Return (st', vm)) ->
  acts (write [op]) st st'.
Proof.
  intros Hop Hstep m vm rest Hag. exists vm. split; [|exact Hag].
  cbn [write fst app]. rewrite (run_cons op rest _ Hop), Hstep. reflexivity.
Qed.

Lemma acts_then (p q : pickler) (a b c : list pyval) :
  acts p a b -> acts q b c -> acts (and_then p q) a c.
Proof.
  intros Hp Hq m vm rest Hag. unfold and_then.
  specialize (Hp m vm). destruct (p m) as [ops1 m1]. cbn [fst snd] in Hp.
  specialize (Hq m1). destruct (q m1) as [ops2 m2]. cbn [fst snd] in *.
  destruct (Hp (ops2 ++ rest) Hag) as (vm1 & E1 & Hag1).
  destruct (Hq vm1 rest Hag1) as (vm2 & E2 & Hag2).
  exists vm2. split; [|exact Hag2]. now rewrite <- app_assoc, E1.
Qed.

Lemma acts_memoize (t : option token) (v : pyval) (st : list pyval) :
  match t with Some t => v = token_value t | None => True end ->
  acts (memoize t) (v :: st) (v :: st).
Proof.
  intros Hv m vm rest Hag. exists (vm ++ [v]). split.
  - reflexivity.
  - now apply agree_snoc.
Qed.

Lemma acts_save_once (t : token) (p : pickler) (st : list pyval) :
  acts p st (token_value t :: st) ->
  acts (save_once t p) st (token_value t :: st).
Proof.
  intros Hp m vm rest Hag. unfold save_once.
  destruct (index_from 0 t m) as [i|] eqn:E.
  - destruct (index_from_agree t m vm 0 i Hag E) as (j & -> & Hj).
    exists vm. split; [|exact Hag]. cbn [fst app Nat.add].
    rewrite run_cons by discriminate. cbn [step]. now rewrite Hj.
  - apply (acts_then p (memoize (Some t)) st _ _ Hp); [|exact Hag].
    now apply acts_memoize.
Qed.

Lemma acts_save_str (t : option token) (s : str) (st : list pyval) :
  (forall t', t = Some t' -> token_value t' = PStr s) ->
  acts (save_str t s) st (PStr s :: st).
Proof.
  intros Ht. unfold save_str. destruct t as [t|].
  - rewrite <- (Ht t eq_refl). apply acts_save_once.
    rewrite (Ht t eq_refl). now apply acts_write.
  - eapply acts_then; [now apply acts_write|now apply acts_memoize].
Qed.

Lemma acts_save_global (module qualname : str) (st : list pyval) :
  is_return (find_class module qualname) = true ->
  acts (save_global module qualname) st (PClass module qualname :: st).
Proof.
  intros Hc. unfold save_global.
  apply (acts_save_once (TClass module qualname)). cbn [token_value].
  eapply acts_then; [apply acts_save_str; now intros t' [= <-]|].
  eapply acts_then; [apply acts_save_str; now intros t' [= <-]|].
  apply acts_write; [discriminate|]. intros vm. cbn [step].
  unfold find_class in *.
  destruct (existsb _ classes); [reflexivity|discriminate].
Qed.

(** *** Batches *)

Lemma pop_mark_above (vs items st : list pyval) :
  Forall (fun v => v <> PMark) vs ->
  pop_mark (vs ++ PMark :: st) items = Some (rev vs ++ items, st).
Proof.
  intros H. revert items. induction H as [|v vs Hv H IH]; intros items.
  - reflexivity.
  - cbn [app pop_mark rev]. rewrite <- app_assoc. cbn [app].
    destruct v; try apply IH. congruence.
Qed.

Section Batch.

(** The elements of a container as they lie on the stack, and what the
    closing opcode of a batch does with them. *)
Variable E : Type.
Variable push : E -> list pyval.       (* top of the stack first *)
Variable ok : E -> Prop.
Variable container : list E -> pyval.
Variable close : opcode.
Variable again : bool.

#[local] Abbreviation pushed := (pickle.pushed push).
#[local] Abbreviation saves := (pickle.saves push ok).

Hypothesis close_not_stop : close <> STOP.
Hypothesis close_step :
  forall (c es : list E) (st vm : list pyval),
    Forall ok es ->
    step close (pushed es ++ PMark :: container c :: st, vm)
    = Return (container (c ++ es) :: st, vm).

Lemma pushed_snoc (es : list E) (e : E) :
  pushed (es ++ [e]) = push e ++ pushed es.
Proof. unfold pushed. now rewrite rev_app_distr. Qed.

Lemma acts_close (c es : list E) (st : list pyval) :
  Forall ok es ->
  acts (write [close]) (pushed es ++ PMark :: container c :: st)
       (container (c ++ es) :: st).
Proof.
  intros Hok. apply acts_write; [exact close_not_stop|].
  intros vm. now apply close_step.
Qed.

Lemma acts_empty_batch (c : list E) (st : list pyval) :
  acts (write [MARK; close]) (container c :: st) (container c :: st).
Proof.
  intros m vm rest Hag. exists vm. split; [|exact Hag].
  cbn [write fst app]. rewrite run_cons by discriminate. cbn [step bind].
  rewrite run_cons by exact close_not_stop.
  change (PMark :: container c :: st)
    with (pushed [] ++ PMark :: container c :: st).
  rewrite close_step, app_nil_r by constructor. reflexivity.
Qed.

Lemma acts_batch (items : list pickler) (es : list E) :
  Forall2 saves items es ->
  forall (room : nat) (c done : list E) (st : list pyval),
    Forall ok done ->
    acts (batch close again room items)
         (pushed done ++ PMark :: container c :: st)
         (container (c ++ done ++ es) :: st).
Proof.
  induction 1 as [|item e items es [He Hitem] Hitems IH];
    intros room c done st Hdone.
  - cbn [batch]. rewrite app_nil_r. now apply acts_close.
  - cbn [batch].
    assert (Forall ok (done ++ [e])) as Hdone'
        by (apply Forall_app; split; [exact Hdone|now constructor]).
    assert (acts item (pushed done ++ PMark :: container c :: st)
                 (pushed (done ++ [e]) ++ PMark :: container c :: st))
      as Hpush.
    { rewrite pushed_snoc, <- app_assoc. apply Hitem. }
    assert (c ++ done ++ e :: es = (c ++ done ++ [e]) ++ [] ++ es) as Hall
        by (cbn [app]; now rewrite <- !app_assoc).
    assert (acts (and_then item
                    (and_then (write [close])
                       match items with
                       | [] => if again then write [MARK; close] else write []
                       | _ :: _ =>
                           and_then (write [MARK])
                                    (batch close again BATCHSIZE items)
                       end))
                 (pushed done ++ PMark :: container c :: st)
                 (container (c ++ done ++ e :: es) :: st)) as Hfull.
    { eapply acts_then; [exact Hpush|].
      eapply acts_then; [now apply acts_close|].
      rewrite Hall. destruct items as [|item' items'].
      - inversion Hitems; subst. cbn [app]. rewrite app_nil_r.
        destruct again; [apply acts_empty_batch|apply acts_nothing].
      - eapply acts_then; [now apply acts_write|].
        apply (IH BATCHSIZE (c ++ done ++ [e]) [] st). constructor. }
    destruct room as [|[|room']]; [exact Hfull|exact Hfull|].
    eapply acts_then; [exact Hpush|].
    assert (c ++ done ++ e :: es = c ++ (done ++ [e]) ++ es) as ->
        by now rewrite <- (app_assoc done).
    now apply IH.
Qed.

(** A container that is filled: nothing for no element, the opcode for
    one element for one, batches for more. *)
Lemma acts_fill (one : opcode) (items : list pickler) (c es : list E)
      (st : list pyval) :
  one <> STOP ->
  (forall e st vm, ok e ->
     step one (push e ++ container c :: st, vm)
     = Return (container (c ++ [e]) :: st, vm)) ->
  Forall2 saves items es ->
  acts match items with
       | [] => write []
       | [item] => and_then item (write [one])
       | _ => and_then (write [MARK]) (batch close again BATCHSIZE items)
       end
       (container c :: st) (container (c ++ es) :: st).
Proof.
  intros Hone Hstep Hitems.
  destruct Hitems as [|item e items es [He Hitem] Hitems].
  - rewrite app_nil_r. apply acts_nothing.
  - destruct Hitems as [|item' e' items es He' Hitems].
    + eapply acts_then; [apply Hitem|].
      apply acts_write; [exact Hone|]. intros vm. now apply Hstep.
    + eapply acts_then; [now apply acts_write|].
      apply (acts_batch (item :: item' :: items) (e :: e' :: es)
               (Forall2_cons _ _ (conj He Hitem) (Forall2_cons _ _ He' Hitems))
               BATCHSIZE c [] st).
      constructor.
Qed.

End Batch.

(** *** Lists *)

Lemma concat_singletons (l : list pyval) :
  List.concat (map (fun v => [v]) l) = l.
Proof. induction l as [|v l IH]; cbn; [reflexivity|now rewrite IH]. Qed.

Lemma appends_step (c es st vm : list pyval) :
  Forall (fun v => v <> PMark) es ->
  step APPENDS (pushed (fun v => [v]) es ++ PMark :: PList c :: st, vm)
  = Return (PList (c ++ es) :: st, vm).
Proof.
  intros Hok. unfold pushed. rewrite concat_singletons. cbn [step].
  rewrite pop_mark_above by now apply Forall_rev.
  now rewrite rev_involutive, app_nil_r.
Qed.

Lemma acts_batch_appends (items : list pickler) (l vs st : list pyval) :
  Forall2 (saves (fun v => [v]) (fun v => v <> PMark)) items vs ->
  acts (batch_appends items) (PList l :: st) (PList (l ++ vs) :: st).
Proof.
  intros Hitems. unfold batch_appends.
  apply (acts_fill pyval (fun v => [v]) (fun v => v <> PMark) PList
                   APPENDS false);
    [discriminate|exact appends_step|discriminate| |exact Hitems].
  intros e st' vm He. reflexivity.
Qed.

(** *** Dicts *)

Lemma flat_app (a b : list (str * pyval)) : flat (a ++ b) = flat a ++ flat b.
Proof.
  induction a as [|[k v] a IH]; cbn; [reflexivity|now rewrite IH].
Qed.

Lemma pairs_flat (kvs : list (str * pyval)) : pairs (flat kvs) = Some kvs.
Proof.
  induction kvs as [|[k v] kvs IH]; cbn; [reflexivity|].
  cbn in IH. now rewrite IH.
Qed.

Lemma pushed_items (kvs : list (str * pyval)) :
  Forall no_mark kvs ->
  Forall (fun v => v <> PMark) (pushed push_item kvs)
  /\ rev (pushed push_item kvs) = flat kvs.
Proof.
  induction kvs as [|[k v] kvs IH] using rev_ind; intros Hok.
  - split; [constructor|reflexivity].
  - apply Forall_app in Hok as [Hok Hkv]. inversion Hkv; subst.
    destruct (IH Hok) as [IH1 IH2].
    rewrite pushed_snoc. cbn [push_item fst snd app]. split.
    + constructor; [assumption|]. constructor; [discriminate|exact IH1].
    + cbn [rev]. rewrite IH2, flat_app, <- app_assoc. reflexivity.
Qed.

Lemma update_app (d a b : list (str * pyval)) :
  update d (a ++ b) = update (update d a) b.
Proof. unfold update. apply fold_left_app. Qed.

Lemma setitems_step (d0 c es : list (str * pyval)) (st vm : list pyval) :
  Forall no_mark es ->
  step SETITEMS
       (pushed push_item es ++ PMark :: PDict (update d0 c) :: st, vm)
  = Return (PDict (update d0 (c ++ es)) :: st, vm).
Proof.
  intros Hok. destruct (pushed_items es Hok) as [H1 H2]. cbn [step].
  rewrite (pop_mark_above _ [] _ H1), H2, app_nil_r.
  cbn [setitems bind]. now rewrite pairs_flat, update_app.
Qed.

Lemma acts_batch_setitems (items : list pickler)
      (d es : list (str * pyval)) (st : list pyval) :
  Forall2 (saves push_item no_mark) items es ->
  acts (batch_setitems items) (PDict d :: st) (PDict (update d es) :: st).
Proof.
  intros Hitems. unfold batch_setitems.
  assert (SETITEMS <> STOP) as Hclose by discriminate.
  apply (acts_fill _ push_item no_mark (fun c => PDict (update d c))
                   SETITEMS true Hclose (setitems_step d)
                   SETITEM items [] es st);
    [discriminate| |exact Hitems].
  intros [k v] st' vm He. reflexivity.
Qed.

Lemma acts_save_dict (items : list pickler) (es : list (str * pyval))
      (st : list pyval) :
  Forall2 (saves push_item no_mark) items es ->
  acts (save_dict items) st (PDict (update [] es) :: st).
Proof.
  intros Hitems. unfold save_dict.
  eapply acts_then; [now apply acts_write|].
  eapply acts_then; [now apply acts_memoize|].
  now apply acts_batch_setitems.
Qed.

(** *** Objects *)

Section ObjInduction.

Variable Q : obj -> Prop.
Hypothesis none_case : Q ONone.
Hypothesis str_case : forall id s, Q (OStr id s).
Hypothesis list_case : forall items, Forall Q items -> Q (OList items).
Hypothesis dict_case :
  forall items, Forall (fun kv => Q (snd kv)) items -> Q (ODict items).
Hypothesis instance_case :
  forall module qualname dict,
    Forall (fun kv => Q (snd kv)) dict -> Q (OInstance module qualname dict).
Hypothesis datetime_case : forall dt, Q (ODatetime dt).

Lemma obj_induction (o : obj) : Q o.
Proof.
  revert o. fix rec 1.
  intros [| id s | items | items | module qualname dict | dt].
  - exact none_case.
  - apply str_case.
  - apply list_case. induction items as [|x items IH]; constructor;
      [apply rec|exact IH].
  - apply dict_case. induction items as [|x items IH]; constructor;
      [apply rec|exact IH].
  - apply instance_case. induction dict as [|x dict IH]; constructor;
      [apply rec|exact IH].
  - apply datetime_case.
Qed.

End ObjInduction.

Lemma value_no_mark (o : obj) : value o <> PMark.
Proof.
  destruct o; cbn [value]; try discriminate.
  destruct (setstate (getstate dt)); discriminate.
Qed.

(** In a dict with no key twice, the items are what was put in. *)
Lemma setitem_new (k : str) (v : pyval) (d : list (str * pyval)) :
  ~ In k (map fst d) -> setitem k v d = d ++ [(k, v)].
Proof.
  induction d as [|[k' v'] d IH]; cbn; intros H; [reflexivity|].
  destruct (str_eqb k' k) eqn:E.
  - apply str_eqb_eq in E. tauto.
  - rewrite IH by tauto. reflexivity.
Qed.

Lemma update_new (d items : list (str * pyval)) :
  NoDup (map fst (d ++ items)) -> update d items = d ++ items.
Proof.
  revert d. induction items as [|[k v] items IH]; intros d H.
  - now rewrite app_nil_r.
  - cbn [update fold_left fst snd].
    change (fold_left _ items ?d') with (update d' items).
    assert (d ++ (k, v) :: items = (d ++ [(k, v)]) ++ items) as E
        by now rewrite <- app_assoc.
    rewrite setitem_new.
    + rewrite IH; [now rewrite <- app_assoc|now rewrite <- E].
    + rewrite map_app in H. cbn in H. apply NoDup_remove_2 in H.
      intros Hin. apply H. apply in_or_app. now left.
Qed.

Lemma setitem_keys (k : str) (v : pyval) (d : list (str * pyval)) :
  NoDup (map fst d) -> NoDup (map fst (setitem k v d)).
Proof.
  induction d as [|[k' v'] d IH]; cbn; intros H.
  - constructor; [tauto|constructor].
  - destruct (str_eqb k' k) eqn:E; [exact H|].
    apply str_eqb_neq in E. inversion H as [|? ? Hout Hd]; subst.
    cbn. constructor; [|now apply IH].
    destruct (in_dec (list_eq_dec N.eq_dec) k (map fst d)) as [Hin|Hnew].
    + assert (map fst (setitem k v d) = map fst d) as ->; [|exact Hout].
      clear -Hin. induction d as [|[k0 v0] d IH]; [destruct Hin|].
      cbn. destruct (str_eqb k0 k) eqn:E0; [reflexivity|].
      apply str_eqb_neq in E0. cbn. f_equal. apply IH.
      destruct Hin as [Hin|Hin]; [cbn in Hin; congruence|exact Hin].
    + rewrite (setitem_new k v d Hnew), map_app, in_app_iff. cbn.
      intros [Hin|[Hin|[]]]; congruence.
Qed.

Lemma update_keys (d items : list (str * pyval)) :
  NoDup (map fst d) -> NoDup (map fst (update d items)).
Proof.
  revert d. induction items as [|[k v] items IH]; intros d H; [exact H|].
  cbn [update fold_left]. apply IH. now apply setitem_keys.
Qed.

Lemma update_twice (items : list (str * pyval)) :
  update [] (update [] items) = update [] items.
Proof. apply update_new. cbn [app]. apply update_keys. constructor. Qed.

(** The pickle of an object takes the machine to the value of the
    object, on top of the stack. *)
Lemma acts_save (o : obj) :
  picklable o = true -> forall st, acts (save o) st (value o :: st).
Proof.
  induction o as [| id s | items IH | items IH | module qualname dict IH | dt]
    using obj_induction; intros Hok st.
  - now apply acts_write.
  - cbn [save value]. apply acts_save_str. destruct id; cbn; [|discriminate].
    now intros t' [= <-].
  - cbn [save value].
    eapply acts_then; [now apply acts_write|].
    eapply acts_then; [now apply acts_memoize|].
    apply (acts_batch_appends _ []).
    cbn [picklable] in Hok. clear st.
    induction items as [|x items IHitems]; cbn [map]; constructor.
    + inversion IH; subst. cbn [forallb] in Hok.
      apply andb_true_iff in Hok as [Hx _].
      split; [apply value_no_mark|]. intros st. cbn [app]. now apply H1.
    + inversion IH; subst. cbn [forallb] in Hok.
      apply andb_true_iff in Hok as [_ Hok]. now apply IHitems.
  - cbn [save value]. apply acts_save_dict.
    cbn [picklable] in Hok. clear st.
    induction items as [|[[id k] v] items IHitems]; cbn [map]; constructor.
    + inversion IH; subst. cbn [forallb snd] in Hok.
      apply andb_true_iff in Hok as [Hx _].
      split; [apply value_no_mark|]. intros st.
      cbn [push_item fst snd app].
      eapply acts_then; [|now apply H1].
      apply acts_save_str. destruct id; cbn; [|discriminate].
      now intros t' [= <-].
    + inversion IH; subst. cbn [forallb] in Hok.
      apply andb_true_iff in Hok as [_ Hok]. now apply IHitems.
  - cbn [save value]. cbn [picklable] in Hok.
    apply andb_true_iff in Hok as [Hok Hdict].
    apply andb_true_iff in Hok as [Hmain Hclass].
    eapply acts_then; [now apply acts_save_global|].
    eapply acts_then.
    { apply (acts_then (write [EMPTY_TUPLE]) (write [NEWOBJ]) _
                       (PTuple [] :: PClass module qualname :: st)
                       (PInstance module qualname [] :: st));
        [now apply acts_write|].
      apply acts_write; [discriminate|]. intros vm. cbn [step newobj].
      now rewrite Hmain. }
    eapply acts_then; [now apply acts_memoize|].
    destruct dict as [|kv dict]; [apply acts_nothing|].
    eapply acts_then.
    { apply (acts_save_dict _
               (map (fun kv : str * obj => (fst kv, value (snd kv)))
                    (kv :: dict))).
      clear st Hmain Hclass.
      induction (kv :: dict) as [|[k v] items IHitems]; cbn [map];
        constructor.
      - inversion IH; subst. cbn [forallb snd] in Hdict.
        apply andb_true_iff in Hdict as [Hx _].
        split; [apply value_no_mark|]. intros st.
        cbn [push_item fst snd app].
        eapply acts_then; [|now apply H1].
        apply acts_save_str. now intros t' [= <-].
      - inversion IH; subst. cbn [forallb] in Hdict.
        apply andb_true_iff in Hdict as [_ Hdict]. now apply IHitems. }
    apply acts_write; [discriminate|]. intros vm. cbn [step build bind].
    now rewrite update_twice.
  - cbn [save value]. cbn [picklable] in Hok.
    destruct (setstate (getstate dt)) as [dt'|] eqn:Hstate; [|discriminate].
    eapply acts_then; [now apply acts_save_global|].
    eapply acts_then; [now apply acts_write|].
    eapply acts_then; [now apply acts_memoize|].
    eapply acts_then; [now apply acts_write|].
    eapply acts_then; [now apply acts_memoize|].
    eapply acts_then; [|now apply acts_memoize].
    apply acts_write; [discriminate|]. intros vm. cbn [step reduce].
    assert (str_eqb datetime_module datetime_module
            && str_eqb (u "datetime") (u "datetime") = true) as ->
        by now rewrite !str_eqb_refl.
    now rewrite Hstate.
Qed.

(** [pickle.loads(pickle.dumps(o))] *)
Lemma loads_dumps (o : obj) :
  picklable o = true -> loads (dumps o) = Return (value o).
Proof.
  intros Hok. unfold loads, dumps. cbn [app].
  rewrite run_cons by discriminate.
  change (step (PROTO 4) ([], [])) with (Return (@nil pyval, @nil pyval)).
  cbn [bind].
  destruct (acts_save o Hok [] [] [] [STOP]) as (vm & E & _);
    [constructor|].
  rewrite E. reflexivity.
Qed.

(** *** The state of a [datetime] *)

Lemma days_in_month_le (y m : Z) : (_days_in_month y m <= 31)%Z.
Proof.
  unfold Datetime._days_in_month, Datetime._DAYS_IN_MONTH.
  destruct ((m =? 2)%Z && Datetime._is_leap y); [lia|].
  repeat match goal with
         | |- context [match ?p with _ => _ end] => destruct p
         end; lia.
Qed.

Lemma valid_datetime_ranges (dt : datetime) :
  valid_datetime dt ->
  (1 <= year dt <= 9999 /\ 1 <= month dt <= 12 /\ 1 <= day dt <= 31
   /\ 0 <= hour dt <= 23 /\ 0 <= minute dt <= 59 /\ 0 <= second dt <= 59
   /\ 0 <= microsecond dt <= 999999)%Z.
Proof.
  unfold valid_datetime, Datetime.new, Datetime.in_range,
    Datetime.MINYEAR, Datetime.MAXYEAR.
  pose proof (days_in_month_le (year dt) (month dt)) as Hdim.
  repeat match goal with
         | |- (if negb ?b then _ else _) = _ -> _ =>
             let E := fresh "E" in
             destruct b eqn:E; cbn [negb]; [|discriminate];
             apply andb_true_iff in E as [?%Z.leb_le ?%Z.leb_le]
         end.
  intros _. lia.
Qed.

Lemma setstate_getstate (dt : datetime) :
  valid_datetime dt -> setstate (getstate dt) = Some dt.
Proof.
  intros H. apply valid_datetime_ranges in H.
  destruct dt as [y m d h mi s us]. cbn [year month day hour minute second
                                          microsecond] in H.
  unfold getstate.
  cbn [map year month day hour minute second microsecond]. unfold setstate.
  assert (Z.to_N m mod 128 = Z.to_N m)%N as -> by (apply N.mod_small; lia).
  assert ((1 <=? Z.to_N m) && (Z.to_N m <=? 12) = true)%N as ->.
  { apply andb_true_iff. split; apply N.leb_le; lia. }
  f_equal. f_equal.
  - rewrite N2Z.inj_add, N2Z.inj_mul, !Z2N.id;
      Z.to_euclidean_division_equations; lia.
  - apply Z2N.id; lia.
  - apply Z2N.id; lia.
  - apply Z2N.id; lia.
  - apply Z2N.id; lia.
  - apply Z2N.id; lia.
  - rewrite !N2Z.inj_add, !N2Z.inj_mul, N2Z.inj_add, N2Z.inj_mul, !Z2N.id;
      Z.to_euclidean_division_equations; lia.
Qed.

(** *** The objects of a book *)

Lemma picklable_instance (qualname : str) (dict : list (str * obj)) :
  In (main_module, qualname) classes ->
  forallb (fun kv : str * obj => picklable (snd kv)) dict = true ->
  picklable (OInstance main_module qualname dict) = true.
Proof.
  intros Hin Hdict. cbn [picklable]. rewrite str_eqb_refl, Hdict.
  unfold find_class.
  assert (existsb (fun c => str_eqb (fst c) main_module
                            && str_eqb (snd c) qualname) classes = true)
    as ->; [|reflexivity].
  apply existsb_exists. exists (main_module, qualname).
  split; [exact Hin|]. cbn [fst snd]. now rewrite !str_eqb_refl.
Qed.

Lemma picklable_field (cls : string) (value : obj) :
  In (main_module, u cls) classes ->
  picklable value = true -> picklable (field_obj cls value) = true.
Proof.
  intros Hin Hv. apply picklable_instance; [exact Hin|].
  cbn [forallb snd]. now rewrite Hv.
Qed.

Lemma picklable_record (id : nat) (r : Record_) :
  (forall dt, birthday r = Some dt -> valid_datetime dt) ->
  picklable (record_obj id r) = true.
Proof.
  intros Hb. apply picklable_instance; [cbn; tauto|].
  cbn [forallb snd]. rewrite picklable_field; [|cbn; tauto|reflexivity].
  assert (picklable
            (OList (map (fun p => field_obj "Phone" (OStr None p))
                        (phones r))) = true) as ->.
  { cbn [picklable]. apply forallb_forall. intros x Hx.
    apply in_map_iff in Hx as (p & <- & _).
    apply picklable_field; [cbn; tauto|reflexivity]. }
  destruct (birthday r) as [dt|]; [|reflexivity].
  rewrite picklable_field; [reflexivity|cbn; tauto|].
  cbn [picklable]. now rewrite (setstate_getstate dt (Hb dt eq_refl)).
Qed.

Lemma picklable_book (book : AddressBook) :
  Forall (fun r => forall dt, birthday r = Some dt -> valid_datetime dt)
         (values book) ->
  picklable (book_obj book) = true.
Proof.
  intros Hb. apply picklable_instance; [cbn; tauto|].
  cbn [forallb snd picklable]. rewrite andb_true_r.
  generalize 0%nat as id. unfold values in Hb.
  induction book as [|[k r] book IH]; intros id; [reflexivity|].
  inversion Hb; subst. cbn [entries_obj forallb snd].
  rewrite picklable_record by assumption. now apply IH.
Qed.

Lemma value_field (cls : string) (o : obj) :
  value (field_obj cls o) = field_val cls (value o).
Proof. reflexivity. Qed.

Lemma update_three (a b c : pyval) :
  update [] [(u "name", a); (u "phones", b); (u "birthday", c)]
  = [(u "name", a); (u "phones", b); (u "birthday", c)].
Proof. reflexivity. Qed.

Lemma value_record (id : nat) (r : Record_) :
  (forall dt, birthday r = Some dt -> valid_datetime dt) ->
  value (record_obj id r) = record_val r.
Proof.
  intros Hb. unfold record_obj, record_val. cbn [value map fst snd].
  rewrite update_three. rewrite !value_field, map_map. cbn [value].
  do 4 f_equal.
  destruct (birthday r) as [dt|]; [|reflexivity].
  rewrite value_field. cbn [value].
  now rewrite (setstate_getstate dt (Hb dt eq_refl)).
Qed.

Lemma entries_values (id : nat) (book : AddressBook) :
  Forall (fun r => forall dt, birthday r = Some dt -> valid_datetime dt)
         (values book) ->
  map (fun kv : option nat * str * obj => (snd (fst kv), value (snd kv)))
      (entries_obj id book)
  = map (fun kv => (fst kv, record_val (snd kv))) book.
Proof.
  unfold values. revert id.
  induction book as [|[k r] book IH]; intros id Hb; [reflexivity|].
  inversion Hb; subst. cbn [entries_obj map fst snd].
  rewrite value_record by assumption. now rewrite IH.
Qed.

Lemma value_book (book : AddressBook) :
  python_book book ->
  value (book_obj book)
  = PInstance main_module (u "AddressBook")
      [(u "data",
        PDict (map (fun kv => (fst kv, record_val (snd kv))) book))].
Proof.
  intros [Hkeys Hb]. unfold book_obj. cbn [value map fst snd].
  rewrite (entries_values 0 book Hb).
  rewrite (update_new [] (map _ book)).
  - reflexivity.
  - cbn [app]. rewrite map_map. cbn [fst]. exact Hkeys.
Qed.

(** *** Reading the book back *)

Lemma traverse_map {A B} (f : B -> result A) (g : A -> B) (l : list A) :
  (forall x, f (g x) = Return x) -> traverse f (map g l) = Return l.
Proof.
  intros H. induction l as [|x l IH]; [reflexivity|].
  cbn [map traverse]. now rewrite H, IH.
Qed.

Lemma record_of_val (r : Record_) : record_of (record_val r) = Return r.
Proof.
  destruct r as [n ps b]. unfold record_val. cbn [name phones birthday].
  transitivity
    (ps' <- traverse (fun p => (p <- value_of_field "Phone" p ;;
                                str_of p)%result)
                     (map (fun p => field_val "Phone" (PStr p)) ps) ;;
     b' <- birthday_of match b with
                       | None => PNone
                       | Some dt => field_val "Birthday" (PDatetime dt)
                       end ;;
     Return {| name := n; phones := ps'; birthday := b' |})%result.
  - reflexivity.
  - rewrite traverse_map by reflexivity. cbn [bind].
    destruct b; reflexivity.
Qed.

Lemma book_of_value (book : AddressBook) :
  python_book book -> book_of (value (book_obj book)) = Return book.
Proof.
  intros H. rewrite (value_book book H).
  transitivity
    (traverse (fun kv : str * pyval =>
                 (r <- record_of (snd kv) ;; Return (fst kv, r))%result)
              (map (fun kv => (fst kv, record_val (snd kv))) book)).
  - reflexivity.
  - apply traverse_map. intros [k r]. cbn [fst snd].
    now rewrite record_of_val.
Qed.

(** [pickle.load] gives back the book that [pickle.dump] was given. *)
Lemma pickle4_round_trip (book : AddressBook) :
  python_book book ->
  pickle_loads (Pickle := pickle4) (pickle_dumps (Pickle := pickle4) book)
  = Return book.
Proof.
  intros H. cbn [pickle_loads pickle_dumps pickle4].
  rewrite loads_dumps by (apply picklable_book, H).
  cbn [bind]. now apply book_of_value.
Qed.

(** The pickle of a book with one record, opcode by opcode as
    [pickletools.dis] shows it for CPython 3.11 (less [FRAME]). *)
Example dumps_one_record :
  dumps (book_obj [(u "Bob", with_phones bob [u "0501234567"])])
  = [
    PROTO 4; UNICODE (u "__main__"); MEMOIZE; UNICODE (u "AddressBook");
    MEMOIZE; STACK_GLOBAL; MEMOIZE; EMPTY_TUPLE; NEWOBJ; MEMOIZE;
    EMPTY_DICT; MEMOIZE; UNICODE (u "data"); MEMOIZE; EMPTY_DICT; MEMOIZE;
    UNICODE (u "Bob"); MEMOIZE; GET 0; UNICODE (u "Record"); MEMOIZE;
    STACK_GLOBAL; MEMOIZE; EMPTY_TUPLE; NEWOBJ; MEMOIZE; EMPTY_DICT;
    MEMOIZE; MARK; UNICODE (u "name"); MEMOIZE; GET 0; UNICODE (u "Name");
    MEMOIZE; STACK_GLOBAL; MEMOIZE; EMPTY_TUPLE; NEWOBJ; MEMOIZE;
    EMPTY_DICT; MEMOIZE; UNICODE (u "value"); MEMOIZE; GET 7; SETITEM;
    BUILD; UNICODE (u "phones"); MEMOIZE; EMPTY_LIST; MEMOIZE; GET 0;
    UNICODE (u "Phone"); MEMOIZE; STACK_GLOBAL; MEMOIZE; EMPTY_TUPLE;
    NEWOBJ; MEMOIZE; EMPTY_DICT; MEMOIZE; GET 17; UNICODE (u "0501234567");
    MEMOIZE; SETITEM; BUILD; APPEND; UNICODE (u "birthday"); MEMOIZE; GET 0;
    UNICODE (u "Birthday"); MEMOIZE; STACK_GLOBAL; MEMOIZE; EMPTY_TUPLE;
    NEWOBJ; MEMOIZE; EMPTY_DICT; MEMOIZE; GET 17; UNICODE (u "datetime");
    MEMOIZE; UNICODE (u "datetime"); MEMOIZE; STACK_GLOBAL; MEMOIZE;
    BYTES [7; 208; 2; 29; 0; 0; 0; 0; 0; 0]%N; MEMOIZE; TUPLE1; MEMOIZE;
    REDUCE; MEMOIZE; SETITEM; BUILD; SETITEMS; BUILD; SETITEM; SETITEM;
    BUILD; STOP].
Proof. vm_compute. reflexivity. Qed.

End Unpickling.

(** C1 as it is stated fails where the path does not name a regular
    file: [save_data] on [/dev/null] succeeds, and [load_data] then finds
    an empty file and raises the [EOFError] of [pickle.load]. *)
Lemma save_to_dev_null_counterexample :
  exists fs',
    save_data (P := pickle4) sample_book default_filename
              (fun _ => Some dev_null) = Return fs'
    /\ load_data default_filename fs'
       = Raise (Exn EOFError (u "Ran out of input")).
Proof. eexists. split; reflexivity. Qed.

(** C1 (amended): where the path names a regular file that the process
    may read and write, or no file yet, [save_data] pickles the book into
    the file and [load_data] on the same path then unpickles a book with
    the same keys in the same order and, record by record, the same
    name, the same phones in the same order and the same birthday: the
    very same book. *)
Theorem save_then_load (book : AddressBook) (filename : str)
        (fs : filesystem (P := pickle4)) :
  python_book book ->
  regular fs filename = true ->
  exists fs' loaded,
    save_data book filename fs = Return fs'
    /\ load_data filename fs' = Return loaded
    /\ map fst loaded = map fst book
    /\ map name (values loaded) = map name (values book)
    /\ map phones (values loaded) = map phones (values book)
    /\ map birthday (values loaded) = map birthday (values book)
    /\ loaded = book.
Proof.
  intros Hbook Hreg.
  destruct (load_after_save (P := pickle4) book filename fs Hreg)
    as (fs' & Hsave & _ & Hload).
  rewrite (pickle4_round_trip book Hbook) in Hload.
  exists fs', book. repeat split; assumption.
Qed.

Lemma save_then_load_witness :
  exists fs' loaded,
    save_data (P := pickle4) sample_book default_filename no_files
    = Return fs'
    /\ load_data default_filename fs' = Return loaded
    /\ map fst loaded = map fst sample_book
    /\ map name (values loaded) = map name (values sample_book)
    /\ map phones (values loaded) = map phones (values sample_book)
    /\ map birthday (values loaded) = map birthday (values sample_book)
    /\ loaded = sample_book.
Proof.
  apply (save_then_load sample_book default_filename no_files).
  - split.
    + unfold unique_keys. cbn. repeat constructor; cbn.
      * intros [H|[]]. discriminate H.
      * intros [].
    + repeat constructor; intros dt [= <-]; reflexivity.
  - reflexivity.
Defined.

(** The same for any implementation of [pickle] whose [load] gives back
    the book that its [dump] was given. *)
Theorem save_then_load_any_pickle (P : Pickle) (book : AddressBook)
        (filename : str) (fs : filesystem) :
  pickle_loads (pickle_dumps book) = Return book ->
  regular fs filename = true ->
  exists fs',
    save_data book filename fs = Return fs'
    /\ read_file filename fs' = Return (pickle_dumps book)
    /\ load_data filename fs' = Return book.
Proof.
  intros Hrt Hreg.
  destruct (load_after_save book filename fs Hreg)
    as (fs' & Hsave & Hread & Hload).
  rewrite Hrt in Hload. now exists fs'.
Qed.

Lemma save_then_load_any_pickle_witness :
  exists fs',
    save_data (P := Framed.pickle) sample_book default_filename no_files
    = Return fs'
    /\ read_file default_filename fs' = Return (Framed.dumps sample_book)
    /\ load_data default_filename fs' = Return sample_book.
Proof.
  apply (save_then_load_any_pickle Framed.pickle sample_book
           default_filename no_files).
  - vm_compute. reflexivity.
  - reflexivity.
Defined.

(** C6: when no file has the given name, [load_data] returns an empty
    book and raises nothing; any failure of the read or of the unpickling
    that is not [FileNotFoundError] is raised as it is. *)
Theorem load_data_missing_or_failing (P : Pickle) (filename : str)
        (fs : filesystem) :
  (fs filename = None -> load_data filename fs = Return [])
  /\ (forall e, exn_cls e <> FileNotFoundError ->
        read_file filename fs = Raise e -> load_data filename fs = Raise e)
  /\ (forall e content, exn_cls e <> FileNotFoundError ->
        read_file filename fs = Return content ->
        pickle_loads content = Raise e -> load_data filename fs = Raise e).
Proof.
  unfold load_data. split; [|split].
  - intros Hnone. unfold read_file. rewrite Hnone. reflexivity.
  - intros e Hcls Hread. rewrite Hread. cbn [bind].
    destruct (exn_cls e); congruence.
  - intros e content Hcls Hread Hload. rewrite Hread. cbn [bind].
    rewrite Hload. destruct (exn_cls e); congruence.
Qed.

Lemma load_data_missing_or_failing_witness :
  load_data (P := Framed.pickle) default_filename no_files = Return []
  /\ load_data (P := Framed.pickle) default_filename
               (fun _ => Some Directory)
     = Raise (Exn IsADirectoryError (u "Is a directory"))
  /\ load_data (P := Framed.pickle) default_filename
               (fun _ => Some (File (P := Framed.pickle) [7%N]))
     = Raise (Exn UnpicklingError (u "invalid load key")).
Proof.
  split; [|split].
  - apply (proj1 (load_data_missing_or_failing Framed.pickle
                    default_filename no_files)). reflexivity.
  - apply (proj1 (proj2 (load_data_missing_or_failing Framed.pickle
                           default_filename (fun _ => Some Directory)))).
    + discriminate.
    + reflexivity.
  - apply (proj2 (proj2 (load_data_missing_or_failing Framed.pickle
                           default_filename (fun _ => Some (File (P := Framed.pickle) [7%N]))))
             _ [7%N]).
    + discriminate.
    + reflexivity.
    + reflexivity.
Defined.

(** ** The dictionary of the book *)

Lemma dict_get_set_same (k : str) (v : Record_) (d : AddressBook) :
  dict_get k (dict_set k v d) = Some v.
Proof.
  induction d as [|[k' v'] d IH]; simpl.
  - now rewrite str_eqb_refl.
  - destruct (str_eqb k' k) eqn:E; simpl; rewrite E; [reflexivity|exact IH].
Qed.

Lemma dict_get_set_other (k k' : str) (v : Record_) (d : AddressBook) :
  k' <> k -> dict_get k' (dict_set k v d) = dict_get k' d.
Proof.
  intros Hne.
  assert (str_eqb k k' = false) as Hkk by (apply str_eqb_neq; congruence).
  induction d as [|[k0 v0] d IH]; simpl.
  - now rewrite Hkk.
  - destruct (str_eqb k0 k) eqn:E; simpl.
    + apply str_eqb_eq in E; subst k0. now rewrite Hkk.
    + destruct (str_eqb k0 k'); [reflexivity|exact IH].
Qed.

Lemma dict_set_absent (k : str) (v : Record_) (d : AddressBook) :
  dict_get k d = None -> dict_set k v d = d ++ [(k, v)].
Proof.
  induction d as [|[k' v'] d IH]; simpl; [reflexivity|].
  destruct (str_eqb k' k); [discriminate|].
  intros H; now rewrite IH.
Qed.


(** Where the key is held, mutating the object under it shows as an
    assignment would; where it is not, nothing shows. *)
Lemma dict_update_found (k : str) (v v0 : Record_) (d : AddressBook) :
  dict_get k d = Some v0 -> dict_update k v d = dict_set k v d.
Proof.
  induction d as [|[k' v'] d IH]; simpl; [discriminate|].
  destruct (str_eqb k' k); [reflexivity|].
  intros H; now rewrite IH.
Qed.

Lemma dict_update_absent (k : str) (v : Record_) (d : AddressBook) :
  dict_get k d = None -> dict_update k v d = d.
Proof.
  induction d as [|[k' v'] d IH]; simpl; [reflexivity|].
  destruct (str_eqb k' k); [discriminate|].
  intros H; now rewrite IH.
Qed.

Lemma dict_update_filed (k : str) (v v' : Record_) (d : AddressBook) :
  dict_update k v (dict_set k v' d) = dict_set k v (dict_set k v' d).
Proof. apply (dict_update_found k v v'), dict_get_set_same. Qed.

(** ** The [add] command *)

Lemma msg_added_not_updated : msg_added <> msg_updated.
Proof. vm_compute. discriminate. Qed.

Lemma add_contact_args (name phone : str) (rest : list str)
      (book : AddressBook) :
  add_contact (name :: phone :: rest) book =
  input_error
    (fun book =>
       match find name book with
       | Some record =>
           let (r, book') := call_on name record (add_phone phone) book in
           ((_ <- r ;; Return msg_updated)%result, book')
       | None =>
           match Record_new name with
           | Raise e => (Raise e, book)
           | Return record =>
               let book1 := add_record record book in
               let (r, book2) :=
                 call_on (key_of record) record (add_phone phone) book1 in
               ((_ <- r ;; Return msg_added)%result, book2)
           end
       end) book.
Proof. reflexivity. Qed.

(** C8 as it is stated fails when the phone is not valid: the answer is
    the validation message, and no phone is appended. *)
Lemma add_contact_invalid_phone_counterexample :
  ~ add_creates_or_updates [] (u "Alice") (u "123") [].
Proof.
  unfold add_creates_or_updates. vm_compute. intros [H _]. discriminate H.
Qed.

(** C8 (amended): for a non-empty name and a phone that passes the
    validation of [Phone], [add] creates the record under the name when
    there is none and answers that the contact was added, reuses the
    record otherwise and answers that it was updated (the two messages
    differ), and in both cases the phone is appended to the record's
    phones. *)
Theorem add_contact_valid_phone (book : AddressBook) (name phone : str)
        (rest : list str) :
  name <> [] ->
  validate_phone phone = true ->
  add_creates_or_updates book name phone rest /\ msg_added <> msg_updated.
Proof.
  intros Hname Hphone. split; [|exact msg_added_not_updated].
  unfold add_creates_or_updates. rewrite add_contact_args.
  unfold input_error, call_on, add_phone, Phone_new, Record_new, Name_new,
    add_record, key_of, find.
  rewrite Hphone. cbn [negb].
  destruct (dict_get name book) as [r|] eqn:Hfind.
  - cbn. split; [reflexivity|].
    rewrite (dict_update_found _ _ _ _ Hfind). apply dict_get_set_same.
  - destruct name as [|c name']; [congruence|].
    cbn. split; [reflexivity|].
    rewrite dict_update_filed. apply dict_get_set_same.
Qed.

Lemma add_contact_valid_phone_witness :
  add_creates_or_updates sample_book (u "Alice") (u "0671112233") []
  /\ msg_added <> msg_updated.
Proof.
  apply (add_contact_valid_phone sample_book (u "Alice") (u "0671112233") []).
  - discriminate.
  - reflexivity.
Defined.




(** ** Upcoming birthdays *)

Lemma new_return (y m d h mi sec us : Z) (dt : datetime) :
  new y m d h mi sec us = Return dt -> dt = DT y m d h mi sec us.
Proof.
  unfold new.
  repeat match goal with
         | |- (if ?b then _ else _) = _ -> _ => destruct b; [discriminate|]
         end.
  congruence.
Qed.

(** Moving a valid datetime to a year of the calendar succeeds, except
    for 29 February moved to a year that is not a leap year. *)
Lemma replace_year_valid (b : datetime) (y : Z) :
  valid_datetime b ->
  in_range MINYEAR y MAXYEAR = true ->
  (month b = 2%Z -> day b = 29%Z -> _is_leap y = true) ->
  replace_year b y
  = Return (DT y (month b) (day b) (hour b) (minute b) (second b)
               (microsecond b)).
Proof.
  unfold valid_datetime, replace_year, new. intros Hv Hy Hleap.
  rewrite Hy. cbn [negb].
  destruct (in_range MINYEAR (year b) MAXYEAR); [|discriminate Hv].
  destruct (in_range 1 (month b) 12) eqn:Hm; [|discriminate Hv].
  cbn [negb] in *.
  destruct (in_range 1 (day b) (_days_in_month (year b) (month b))) eqn:Hd;
    [|discriminate Hv].
  cbn [negb] in Hv.
  assert (in_range 1 (day b) (_days_in_month y (month b)) = true) as ->.
  { unfold in_range, _days_in_month in *.
    apply andb_true_iff in Hd as [Hd1 Hd2]. rewrite Hd1. cbn [andb].
    apply Z.leb_le in Hd2. apply Z.leb_le.
    destruct (Z.eqb_spec (month b) 2) as [E|E]; cbn [andb] in *.
    - rewrite E in *. destruct (Z.eq_dec (day b) 29) as [E29|N29].
      + rewrite (Hleap eq_refl E29). lia.
      + destruct (_is_leap (year b)), (_is_leap y); cbn in *; lia.
    - exact Hd2. }
  destruct (in_range 0 (hour b) 23); [|discriminate Hv].
  destruct (in_range 0 (minute b) 59); [|discriminate Hv].
  destruct (in_range 0 (second b) 59); [|discriminate Hv].
  destruct (in_range 0 (microsecond b) 999999); [|discriminate Hv].
  reflexivity.
Qed.

Lemma upcoming_loop_filter (today upcoming : datetime)
      (records : list Record_) (acc : list str) :
  (forall r b, List.In r records -> birthday r = Some b ->
     replace_year b (year today)
     = Return (DT (year today) (month b) (day b) (hour b) (minute b)
                  (second b) (microsecond b))) ->
  upcoming_loop today upcoming records acc
  = Return (acc ++ map name (filter (in_window today upcoming) records)).
Proof.
  revert acc. induction records as [|r records IH]; intros acc Hok; simpl.
  - now rewrite app_nil_r.
  - assert (forall r' b, List.In r' records -> birthday r' = Some b ->
              replace_year b (year today)
              = Return (DT (year today) (month b) (day b) (hour b)
                           (minute b) (second b) (microsecond b))) as Hok'
        by (intros r' b Hin; apply Hok; now right).
    unfold in_window at 1, anchored.
    destruct (birthday r) as [b|] eqn:Hb.
    + rewrite (Hok r b (or_introl eq_refl) Hb). cbn [bind].
      destruct (Datetime.le today _ && Datetime.lt _ upcoming).
      * rewrite IH by exact Hok'. simpl. now rewrite <- app_assoc.
      * apply IH, Hok'.
    + apply IH, Hok'.
Qed.

(** The query on the books it handles: when every birthday can be moved
    to the current year, the answer is the names of the records in the
    window, in the order of the book. *)
Lemma get_upcoming_birthdays_window (today upcoming : datetime) (days : Z)
      (book : AddressBook) :
  add_days today days = Return upcoming ->
  (forall r b, List.In r (values book) -> birthday r = Some b ->
     replace_year b (year today)
     = Return (DT (year today) (month b) (day b) (hour b) (minute b)
                  (second b) (microsecond b))) ->
  get_upcoming_birthdays today days book
  = Return (window_names today upcoming book).
Proof.
  intros Hup Hok. unfold get_upcoming_birthdays, window_names.
  rewrite Hup. cbn [bind]. now rewrite upcoming_loop_filter.
Qed.

Example add_days_over_new_year :
  add_days (DT 2025 12 28 10 0 0 0) 7 = Return (DT 2026 1 4 10 0 0 0).
Proof. reflexivity. Qed.

Example add_days_over_leap_day :
  add_days (DT 2024 2 25 23 59 59 999999) 7
  = Return (DT 2024 3 3 23 59 59 999999).
Proof. reflexivity. Qed.

Example add_days_past_the_calendar :
  add_days (DT 9999 12 28 0 0 0 0) 7
  = Raise (Exn OverflowError (u "date value out of range")).
Proof. reflexivity. Qed.

Example upcoming_in_book_order :
  get_upcoming_birthdays (DT 2024 2 26 9 30 0 0) 7 sample_book
  = Return [u "Bob"; u "Alice"].
Proof. vm_compute. reflexivity. Qed.

Example upcoming_today_excluded :
  get_upcoming_birthdays (DT 2024 3 3 9 30 0 0) 7 sample_book = Return [].
Proof. vm_compute. reflexivity. Qed.

(** C5 (the code departs from the claim): with a record born on 29
    February in the book and a current year that is not a leap year, the
    query returns no list at all: moving that birthday to the current year
    raises [ValueError], also for the records that are in the window (here
    Alice, 3 March, asked on 26 February 2025), and the [birthdays]
    command answers with the text of the error. *)
Theorem get_upcoming_birthdays_leap_day :
  let today := DT 2025 2 26 9 30 0 0 in
  add_days today 7 = Return (DT 2025 3 5 9 30 0 0)
  /\ in_window today (DT 2025 3 5 9 30 0 0) alice = true
  /\ get_upcoming_birthdays today 7 sample_book
     = Raise (Exn ValueError (u "day is out of range for month"))
  /\ birthdays today [] sample_book
     = (u "day is out of range for month", sample_book).
Proof. vm_compute. repeat split; reflexivity. Qed.

(** ** The command loop *)

(** C7 (the code departs from the claim): an empty line, or a line of
    blanks, makes [parse_input] raise [IndexError] on [parts[0]]; nothing
    catches it, so the exception reaches the loop, and [main] ends with
    it whatever was typed before. *)
Theorem main_iteration_blank_line (P : Pickle) (today : datetime)
        (w : world) :
  main_iteration today (u "") w
  = Raise (Exn IndexError (u "list index out of range"))
  /\ main_iteration today (u "   ") w
     = Raise (Exn IndexError (u "list index out of range"))
  /\ main [(today, u "add Alice 0501234567"); (today, u "");
           (today, u "exit")] no_files
     = Raise (Exn IndexError (u "list index out of range")).
Proof. repeat split; reflexivity. Qed.

(** Apart from that, a turn of the loop raises only when [exit] or
    [close] cannot save the book. *)
Lemma main_iteration_raises (P : Pickle) (today : datetime) (line : str)
      (w : world) (e : exn) :
  main_iteration today line w = Raise e ->
  (split (strip line) = []
   /\ e = Exn IndexError (u "list index out of range"))
  \/ (exists command args,
        parse_input line = Return (command, args)
        /\ (command = u "close" \/ command = u "exit")
        /\ save_data (book w) default_filename (fs w) = Raise e).
Proof.
  unfold main_iteration, parse_input.
  destruct (split (strip line)) as [|part0 args] eqn:Hparts.
  - cbn [bind]. intros H; left; split; [reflexivity|congruence].
  - cbn [bind]. intros H. right. exists (lower part0), args.
    split; [reflexivity|].
    destruct (str_eqb (lower part0) (u "close")) eqn:E1;
      [|destruct (str_eqb (lower part0) (u "exit")) eqn:E2].
    + apply str_eqb_eq in E1. split; [now left|].
      cbn [orb book fs print] in H.
      destruct (save_data _ _ _); cbn [bind] in H; [discriminate|congruence].
    + apply str_eqb_eq in E2. split; [now right|].
      cbn [orb book fs print] in H.
      destruct (save_data _ _ _); cbn [bind] in H; [discriminate|congruence].
    + cbn [orb] in H.
      repeat match type of H with
             | (if ?b then _ else _) = _ => destruct b
             end; discriminate.
Qed.

(** Every command other than [exit] and [close] prints one text after the
    prompt and lets the loop go on. *)
Lemma main_iteration_continues (P : Pickle) (today : datetime) (line : str)
      (w : world) (command : str) (args : list str) :
  parse_input line = Return (command, args) ->
  command <> u "close" -> command <> u "exit" ->
  exists text book',
    main_iteration today line w
    = Return (Continue,
              {| book := book'; fs := fs w;
                 stdout := stdout w ++ [u "Введіть команду: "] ++ [text] |}).
Proof.
  intros Hparse Hc He. unfold main_iteration. rewrite Hparse. cbn [bind].
  apply str_eqb_neq in Hc, He. rewrite Hc, He. cbn [orb].
  unfold print_handler, print. cbn [book fs stdout].
  repeat match goal with
         | |- context [if ?b then _ else _] => destruct b
         end;
    try match goal with
        | |- context [let (_, _) := ?h in _] => destruct h as [text book']
        end;
    eexists; eexists; rewrite <- app_assoc; reflexivity.
Qed.

(** ** The invariant of the data model *)

Lemma Birthday_new_valid (text : str) (b : datetime) :
  Birthday_new text = Return b -> valid_datetime b.
Proof.
  unfold Birthday_new, validate_date.
  destruct (strptime text) as [dt|e] eqn:Hs.
  - cbn. intros [= <-]. revert Hs. unfold strptime.
    destruct (Re.match_ _ _) as [found|]; [|discriminate].
    destruct (negb _); [discriminate|].
    destruct (int_group found "Y" 1900) as [y|]; [|discriminate].
    destruct (int_group found "m" 1) as [m|]; [|discriminate].
    destruct (int_group found "d" 1) as [d|]; [|discriminate].
    cbn [bind]. intros Hnew. pose proof (new_return _ _ _ _ _ _ _ _ Hnew).
    subst dt. exact Hnew.
  - destruct (exn_cls e); cbn; discriminate.
Qed.

Lemma dict_get_In (k : str) (v : Record_) (d : AddressBook) :
  dict_get k d = Some v -> List.In (k, v) d.
Proof.
  induction d as [|[k' v'] d IH]; simpl; [discriminate|].
  destruct (str_eqb k' k) eqn:E.
  - apply str_eqb_eq in E. intros [= ->]. left; congruence.
  - intros H; right; now apply IH.
Qed.

Lemma snd_input_error (f : AddressBook -> result str * AddressBook)
      (book : AddressBook) :
  snd (input_error f book) = snd (f book).
Proof. unfold input_error. now destruct (f book) as [[text|e] book']. Qed.

Section Invariant.

(** [rule] is any property of phones that the validation of [Phone]
    guarantees. *)
Variable rule : str -> bool.
Hypothesis validated : forall p, validate_phone p = true -> rule p = true.

Lemma Record_new_inv (n : str) (r : Record_) :
  Record_new n = Return r -> name r = n /\ record_inv rule r.
Proof.
  unfold Record_new, Name_new. destruct n; [discriminate|].
  cbn. intros [= <-]. split; [reflexivity|].
  split; [constructor|discriminate].
Qed.

Lemma add_phone_inv (phone : str) (r : Record_) :
  record_inv rule r ->
  name (snd (add_phone phone r)) = name r
  /\ record_inv rule (snd (add_phone phone r)).
Proof.
  intros [Hp Hb]. unfold add_phone, Phone_new.
  destruct (validate_phone phone) eqn:Hv; cbn; split; try reflexivity;
    try (split; assumption).
  split; [|exact Hb]. cbn. apply Forall_app; split; [exact Hp|].
  constructor; [now apply validated|constructor].
Qed.

Lemma remove_phone_inv (phone : str) (r : Record_) :
  record_inv rule r ->
  name (remove_phone phone r) = name r
  /\ record_inv rule (remove_phone phone r).
Proof.
  intros [Hp Hb]. split; [reflexivity|]. split; [|exact Hb]. cbn.
  apply Forall_forall. intros p Hin. apply filter_In in Hin as [Hin _].
  revert p Hin. now apply Forall_forall.
Qed.

Lemma edit_phone_inv (old new : str) (r : Record_) :
  record_inv rule r ->
  name (snd (edit_phone old new r)) = name r
  /\ record_inv rule (snd (edit_phone old new r)).
Proof.
  intros Hr. unfold edit_phone.
  destruct (remove_phone_inv old r Hr) as [Hn Hi].
  destruct (add_phone_inv new (remove_phone old r) Hi) as [Hn' Hi'].
  split; [congruence|exact Hi'].
Qed.

Lemma add_birthday_inv (text : str) (r : Record_) :
  record_inv rule r ->
  name (snd (add_birthday text r)) = name r
  /\ record_inv rule (snd (add_birthday text r)).
Proof.
  intros [Hp Hb]. unfold add_birthday.
  destruct (Birthday_new text) as [b|e] eqn:Hnew; cbn;
    (split; [reflexivity|]); [|split; assumption].
  split; [exact Hp|]. cbn. intros b' [= <-].
  exact (Birthday_new_valid _ _ Hnew).
Qed.

Lemma dict_set_inv (k : str) (v : Record_) (book : AddressBook) :
  book_inv rule book -> entry_inv rule (k, v) ->
  book_inv rule (dict_set k v book).
Proof.
  intros Hbook Hkv. induction Hbook as [|[k' v'] book Hh Ht IH]; simpl.
  - constructor; [exact Hkv|constructor].
  - destruct (str_eqb k' k) eqn:E.
    + apply str_eqb_eq in E; subst k'. constructor; assumption.
    + constructor; assumption.
Qed.

Lemma dict_update_inv (k : str) (v : Record_) (book : AddressBook) :
  book_inv rule book -> entry_inv rule (k, v) ->
  book_inv rule (dict_update k v book).
Proof.
  intros Hbook Hkv. induction Hbook as [|[k' v'] book Hh Ht IH]; simpl.
  - constructor.
  - destruct (str_eqb k' k) eqn:E.
    + apply str_eqb_eq in E; subst k'. constructor; assumption.
    + constructor; assumption.
Qed.

Lemma add_record_inv (r : Record_) (book : AddressBook) :
  book_inv rule book -> record_inv rule r ->
  book_inv rule (add_record r book).
Proof.
  intros Hbook Hr. apply dict_set_inv; [exact Hbook|].
  split; [reflexivity|exact Hr].
Qed.

Lemma dict_del_inv (k : str) (book : AddressBook) :
  book_inv rule book -> book_inv rule (dict_del k book).
Proof.
  intros Hbook. induction Hbook as [|[k' v'] book Hh Ht IH]; simpl.
  - constructor.
  - destruct (str_eqb k' k); [exact Ht|constructor; assumption].
Qed.

Lemma delete_inv (k : str) (book : AddressBook) :
  book_inv rule book -> book_inv rule (delete k book).
Proof.
  intros Hbook. unfold delete.
  destruct (dict_get k book); [now apply dict_del_inv|exact Hbook].
Qed.

Lemma find_inv (k : str) (r : Record_) (book : AddressBook) :
  book_inv rule book -> find k book = Some r ->
  name r = k /\ record_inv rule r.
Proof.
  intros Hbook Hfind. apply dict_get_In in Hfind.
  unfold book_inv in Hbook. rewrite Forall_forall in Hbook.
  destruct (Hbook _ Hfind) as [Hk Hr]. cbn in Hk. split; [congruence|exact Hr].
Qed.

(** A method that keeps the name and the invariant of the record, called
    on the record stored under [key], keeps the invariant of the book. *)
Lemma call_on_inv (key : str) (r : Record_)
      (method : Record_ -> result unit * Record_) (book : AddressBook) :
  book_inv rule book ->
  name r = key -> record_inv rule r ->
  (name (snd (method r)) = name r /\ record_inv rule (snd (method r))) ->
  book_inv rule (snd (call_on key r method book)).
Proof.
  intros Hbook Hkey Hr [Hn Hi]. unfold call_on.
  destruct (method r) as [res r']. cbn in *.
  apply dict_update_inv; [exact Hbook|]. split; [cbn; congruence|exact Hi].
Qed.

Lemma add_contact_inv (args : list str) (book : AddressBook) :
  book_inv rule book -> book_inv rule (snd (add_contact args book)).
Proof.
  intros Hbook. unfold add_contact. rewrite snd_input_error.
  unfold add_contact_body.
  destruct (List.length args <? 2)%nat; [exact Hbook|].
  destruct args as [|n [|phone rest]]; try exact Hbook.
  destruct (find n book) as [r|] eqn:Hfind.
  - destruct (find_inv _ _ _ Hbook Hfind) as [Hn Hr].
    pose proof (call_on_inv n r (add_phone phone) book Hbook Hn Hr
                  (add_phone_inv phone r Hr)) as H.
    destruct (call_on n r (add_phone phone) book); exact H.
  - destruct (Record_new n) as [r|e] eqn:Hnew; [|exact Hbook].
    destruct (Record_new_inv _ _ Hnew) as [Hn Hr].
    pose proof (call_on_inv (key_of r) r (add_phone phone)
                  (add_record r book) (add_record_inv r book Hbook Hr)
                  eq_refl Hr (add_phone_inv phone r Hr)) as H.
    destruct (call_on (key_of r) r (add_phone phone) (add_record r book));
      exact H.
Qed.

Lemma change_contact_inv (args : list str) (book : AddressBook) :
  book_inv rule book -> book_inv rule (snd (change_contact args book)).
Proof.
  intros Hbook. unfold change_contact. rewrite snd_input_error.
  unfold change_contact_body.
  destruct (List.length args <? 3)%nat; [exact Hbook|].
  destruct args as [|n [|old [|new rest]]]; try exact Hbook.
  destruct (find n book) as [r|] eqn:Hfind; [|exact Hbook].
  destruct (find_inv _ _ _ Hbook Hfind) as [Hn Hr].
  pose proof (call_on_inv n r (edit_phone old new) book Hbook Hn Hr
                (edit_phone_inv old new r Hr)) as H.
  destruct (call_on n r (edit_phone old new) book); exact H.
Qed.

Lemma add_birthday_cmd_inv (args : list str) (book : AddressBook) :
  book_inv rule book -> book_inv rule (snd (add_birthday_cmd args book)).
Proof.
  intros Hbook. unfold add_birthday_cmd. rewrite snd_input_error.
  unfold add_birthday_body.
  destruct (List.length args <? 2)%nat; [exact Hbook|].
  destruct args as [|n [|text rest]]; try exact Hbook.
  destruct (find n book) as [r|] eqn:Hfind; [|exact Hbook].
  destruct (find_inv _ _ _ Hbook Hfind) as [Hn Hr].
  pose proof (call_on_inv n r (add_birthday text) book Hbook Hn Hr
                (add_birthday_inv text r Hr)) as H.
  destruct (call_on n r (add_birthday text) book); exact H.
Qed.

(** The commands that only read leave the book as it is. *)
Lemma reading_commands_keep_book (today : datetime) (args : list str)
      (book : AddressBook) :
  snd (show_phone args book) = book
  /\ snd (show_birthday args book) = book
  /\ snd (birthdays today args book) = book
  /\ snd (show_all_contacts book) = book.
Proof.
  unfold show_phone, show_birthday, birthdays, show_all_contacts.
  rewrite !snd_input_error.
  unfold show_phone_body, show_birthday_body, birthdays_body,
    show_all_contacts_body.
  repeat split.
  - destruct (List.length args <? 1)%nat; [reflexivity|].
    destruct args as [|n rest]; [reflexivity|].
    destruct (find n book); reflexivity.
  - destruct (List.length args <? 1)%nat; [reflexivity|].
    destruct args as [|n rest]; [reflexivity|].
    destruct (find n book) as [r|]; [|reflexivity].
    destruct (birthday r); reflexivity.
  - destruct book; reflexivity.
Qed.

(** Every operation of the model and every command keeps the invariant. *)
Lemma invariant_kept (book : AddressBook) (r : Record_) :
  book_inv rule book -> record_inv rule r -> kept_by_all rule book r.
Proof.
  intros Hbook Hr.
  assert (forall today args,
             snd (show_phone args book) = book
             /\ snd (show_birthday args book) = book
             /\ snd (birthdays today args book) = book
             /\ snd (show_all_contacts book) = book) as Hread
      by (intros; apply reading_commands_keep_book).
  pose (t0 := DT 1 1 1 0 0 0 0). unfold kept_by_all.
  repeat match goal with |- _ /\ _ => split end.
  - intros n r' Hnew. now destruct (Record_new_inv _ _ Hnew).
  - now apply add_record_inv.
  - intros k; now apply delete_inv.
  - intros p; apply (add_phone_inv p r Hr).
  - intros p; apply (remove_phone_inv p r Hr).
  - intros old new; apply (edit_phone_inv old new r Hr).
  - intros text; apply (add_birthday_inv text r Hr).
  - intros args; now apply add_contact_inv.
  - intros args; now apply change_contact_inv.
  - intros args; now apply add_birthday_cmd_inv.
  - intros args. destruct (Hread t0 args) as (-> & _). exact Hbook.
  - intros args. destruct (Hread t0 args) as (_ & -> & _). exact Hbook.
  - intros today args. destruct (Hread today args) as (_ & _ & -> & _).
    exact Hbook.
  - destruct (Hread t0 []) as (_ & _ & _ & ->). exact Hbook.
Qed.

End Invariant.

(** ** The matcher and the strings a pattern denotes *)

Lemma shift_nil (st : Re.mstate) : shift st [] (Re.rest st) = st.
Proof. destruct st as [p r g]. unfold shift; cbn. now rewrite Nat.add_0_r. Qed.

Lemma shift_shift (st : Re.mstate) (f1 f2 t1 t2 : str) :
  shift (shift st f1 t1) f2 t2 = shift st (f1 ++ f2) t2.
Proof.
  unfold shift; cbn. now rewrite length_app, Nat.add_assoc.
Qed.

Lemma advance_shift (st : Re.mstate) (c : N) (t : str) :
  Re.advance st t = shift st [c] t.
Proof. unfold Re.advance, shift; cbn. now rewrite Nat.add_1_r. Qed.

Lemma run_one (ok : N -> bool) (st st' : Re.mstate) :
  List.In st' (Re.one ok st) <->
  exists c t, Re.rest st = c :: t /\ ok c = true /\ st' = shift st [c] t.
Proof.
  unfold Re.one. destruct (Re.rest st) as [|c t] eqn:Hr.
  - split; [intros []|intros (c & t & H & _); discriminate].
  - destruct (ok c) eqn:Hok; split.
    + intros [<-|[]]. exists c, t. now rewrite (advance_shift st c t).
    + intros (c' & t' & [= <- <-] & _ & ->). left. apply advance_shift.
    + intros [].
    + intros (c' & t' & [= <- <-] & Hok' & _). congruence.
Qed.

Lemma run_times (k : nat) (step : Re.mstate -> list Re.mstate)
      (L : str -> Prop) :
  (forall st st',
      List.In st' (step st) <->
      exists f t, Re.rest st = f ++ t /\ L f /\ st' = shift st f t) ->
  forall st st',
    List.In st' (Re.times k step st) <->
    exists f t, Re.rest st = f ++ t /\ lang_times k L f /\ st' = shift st f t.
Proof.
  intros Hstep. induction k as [|k IH]; intros st st'; simpl.
  - split.
    + intros [<-|[]]. exists [], (Re.rest st). now rewrite shift_nil.
    + intros (f & t & Hr & -> & ->). left. cbn in Hr. subst t.
      symmetry; apply shift_nil.
  - rewrite in_flat_map. split.
    + intros (mid & Hmid & Hst').
      apply Hstep in Hmid as (f1 & t1 & Hr1 & HL1 & ->).
      apply IH in Hst' as (f2 & t2 & Hr2 & HL2 & ->). cbn in Hr2. subst t1.
      exists (f1 ++ f2), t2. rewrite <- app_assoc, shift_shift.
      split; [exact Hr1|]. split; [|reflexivity].
      exists f1, f2. auto.
    + intros (f & t & Hr & (f1 & f2 & -> & HL1 & HL2) & ->).
      exists (shift st f1 (f2 ++ t)). split.
      * apply Hstep. exists f1, (f2 ++ t). now rewrite app_assoc.
      * apply IH. exists f2, t. cbn. now rewrite shift_shift.
Qed.

(** The matcher is sound and complete for the plain patterns: it can go
    from [st] to [st'] exactly when [st'] is [st] after reading a string
    that the pattern denotes. *)
Lemma run_plain (r : Re.regex) :
  plain r = true ->
  forall st st',
    List.In st' (Re.run r st) <->
    exists f t, Re.rest st = f ++ t /\ lang r f /\ st' = shift st f t.
Proof.
  induction r as [| |c|cs|r1 IH1 r2 IH2|r1 IH1 r2 IH2|n r1 IH1|nm r1 IH1];
    cbn [plain]; intros Hp; try discriminate.
  - intros st st'. cbn [Re.run lang]. rewrite run_one. split.
    + intros (x & t & Hr & Hx & ->). apply N.eqb_eq in Hx; subst x.
      exists [c], t. auto.
    + intros (f & t & Hr & -> & ->). exists c, t. now rewrite N.eqb_refl.
  - intros st st'. cbn [Re.run lang]. rewrite run_one. split.
    + intros (x & t & Hr & Hx & ->). exists [x], t. eauto.
    + intros (f & t & Hr & (x & -> & Hx) & ->). exists x, t. auto.
  - apply andb_true_iff in Hp as [Hp1 Hp2].
    specialize (IH1 Hp1). specialize (IH2 Hp2).
    intros st st'. cbn [Re.run lang]. rewrite in_flat_map. split.
    + intros (mid & Hmid & Hst').
      apply IH1 in Hmid as (f1 & t1 & Hr1 & HL1 & ->).
      apply IH2 in Hst' as (f2 & t2 & Hr2 & HL2 & ->). cbn in Hr2. subst t1.
      exists (f1 ++ f2), t2. rewrite <- app_assoc, shift_shift.
      split; [exact Hr1|]. split; [|reflexivity]. exists f1, f2. auto.
    + intros (f & t & Hr & (f1 & f2 & -> & HL1 & HL2) & ->).
      exists (shift st f1 (f2 ++ t)). split.
      * apply IH1. exists f1, (f2 ++ t). now rewrite app_assoc.
      * apply IH2. exists f2, t. cbn. now rewrite shift_shift.
  - apply andb_true_iff in Hp as [Hp1 Hp2].
    specialize (IH1 Hp1). specialize (IH2 Hp2).
    intros st st'. cbn [Re.run lang]. rewrite in_app_iff, IH1, IH2. split.
    + intros [(f & t & H1 & H2 & H3)|(f & t & H1 & H2 & H3)];
        exists f, t; auto.
    + intros (f & t & H1 & [H2|H2] & H3); [left|right]; exists f, t; auto.
  - intros st st'. cbn [Re.run lang]. apply run_times. exact (IH1 Hp).
Qed.

(** A named group around a plain pattern records what was read. *)
Lemma run_group (nm : string) (r : Re.regex) :
  plain r = true ->
  forall st st',
    List.In st' (Re.run (Re.Group nm r) st) <->
    exists f t,
      Re.rest st = f ++ t /\ lang r f
      /\ st' = {| Re.pos := Re.pos st + List.length f; Re.rest := t;
                  Re.groups := (nm, f) :: Re.groups st |}.
Proof.
  intros Hp st st'. cbn [Re.run]. rewrite in_map_iff. split.
  - intros (mid & <- & Hmid).
    apply (run_plain r Hp) in Hmid as (f & t & Hr & HL & ->).
    exists f, t. split; [exact Hr|]. split; [exact HL|]. cbn.
    replace (Re.pos st + List.length f - Re.pos st)%nat
      with (List.length f) by lia.
    rewrite Hr, firstn_app, Nat.sub_diag, firstn_all. cbn.
    now rewrite app_nil_r.
  - intros (f & t & Hr & HL & ->). exists (shift st f t). split.
    + cbn.
      replace (Re.pos st + List.length f - Re.pos st)%nat
        with (List.length f) by lia.
      rewrite Hr, firstn_app, Nat.sub_diag, firstn_all. cbn.
      now rewrite app_nil_r.
    + apply (run_plain r Hp). exists f, t. auto.
Qed.

(** ** Parsing a date *)

Ltac bool_hyps :=
  repeat match goal with
         | H : _ && _ = true |- _ => apply andb_true_iff in H; destruct H
         | H : _ || _ = true |- _ => apply orb_true_iff in H; destruct H
         | H : (_ =? _)%N = true |- _ => apply N.eqb_eq in H
         | H : (_ <=? _)%N = true |- _ => apply N.leb_le in H
         end.

Ltac bool_goal :=
  repeat match goal with
         | |- _ && _ = true => apply andb_true_iff; split
         | |- (_ =? _)%N = true => apply N.eqb_eq
         | |- (_ <=? _)%N = true => apply N.leb_le
         end.

Lemma alt_d_eq :
  alt_d =
  Re.Alt (Re.Seq (Re.Chr 0x33) (Re.In (Re.Range 0x30 0x31)))
 (Re.Alt (Re.Seq (Re.In (Re.Range 0x31 0x32)) (Re.In Re.Digit))
 (Re.Alt (Re.Seq (Re.Chr 0x30) (Re.In (Re.Range 0x31 0x39)))
 (Re.Alt (Re.In (Re.Range 0x31 0x39))
         (Re.Seq (Re.Chr 0x20) (Re.In (Re.Range 0x31 0x39)))))).
Proof. reflexivity. Qed.

Lemma alt_m_eq :
  alt_m =
  Re.Alt (Re.Seq (Re.Chr 0x31) (Re.In (Re.Range 0x30 0x32)))
 (Re.Alt (Re.Seq (Re.Chr 0x30) (Re.In (Re.Range 0x31 0x39)))
         (Re.In (Re.Range 0x31 0x39))).
Proof. reflexivity. Qed.

Lemma seq_Y_eq :
  seq_Y =
  Re.Seq (Re.In Re.Digit)
    (Re.Seq (Re.In Re.Digit) (Re.Seq (Re.In Re.Digit) (Re.In Re.Digit))).
Proof. reflexivity. Qed.

Lemma lang_alt_d (f : str) : lang alt_d f <-> day_field f = true.
Proof.
  rewrite alt_d_eq. cbn [lang Re.charset_mem]. split.
  - intros [H|[H|[H|[H|H]]]];
      repeat match goal with
             | H : exists _, _ |- _ => destruct H
             | H : _ /\ _ |- _ => destruct H
             end; subst; cbn [app]; unfold day_field, between;
      repeat match goal with
             | H : _ = true |- _ => rewrite H
             end; cbn [N.eqb Pos.eqb andb orb];
      rewrite ?orb_true_r; reflexivity.
  - destruct f as [|a [|b [|c f]]]; try discriminate;
      unfold day_field, between; intros H.
    + right; right; right; left. exists a. auto.
    + apply orb_true_iff in H as [H|H];
        [apply orb_true_iff in H as [H|H];
         [apply orb_true_iff in H as [H|H]|]|];
        apply andb_true_iff in H as [Ha Hb].
      * apply N.eqb_eq in Ha; subst a. left. exists [0x33%N], [b].
        repeat split. exists b. auto.
      * right; left. exists [a], [b]. repeat split; [exists a|exists b]; auto.
      * apply N.eqb_eq in Ha; subst a. right; right; left.
        exists [0x30%N], [b]. repeat split. exists b. auto.
      * apply N.eqb_eq in Ha; subst a. right; right; right; right.
        exists [0x20%N], [b]. repeat split. exists b. auto.
Qed.

Lemma lang_alt_m (f : str) : lang alt_m f <-> month_field f = true.
Proof.
  rewrite alt_m_eq. cbn [lang Re.charset_mem]. split.
  - intros [H|[H|H]];
      repeat match goal with
             | H : exists _, _ |- _ => destruct H
             | H : _ /\ _ |- _ => destruct H
             end; subst; cbn [app]; unfold month_field, between;
      repeat match goal with
             | H : _ = true |- _ => rewrite H
             end; cbn [N.eqb Pos.eqb andb orb];
      rewrite ?orb_true_r; reflexivity.
  - destruct f as [|a [|b [|c f]]]; try discriminate;
      unfold month_field, between; intros H.
    + right; right. exists a. auto.
    + apply orb_true_iff in H as [H|H];
        apply andb_true_iff in H as [Ha Hb];
        apply N.eqb_eq in Ha; subst a.
      * left. exists [0x31%N], [b]. repeat split. exists b. auto.
      * right; left. exists [0x30%N], [b]. repeat split. exists b. auto.
Qed.

Lemma lang_seq_Y (f : str) : lang seq_Y f <-> year_field f = true.
Proof.
  rewrite seq_Y_eq. cbn [lang Re.charset_mem]. split.
  - intros H.
    repeat match goal with
           | H : exists _, _ |- _ => destruct H
           | H : _ /\ _ |- _ => destruct H
           end; subst; cbn [app]. unfold year_field. cbn [List.length Nat.eqb forallb].
    repeat match goal with
           | H : _ = true |- _ => rewrite H
           end. reflexivity.
  - destruct f as [|a [|b [|c [|d [|e f]]]]]; try discriminate.
    unfold year_field. cbn [List.length Nat.eqb forallb andb]. intros H.
    bool_hyps.
    exists [a], [b; c; d]. repeat split; [exists a; auto|].
    exists [b], [c; d]. repeat split; [exists b; auto|].
    exists [c], [d]. repeat split; [exists c|exists d]; auto.
Qed.

Lemma plain_fields :
  plain alt_d = true /\ plain alt_m = true /\ plain seq_Y = true.
Proof. repeat split. Qed.

Lemma format_regex_eq :
  format_regex =
  Re.Seq (Re.Group "d" alt_d)
    (Re.Seq (Re.Chr dot)
       (Re.Seq (Re.Group "m" alt_m)
          (Re.Seq (Re.Chr dot) (Re.Group "Y" seq_Y)))).
Proof. reflexivity. Qed.

Lemma run_chr (c : N) (st st' : Re.mstate) :
  List.In st' (Re.run (Re.Chr c) st) <->
  exists t, Re.rest st = c :: t /\ st' = shift st [c] t.
Proof.
  rewrite (run_plain (Re.Chr c) eq_refl). cbn [lang]. split.
  - intros (f & t & Hr & -> & ->). now exists t.
  - intros (t & Hr & ->). now exists [c], t.
Qed.

Lemma run_seq (r1 r2 : Re.regex) (st st' : Re.mstate) :
  List.In st' (Re.run (Re.Seq r1 r2) st) <->
  exists mid, List.In mid (Re.run r1 st) /\ List.In st' (Re.run r2 mid).
Proof. cbn [Re.run]. apply in_flat_map. Qed.

(** The ways in which the pattern of ["%d.%m.%Y"] matches at the start of
    [s]: a day, a dot, a month, a dot and a year, with [t] left over. *)
Lemma run_format_regex (s : str) (found : Re.mstate) :
  List.In found
          (Re.run format_regex {| Re.pos := 0; Re.rest := s; Re.groups := [] |})
  <->
  exists d m y t,
    s = d ++ dot :: m ++ dot :: y ++ t
    /\ day_field d = true /\ month_field m = true /\ year_field y = true
    /\ found = {| Re.pos := List.length (d ++ dot :: m ++ dot :: y);
                  Re.rest := t;
                  Re.groups := [("Y"%string, y); ("m"%string, m);
                                ("d"%string, d)] |}.
Proof.
  destruct plain_fields as (Pd & Pm & PY).
  rewrite format_regex_eq. split.
  - intros H.
    apply run_seq in H as (s1 & H1 & H).
    apply (run_group "d" alt_d Pd) in H1 as (d & t1 & Hr1 & Hd & ->).
    apply run_seq in H as (s2 & H2 & H).
    apply run_chr in H2 as (t2 & Hr2 & ->).
    apply run_seq in H as (s3 & H3 & H).
    apply (run_group "m" alt_m Pm) in H3 as (m & t3 & Hr3 & Hm & ->).
    apply run_seq in H as (s4 & H4 & H).
    apply run_chr in H4 as (t4 & Hr4 & ->).
    apply (run_group "Y" seq_Y PY) in H as (y & t & Hr5 & Hy & ->).
    cbn in Hr1, Hr2, Hr3, Hr4, Hr5. subst s t1 t2 t3 t4.
    exists d, m, y, t.
    apply lang_alt_d in Hd. apply lang_alt_m in Hm. apply lang_seq_Y in Hy.
    repeat split; try assumption.
    cbn. f_equal. rewrite !length_app. cbn. rewrite !length_app. cbn. lia.
  - intros (d & m & y & t & -> & Hd & Hm & Hy & ->).
    apply lang_alt_d in Hd. apply lang_alt_m in Hm. apply lang_seq_Y in Hy.
    apply run_seq. eexists. split.
    { apply (run_group "d" alt_d Pd). exists d. eexists.
      split; [reflexivity|]. split; [exact Hd|reflexivity]. }
    apply run_seq. eexists. split.
    { apply run_chr. eexists. split; reflexivity. }
    apply run_seq. eexists. split.
    { apply (run_group "m" alt_m Pm). exists m. eexists.
      split; [reflexivity|]. split; [exact Hm|reflexivity]. }
    apply run_seq. eexists. split.
    { apply run_chr. eexists. split; reflexivity. }
    apply (run_group "Y" seq_Y PY). exists y, t.
    split; [reflexivity|]. split; [exact Hy|].
    cbn. f_equal. rewrite !length_app. cbn. rewrite !length_app. cbn. lia.
Qed.

Lemma forallb_N_range (ok : N -> bool) (len : nat) (lo c : N) :
  forallb ok (N_range lo len) = true ->
  (lo <= c)%N -> (c < lo + N.of_nat len)%N -> ok c = true.
Proof.
  revert lo. induction len as [|len IH]; intros lo Hall Hlo Hhi.
  - lia.
  - cbn [N_range forallb] in Hall. apply andb_true_iff in Hall as [H0 Hall].
    destruct (N.eq_dec lo c) as [->|Hne]; [exact H0|].
    apply (IH (N.succ lo)); [exact Hall|lia|lia].
Qed.

Lemma space_not_decimal (c : N) : is_space c = true -> is_decimal c = false.
Proof.
  intros H. apply negb_true_iff. unfold is_space in H. bool_hyps; subst;
    try reflexivity.
  - apply (forallb_N_range (fun c => negb (is_decimal c)) 5 0x9);
      [reflexivity|lia|lia].
  - apply (forallb_N_range (fun c => negb (is_decimal c)) 5 0x1c);
      [reflexivity|lia|lia].
  - apply (forallb_N_range (fun c => negb (is_decimal c)) 11 0x2000);
      [reflexivity|lia|lia].
Qed.

Lemma decimal_not_space (c : N) : is_decimal c = true -> is_space c = false.
Proof.
  intros H. destruct (is_space c) eqn:E; [|reflexivity].
  apply space_not_decimal in E. congruence.
Qed.

Lemma decimal_not_dot (c : N) : is_decimal c = true -> c <> dot.
Proof. intros H ->. discriminate H. Qed.

Lemma between_decimal (lo c hi : N) :
  (0x30 <= lo)%N -> (hi <= 0x39)%N ->
  between lo c hi = true -> is_decimal c = true.
Proof.
  unfold between. intros Hlo Hhi H. bool_hyps.
  apply is_ascii_digit_decimal. unfold is_ascii_digit.
  apply andb_true_iff; split; apply N.leb_le; lia.
Qed.

(** The characters of a day are decimal digits, but for a leading space;
    those of a month and of a year are decimal digits. *)
Lemma day_field_chars (f : str) :
  day_field f = true ->
  (forallb is_decimal f = true /\ f <> [])
  \/ (exists b, f = [space; b] /\ is_decimal b = true).
Proof.
  destruct f as [|a [|b [|c f]]]; try discriminate; unfold day_field.
  - intros H. left. split; [|discriminate]. cbn.
    now rewrite (between_decimal 0x31 a 0x39) by (lia || assumption).
  - intros H.
    apply orb_true_iff in H as [H|H];
      [apply orb_true_iff in H as [H|H];
       [apply orb_true_iff in H as [H|H]|]|];
      apply andb_true_iff in H as [Ha Hb].
    + apply N.eqb_eq in Ha; subst a. left. split; [|discriminate]. cbn.
      now rewrite (between_decimal 0x30 b 0x31) by (lia || assumption).
    + left. split; [|discriminate]. cbn.
      rewrite (between_decimal 0x31 a 0x32) by (lia || assumption).
      now rewrite Hb.
    + apply N.eqb_eq in Ha; subst a. left. split; [|discriminate]. cbn.
      now rewrite (between_decimal 0x31 b 0x39) by (lia || assumption).
    + apply N.eqb_eq in Ha; subst a. right. exists b. split; [reflexivity|].
      now apply (between_decimal 0x31 b 0x39).
Qed.

Lemma month_field_chars (f : str) :
  month_field f = true -> forallb is_decimal f = true /\ f <> [].
Proof.
  destruct f as [|a [|b [|c f]]]; try discriminate; unfold month_field.
  - intros H. split; [|discriminate]. cbn.
    now rewrite (between_decimal 0x31 a 0x39) by (lia || assumption).
  - intros H. split; [|discriminate].
    apply orb_true_iff in H as [H|H]; apply andb_true_iff in H as [Ha Hb];
      apply N.eqb_eq in Ha; subst a; cbn.
    + now rewrite (between_decimal 0x30 b 0x32) by (lia || assumption).
    + now rewrite (between_decimal 0x31 b 0x39) by (lia || assumption).
Qed.

Lemma year_field_chars (f : str) :
  year_field f = true ->
  forallb is_decimal f = true /\ List.length f = 4%nat.
Proof.
  unfold year_field. intros H. apply andb_true_iff in H as [Hl Hd].
  apply Nat.eqb_eq in Hl. auto.
Qed.

Lemma decimals_no_dot (f : str) :
  forallb is_decimal f = true -> ~ List.In dot f.
Proof.
  intros H Hin. rewrite forallb_forall in H. specialize (H _ Hin).
  discriminate H.
Qed.

Lemma day_field_no_dot (f : str) : day_field f = true -> ~ List.In dot f.
Proof.
  intros H. destruct (day_field_chars f H) as [[Hd _]|(b & -> & Hb)].
  - now apply decimals_no_dot.
  - intros [E|[E|[]]]; [discriminate E|].
    subst b. discriminate Hb.
Qed.

Lemma split_at_dot (a a' r r' : str) :
  ~ List.In dot a -> ~ List.In dot a' ->
  a ++ dot :: r = a' ++ dot :: r' -> a = a' /\ r = r'.
Proof.
  revert a'. induction a as [|x a IH]; intros [|x' a'] Ha Ha' E; cbn in E.
  - injection E as E. auto.
  - injection E as E1 E2. exfalso. apply Ha'. left. congruence.
  - injection E as E1 E2. exfalso. apply Ha. left. congruence.
  - injection E as E1 E2. subst x'.
    destruct (IH a') as [-> ->]; auto.
    + intros Hin; apply Ha; now right.
    + intros Hin; apply Ha'; now right.
Qed.

(** A string is a date text in one way at most. *)
Lemma date_text_unique (d m y t d' m' y' t' : str) :
  d ++ dot :: m ++ dot :: y ++ t = d' ++ dot :: m' ++ dot :: y' ++ t' ->
  day_field d = true -> day_field d' = true ->
  month_field m = true -> month_field m' = true ->
  year_field y = true -> year_field y' = true ->
  d = d' /\ m = m' /\ y = y' /\ t = t'.
Proof.
  intros E Hd Hd' Hm Hm' Hy Hy'.
  apply split_at_dot in E as [-> E]; try now apply day_field_no_dot.
  apply split_at_dot in E as [-> E];
    try (apply decimals_no_dot; now apply month_field_chars).
  apply year_field_chars in Hy as [_ Hy]. apply year_field_chars in Hy' as [_ Hy'].
  destruct y as [|y1 [|y2 [|y3 [|y4 [|y5 y]]]]]; try discriminate.
  destruct y' as [|z1 [|z2 [|z3 [|z4 [|z5 y']]]]]; try discriminate.
  cbn in E. injection E as -> -> -> -> ->. auto.
Qed.

(** *** [int] on the fields *)

Lemma lstrip_decimal (f : str) :
  forallb is_decimal f = true -> lstrip f = f.
Proof.
  destruct f as [|c f]; [reflexivity|]. cbn. intros H.
  apply andb_true_iff in H as [Hc _].
  now rewrite (decimal_not_space _ Hc).
Qed.

Lemma strip_decimal (f : str) : forallb is_decimal f = true -> strip f = f.
Proof.
  intros H. unfold strip, rstrip. rewrite (lstrip_decimal f H).
  rewrite lstrip_decimal; [apply rev_involutive|].
  apply forallb_forall. intros c Hin. apply in_rev in Hin.
  rewrite forallb_forall in H. now apply H.
Qed.

Lemma digits_value_decimal (f : str) (acc : Z) :
  forallb is_decimal f = true -> exists z, digits_value acc f = Some z.
Proof.
  revert acc. induction f as [|c f IH]; intros acc H; cbn.
  - now exists acc.
  - cbn in H. apply andb_true_iff in H as [Hc Hf].
    unfold is_decimal in Hc. destruct (decimal_value c); [|discriminate].
    apply IH, Hf.
Qed.

Lemma int_decimal (f : str) :
  forallb is_decimal f = true -> f <> [] -> int f = Return (field_value f).
Proof.
  intros H Hne. unfold int, field_value. rewrite (strip_decimal f H).
  destruct (digits_value_decimal f 0 H) as [z Hz].
  destruct f; [congruence|]. now rewrite Hz.
Qed.

Lemma int_day_field (f : str) :
  day_field f = true -> int f = Return (field_value f).
Proof.
  intros H. destruct (day_field_chars f H) as [[Hd Hne]|(b & -> & Hb)].
  - now apply int_decimal.
  - assert (strip [space; b] = [b]) as Hs.
    { unfold strip, rstrip. cbn [lstrip rev app].
      change (is_space space) with true. cbn [lstrip rev app].
      rewrite (decimal_not_space _ Hb). cbn [rev app lstrip].
      now rewrite (decimal_not_space _ Hb). }
    unfold int, field_value. rewrite Hs.
    destruct (digits_value_decimal [b] 0) as [z Hz];
      [cbn; now rewrite Hb|].
    now rewrite Hz.
Qed.

(** *** [strptime] and [Birthday] *)

Lemma new_legal (y m d : Z) :
  if legal_date y m d
  then new y m d 0 0 0 0 = Return (DT y m d 0 0 0 0)
  else exists e, new y m d 0 0 0 0 = Raise e /\ exn_cls e = ValueError.
Proof.
  unfold legal_date, new.
  destruct (in_range MINYEAR y MAXYEAR).
  2:{ cbv beta iota delta [negb andb]. eexists.
      split; [reflexivity|exact eq_refl]. }
  destruct (in_range 1 m 12).
  2:{ cbv beta iota delta [negb andb]. eexists.
      split; [reflexivity|exact eq_refl]. }
  destruct (in_range 1 d (_days_in_month y m)).
  2:{ cbv beta iota delta [negb andb]. eexists.
      split; [reflexivity|exact eq_refl]. }
  exact eq_refl.
Qed.

Lemma new_raises (y m d h mi sec us : Z) (e : exn) :
  new y m d h mi sec us = Raise e -> exn_cls e = ValueError.
Proof.
  unfold new.
  repeat match goal with
         | |- (if ?b then _ else _) = _ -> _ =>
             destruct b; [intros [= <-]; reflexivity|]
         end.
  discriminate.
Qed.

Lemma int_raises (f : str) (e : exn) :
  int f = Raise e -> exn_cls e = ValueError.
Proof.
  unfold int. destruct (strip f); [intros [= <-]; reflexivity|].
  destruct (digits_value _ _); [discriminate|intros [= <-]; reflexivity].
Qed.

Lemma int_group_raises (found : Re.mstate) (nm : string) (dflt : Z)
      (e : exn) :
  int_group found nm dflt = Raise e -> exn_cls e = ValueError.
Proof.
  unfold int_group. destruct (Re.group _ _); [apply int_raises|discriminate].
Qed.

(** [strptime] raises nothing but [ValueError]. *)
Lemma strptime_raises (s : str) (e : exn) :
  strptime s = Raise e -> exn_cls e = ValueError.
Proof.
  unfold strptime. destruct (Re.match_ _ _) as [found|];
    [|intros [= <-]; reflexivity].
  destruct (negb _); [intros [= <-]; reflexivity|].
  destruct (int_group found "Y" 1900) as [y|e1] eqn:E1;
    [|cbn; intros [= <-]; exact (int_group_raises _ _ _ _ E1)].
  destruct (int_group found "m" 1) as [m|e2] eqn:E2;
    [|cbn; intros [= <-]; exact (int_group_raises _ _ _ _ E2)].
  destruct (int_group found "d" 1) as [d|e3] eqn:E3;
    [|cbn; intros [= <-]; exact (int_group_raises _ _ _ _ E3)].
  cbn. apply new_raises.
Qed.

(** On a date text the match is the whole string, whatever the order in
    which the alternatives are tried. *)
Lemma match_date_text (s d m y : str) :
  date_text s d m y ->
  Re.match_ format_regex s
  = Some {| Re.pos := List.length s; Re.rest := [];
            Re.groups := [("Y"%string, y); ("m"%string, m);
                          ("d"%string, d)] |}.
Proof.
  intros (Hs & Hd & Hm & Hy). unfold Re.match_.
  destruct (Re.run format_regex _) as [|h l] eqn:Hrun.
  - exfalso.
    assert (List.In {| Re.pos := List.length (d ++ dot :: m ++ dot :: y);
                       Re.rest := [];
                       Re.groups := [("Y"%string, y); ("m"%string, m);
                                     ("d"%string, d)] |}
                    (Re.run format_regex
                       {| Re.pos := 0; Re.rest := s; Re.groups := [] |})) as Hin.
    { apply run_format_regex. exists d, m, y, [].
      rewrite app_nil_r. auto. }
    rewrite Hrun in Hin. destruct Hin.
  - cbn [hd_error].
    assert (List.In h (Re.run format_regex
                         {| Re.pos := 0; Re.rest := s; Re.groups := [] |}))
      as Hin by (rewrite Hrun; now left).
    apply run_format_regex in Hin
      as (d' & m' & y' & t' & Hs' & Hd' & Hm' & Hy' & ->).
    assert (d ++ dot :: m ++ dot :: y ++ []
            = d' ++ dot :: m' ++ dot :: y' ++ t') as E
        by (rewrite app_nil_r; congruence).
    apply date_text_unique in E as (<- & <- & <- & <-); try assumption.
    now rewrite <- Hs.
Qed.

Lemma strptime_date_text (s d m y : str) :
  date_text s d m y ->
  strptime s
  = new (field_value y) (field_value m) (field_value d) 0 0 0 0.
Proof.
  intros H. unfold strptime. rewrite (match_date_text s d m y H).
  destruct H as (Hs & Hd & Hm & Hy).
  cbn [Re.end_ Re.pos]. rewrite Nat.eqb_refl. cbn [negb].
  unfold int_group. cbn [Re.groups Re.group String.eqb Ascii.eqb Bool.eqb].
  destruct (year_field_chars y Hy) as [Hyd Hyl].
  rewrite (int_decimal y Hyd) by (destruct y; [discriminate|discriminate]).
  destruct (month_field_chars m Hm) as [Hmd Hmn].
  rewrite (int_decimal m Hmd Hmn), (int_day_field d Hd). reflexivity.
Qed.

Lemma strptime_returns (s : str) (dt : datetime) :
  strptime s = Return dt -> exists d m y, date_text s d m y.
Proof.
  unfold strptime, Re.match_.
  destruct (Re.run format_regex _) as [|h l] eqn:Hrun; [discriminate|].
  cbn [hd_error].
  assert (List.In h (Re.run format_regex
                       {| Re.pos := 0; Re.rest := s; Re.groups := [] |}))
    as Hin by (rewrite Hrun; now left).
  apply run_format_regex in Hin as (d & m & y & t & Hs & Hd & Hm & Hy & ->).
  cbn [Re.end_ Re.pos].
  destruct (Nat.eqb _ _) eqn:Hlen; [|discriminate].
  intros _. apply Nat.eqb_eq in Hlen.
  assert (t = []) as ->.
  { rewrite Hs in Hlen.
    replace (d ++ dot :: m ++ dot :: y ++ t)
      with ((d ++ dot :: m ++ dot :: y) ++ t) in Hlen
      by (rewrite <- app_assoc; cbn; rewrite <- app_assoc; reflexivity).
    rewrite length_app in Hlen. destruct t; [reflexivity|cbn in Hlen; lia]. }
  rewrite app_nil_r in Hs. exists d, m, y. repeat split; assumption.
Qed.

Lemma Birthday_new_on_date_text (s d m y : str) :
  date_text s d m y ->
  Birthday_new s =
  if legal_date (field_value y) (field_value m) (field_value d)
  then Return (DT (field_value y) (field_value m) (field_value d) 0 0 0 0)
  else Raise bad_date.
Proof.
  intros H. unfold Birthday_new, validate_date.
  rewrite (strptime_date_text s d m y H).
  pose proof (new_legal (field_value y) (field_value m) (field_value d))
    as Hnew.
  destruct (legal_date _ _ _).
  - rewrite Hnew. reflexivity.
  - destruct Hnew as (e & -> & He). rewrite He. reflexivity.
Qed.

Lemma Birthday_new_not_date_text (s : str) :
  (forall d m y, ~ date_text s d m y) -> Birthday_new s = Raise bad_date.
Proof.
  intros Hno. unfold Birthday_new, validate_date.
  destruct (strptime s) as [dt|e] eqn:Hs.
  - exfalso. destruct (strptime_returns s dt Hs) as (d & m & y & H).
    exact (Hno d m y H).
  - rewrite (strptime_raises s e Hs). reflexivity.
Qed.

(** C3 (amended): a date text (a day, a dot, a month, a dot and a year,
    each as [strptime] reads it: the day and the month may have one digit
    or two) whose values are a legal calendar date makes a [Birthday] that
    stores that day, month and year; a date text whose values are no legal
    date, and every string that is no date text, is refused with the
    validation error. *)
Theorem Birthday_new_date_text (s : str) :
  (forall d m y,
      date_text s d m y ->
      Birthday_new s =
      if legal_date (field_value y) (field_value m) (field_value d)
      then Return (DT (field_value y) (field_value m) (field_value d)
                      0 0 0 0)
      else Raise bad_date)
  /\ ((forall d m y, ~ date_text s d m y) -> Birthday_new s = Raise bad_date).
Proof.
  split.
  - apply Birthday_new_on_date_text.
  - apply Birthday_new_not_date_text.
Qed.

Lemma Birthday_new_date_text_witness :
  Birthday_new (u "7.03.1990") = Return (DT 1990 3 7 0 0 0 0).
Proof.
  exact (proj1 (Birthday_new_date_text (u "7.03.1990"))
               (u "7") (u "03") (u "1990")
               (conj eq_refl (conj eq_refl (conj eq_refl eq_refl)))).
Defined.

(** C3 as it is stated fails: ["1.1.2000"] is not of the form DD.MM.YYYY,
    and yet the construction succeeds (and stores 1 January 2000). *)
Lemma Birthday_single_digits_counterexample :
  ~ Birthday_as_claimed (u "1.1.2000").
Proof. unfold Birthday_as_claimed. vm_compute. discriminate. Qed.

(** The part of the claim that holds: a string that is DD.MM.YYYY to the
    letter and names a legal date is accepted and stored as that date. *)
Lemma two_digits_day (d1 d2 : N) :
  is_ascii_digit d1 = true -> is_ascii_digit d2 = true ->
  in_range 1 (field_value [d1; d2]) 31 = true -> day_field [d1; d2] = true.
Proof.
  intros H1 H2.
  set (ok := fun a =>
               forallb (fun b => implb (in_range 1 (field_value [a; b]) 31)
                                       (day_field [a; b]))
                       (N_range 0x30 10)).
  assert (forallb ok (N_range 0x30 10) = true) as Hall
      by (vm_compute; reflexivity).
  unfold is_ascii_digit in H1, H2. bool_hyps.
  assert (ok d1 = true) as Hd1
      by (apply (forallb_N_range ok 10 0x30); [exact Hall|lia|lia]).
  unfold ok in Hd1.
  pose proof (forallb_N_range _ 10 0x30 d2 Hd1) as Hd2. cbv beta in Hd2.
  intros Hr. rewrite Hr in Hd2. apply Hd2; lia.
Qed.

Lemma two_digits_month (m1 m2 : N) :
  is_ascii_digit m1 = true -> is_ascii_digit m2 = true ->
  in_range 1 (field_value [m1; m2]) 12 = true -> month_field [m1; m2] = true.
Proof.
  intros H1 H2.
  set (ok := fun a =>
               forallb (fun b => implb (in_range 1 (field_value [a; b]) 12)
                                       (month_field [a; b]))
                       (N_range 0x30 10)).
  assert (forallb ok (N_range 0x30 10) = true) as Hall
      by (vm_compute; reflexivity).
  unfold is_ascii_digit in H1, H2. bool_hyps.
  assert (ok m1 = true) as Hm1
      by (apply (forallb_N_range ok 10 0x30); [exact Hall|lia|lia]).
  unfold ok in Hm1.
  pose proof (forallb_N_range _ 10 0x30 m2 Hm1) as Hm2. cbv beta in Hm2.
  intros Hr. rewrite Hr in Hm2. apply Hm2; lia.
Qed.

Lemma Birthday_strict_form (s : str) (dt : datetime) :
  claimed_birthday s = Some dt -> Birthday_new s = Return dt.
Proof.
  unfold claimed_birthday, DD_MM_YYYY.
  destruct s as [|d1 [|d2 [|p1 [|m1 [|m2 [|p2 [|y1 [|y2 [|y3 [|y4 [|z s]]]]]]]]]]];
    try discriminate.
  destruct (_ && _) eqn:Hform; [|discriminate].
  destruct (legal_date _ _ _) eqn:Hlegal; [|discriminate].
  intros [= <-].
  cbn [forallb] in Hform. bool_hyps. subst p1 p2.
  rewrite (Birthday_new_on_date_text
             [d1; d2; dot; m1; m2; dot; y1; y2; y3; y4]
             [d1; d2] [m1; m2] [y1; y2; y3; y4]).
  - now rewrite Hlegal.
  - unfold legal_date in Hlegal.
    apply andb_true_iff in Hlegal as [Hlegal Hd].
    apply andb_true_iff in Hlegal as [_ Hm].
    repeat split.
    + apply two_digits_day; try assumption.
      unfold in_range in *. apply andb_true_iff in Hd as [Hd1 Hd2].
      rewrite Hd1. cbn [andb]. apply Z.leb_le. apply Z.leb_le in Hd2.
      pose proof (days_in_month_le (field_value [y1; y2; y3; y4])
                                   (field_value [m1; m2])). lia.
    + now apply two_digits_month.
    + unfold year_field. cbn [List.length Nat.eqb forallb andb].
      now rewrite !is_ascii_digit_decimal.
Qed.

(** With the rule that [Phone] itself enforces, the invariant of the data
    model is kept by every operation and every command. *)
Theorem invariant_kept_by_validation (book : AddressBook) (r : Record_) :
  book_inv validate_phone book -> record_inv validate_phone r ->
  kept_by_all validate_phone book r.
Proof. apply invariant_kept. auto. Qed.

Lemma sample_book_inv : book_inv validate_phone sample_book.
Proof.
  repeat constructor; cbn;
    try (intros b [= <-]; reflexivity); discriminate.
Qed.

Lemma invariant_kept_by_validation_witness :
  kept_by_all validate_phone sample_book alice.
Proof.
  apply (invariant_kept_by_validation sample_book alice).
  - exact sample_book_inv.
  - repeat constructor. intros b [= <-]. reflexivity.
Defined.

(** C9 (the code departs from the claim): the rule of ten digits is not
    kept.  [add_phone], and so the [add] command, accept ten digits
    followed by a newline; the record then holds a phone of eleven
    characters.  The birthday and the key parts of the invariant hold all
    the same. *)
Theorem invariant_broken_by_newline :
  let phone := u "0123456789" ++ [newline] in
  let fresh := {| name := u "Alice"; phones := []; birthday := None |} in
  record_inv ten_digits fresh
  /\ add_phone phone fresh
     = (Return tt,
        {| name := u "Alice"; phones := [phone]; birthday := None |})
  /\ ~ record_inv ten_digits (snd (add_phone phone fresh))
  /\ book_inv ten_digits []
  /\ ~ book_inv ten_digits (snd (add_contact [u "Alice"; phone] [])).
Proof.
  cbv zeta. split; [|split; [|split; [|split]]].
  - split; [constructor|discriminate].
  - reflexivity.
  - intros [H _]. apply Forall_inv in H. discriminate H.
  - constructor.
  - intros H. apply Forall_inv in H. destruct H as [_ [H _]].
    apply Forall_inv in H. discriminate H.
Qed.

(** What [Phone] accepts, in full: ten decimal digits (of any script),
    alone or followed by one newline. *)
Theorem Phone_new_accepts (s : str) :
  Phone_new s =
  if (10 <=? List.length s)%nat && forallb is_decimal (firstn 10 s)
     && match skipn 10 s with
        | [] => true
        | [c] => (c =? newline)%N
        | _ => false
        end
  then Return s
  else Raise (Exn ValueError (u "Номер телефону повинен містити 10 цифр")).
Proof.
  unfold Phone_new. rewrite validate_phone_eq. unfold newline.
  destruct (_ && _); reflexivity.
Qed.

Lemma get_upcoming_birthdays_window_witness :
  get_upcoming_birthdays (DT 2024 2 26 9 30 0 0) 7 sample_book
  = Return (window_names (DT 2024 2 26 9 30 0 0) (DT 2024 3 4 9 30 0 0)
                         sample_book).
Proof.
  apply (get_upcoming_birthdays_window (DT 2024 2 26 9 30 0 0)
           (DT 2024 3 4 9 30 0 0) 7 sample_book).
  - reflexivity.
  - intros r b [<-|[<-|[]]] [= <-]; reflexivity.
Defined.

Lemma main_iteration_raises_witness :
  (split (strip (u " ")) = []
   /\ Exn IndexError (u "list index out of range")
      = Exn IndexError (u "list index out of range"))
  \/ (exists command args,
        parse_input (u " ") = Return (command, args)
        /\ (command = u "close" \/ command = u "exit")
        /\ save_data (P := Framed.pickle) [] default_filename no_files
           = Raise (Exn IndexError (u "list index out of range"))).
Proof.
  apply (main_iteration_raises Framed.pickle (DT 2024 2 26 9 30 0 0) (u " ")
           {| book := []; fs := no_files; stdout := [] |}).
  reflexivity.
Defined.

Lemma Birthday_strict_form_witness :
  Birthday_new (u "29.02.2000") = Return (DT 2000 2 29 0 0 0 0).
Proof.
  apply (Birthday_strict_form (u "29.02.2000")). reflexivity.
Defined.

Lemma main_iteration_continues_witness :
  exists text book',
    main_iteration (P := Framed.pickle) (DT 2024 2 26 9 30 0 0)
                   (u "ADD Carol 0671112233")
                   {| book := sample_book; fs := no_files; stdout := [] |}
    = Return (Continue,
              {| book := book'; fs := no_files;
                 stdout := [] ++ [u "Введіть команду: "] ++ [text] |}).
Proof.
  apply (main_iteration_continues Framed.pickle (DT 2024 2 26 9 30 0 0)
           (u "ADD Carol 0671112233")
           {| book := sample_book; fs := no_files; stdout := [] |}
           (u "add") [u "Carol"; u "0671112233"]).
  - reflexivity.
  - discriminate.
  - discriminate.
Defined.

(** * More of the program *)

(** ** The dictionary: insert, look up, delete *)

Lemma dict_get_None (k : str) (d : AddressBook) :
  ~ List.In k (map fst d) -> dict_get k d = None.
Proof.
  induction d as [|[k' v'] d IH]; simpl; [reflexivity|].
  intros H. destruct (str_eqb k' k) eqn:E.
  - apply str_eqb_eq in E. exfalso. apply H. now left.
  - apply IH. intros Hin. apply H. now right.
Qed.

Lemma dict_set_keys (k x : str) (v : Record_) (d : AddressBook) :
  List.In x (map fst (dict_set k v d)) -> List.In x (map fst d) \/ x = k.
Proof.
  induction d as [|[k' v'] d IH]; simpl.
  - intros [<-|[]]. now right.
  - destruct (str_eqb k' k); simpl.
    + intros [<-|H]; left; [now left|now right].
    + intros [<-|H]; [left; now left|].
      destruct (IH H) as [H'|H']; [left; now right|now right].
Qed.

Lemma dict_del_keys (k x : str) (d : AddressBook) :
  List.In x (map fst (dict_del k d)) -> List.In x (map fst d).
Proof.
  induction d as [|[k' v'] d IH]; simpl; [tauto|].
  destruct (str_eqb k' k); simpl.
  - intros H; now right.
  - intros [<-|H]; [now left|right; now apply IH].
Qed.

Lemma dict_set_unique (k : str) (v : Record_) (d : AddressBook) :
  unique_keys d -> unique_keys (dict_set k v d).
Proof.
  unfold unique_keys. induction d as [|[k' v'] d IH]; simpl; intros H.
  - constructor; [tauto|constructor].
  - inversion H as [|? ? Hnot Hd]; subst.
    destruct (str_eqb k' k) eqn:E; simpl.
    + constructor; assumption.
    + constructor; [|now apply IH].
      intros Hin. apply dict_set_keys in Hin as [Hin| ->]; [tauto|].
      now rewrite str_eqb_refl in E.
Qed.

Lemma dict_del_unique (k : str) (d : AddressBook) :
  unique_keys d -> unique_keys (dict_del k d).
Proof.
  unfold unique_keys. induction d as [|[k' v'] d IH]; simpl; intros H.
  - constructor.
  - inversion H as [|? ? Hnot Hd]; subst.
    destruct (str_eqb k' k); simpl; [exact Hd|].
    constructor; [|now apply IH].
    intros Hin. apply Hnot. now apply dict_del_keys in Hin.
Qed.

Lemma dict_get_del_same (k : str) (d : AddressBook) :
  unique_keys d -> dict_get k (dict_del k d) = None.
Proof.
  unfold unique_keys. induction d as [|[k' v'] d IH]; simpl; intros H.
  - reflexivity.
  - inversion H as [|? ? Hnot Hd]; subst.
    destruct (str_eqb k' k) eqn:E; simpl.
    + apply str_eqb_eq in E; subst k'. now apply dict_get_None.
    + rewrite E. now apply IH.
Qed.

Lemma dict_get_del_other (k k' : str) (d : AddressBook) :
  k' <> k -> dict_get k' (dict_del k d) = dict_get k' d.
Proof.
  intros Hne. induction d as [|[k0 v0] d IH]; simpl; [reflexivity|].
  destruct (str_eqb k0 k) eqn:E; simpl.
  - apply str_eqb_eq in E; subst k0.
    assert (str_eqb k k' = false) as -> by (apply str_eqb_neq; congruence).
    reflexivity.
  - destruct (str_eqb k0 k'); [reflexivity|exact IH].
Qed.

Lemma dict_set_same_keys (k : str) (v v0 : Record_) (d : AddressBook) :
  dict_get k d = Some v0 -> map fst (dict_set k v d) = map fst d.
Proof.
  induction d as [|[k' v'] d IH]; simpl; [discriminate|].
  destruct (str_eqb k' k); simpl; [reflexivity|].
  intros H; now rewrite IH.
Qed.

(** [add_record] then [find]: the record is found under its name, whatever
    was there before is replaced as a whole, the other contacts are not
    touched; a new name goes to the end of the book and a known name keeps
    its place. *)
Theorem add_record_find (r : Record_) (book : AddressBook) :
  find (name r) (add_record r book) = Some r
  /\ (forall k, k <> name r -> find k (add_record r book) = find k book)
  /\ (find (name r) book = None -> add_record r book = book ++ [(name r, r)])
  /\ (forall r0, find (name r) book = Some r0 ->
        map fst (add_record r book) = map fst book)
  /\ (unique_keys book -> unique_keys (add_record r book)).
Proof.
  unfold find, add_record, key_of. repeat split.
  - apply dict_get_set_same.
  - intros k Hk. now apply dict_get_set_other.
  - apply dict_set_absent.
  - intros r0. apply dict_set_same_keys.
  - apply dict_set_unique.
Qed.

(** [delete]: the name is no longer found, the other contacts are not
    touched, and deleting a name that is not there changes nothing. *)
Theorem delete_find (k : str) (book : AddressBook) :
  unique_keys book ->
  find k (delete k book) = None
  /\ (forall k', k' <> k -> find k' (delete k book) = find k' book)
  /\ (find k book = None -> delete k book = book)
  /\ unique_keys (delete k book).
Proof.
  intros Hu. unfold find, delete.
  destruct (dict_get k book) as [r|] eqn:Hget; repeat split.
  - now apply dict_get_del_same.
  - intros k' Hk'. now apply dict_get_del_other.
  - discriminate.
  - now apply dict_del_unique.
  - exact Hget.
  - exact Hu.
Qed.

Lemma sample_book_unique : unique_keys sample_book.
Proof.
  unfold unique_keys. cbn. repeat constructor; cbn.
  - intros [H|[]]. discriminate H.
  - intros [].
Qed.

Lemma delete_find_witness :
  find (u "Bob") (delete (u "Bob") sample_book) = None
  /\ (forall k', k' <> u "Bob" ->
        find k' (delete (u "Bob") sample_book) = find k' sample_book)
  /\ (find (u "Bob") sample_book = None ->
        delete (u "Bob") sample_book = sample_book)
  /\ unique_keys (delete (u "Bob") sample_book).
Proof.
  apply (delete_find (u "Bob") sample_book). exact sample_book_unique.
Defined.

(** ** The phones of a record *)

Lemma find_present (phone : str) (l : list str) :
  List.In phone l -> List.find (fun p => str_eqb p phone) l = Some phone.
Proof.
  induction l as [|p l IH]; simpl; [tauto|].
  destruct (str_eqb p phone) eqn:E.
  - apply str_eqb_eq in E. now subst.
  - intros [->|H]; [now rewrite str_eqb_refl in E|now apply IH].
Qed.

Lemma find_absent (phone : str) (l : list str) :
  ~ List.In phone l -> List.find (fun p => str_eqb p phone) l = None.
Proof.
  induction l as [|p l IH]; simpl; [reflexivity|].
  intros H. destruct (str_eqb p phone) eqn:E.
  - apply str_eqb_eq in E. exfalso. apply H. now left.
  - apply IH. intros Hin. apply H. now right.
Qed.

Lemma filter_twice (phone : str) (l : list str) :
  filter (fun p => negb (str_eqb p phone))
         (filter (fun p => negb (str_eqb p phone)) l)
  = filter (fun p => negb (str_eqb p phone)) l.
Proof.
  induction l as [|p l IH]; simpl; [reflexivity|].
  destruct (str_eqb p phone) eqn:E; simpl; [exact IH|].
  rewrite E. simpl. now rewrite IH.
Qed.

(** [find_phone] answers with the phone exactly when the record has it;
    [remove_phone] leaves no copy of the phone, keeps the other phones
    findable, changes nothing when the phone is not there, and doing it
    twice is doing it once. *)
Theorem find_and_remove_phone (phone : str) (r : Record_) :
  (List.In phone (phones r) -> find_phone phone r = Some phone)
  /\ (~ List.In phone (phones r) -> find_phone phone r = None)
  /\ find_phone phone (remove_phone phone r) = None
  /\ (forall p, p <> phone ->
        find_phone p (remove_phone phone r) = find_phone p r)
  /\ remove_phone phone (remove_phone phone r) = remove_phone phone r
  /\ (~ List.In phone (phones r) -> remove_phone phone r = r).
Proof.
  unfold find_phone. repeat split.
  - apply find_present.
  - apply find_absent.
  - apply find_absent. cbn. rewrite filter_In, negb_true_iff, str_eqb_neq.
    tauto.
  - intros p Hp. cbn.
    destruct (in_dec (list_eq_dec N.eq_dec) p (phones r)) as [Hin|Hout].
    + rewrite !find_present; auto.
      rewrite filter_In, negb_true_iff, str_eqb_neq. auto.
    + rewrite !find_absent; auto.
      rewrite filter_In. tauto.
  - unfold remove_phone. cbn. now rewrite filter_twice.
  - intros H. unfold remove_phone. rewrite (filter_absent phone _ H).
    now destruct r.
Qed.

(** No check for duplicates: a valid phone added twice is there twice, at
    the end of the list, and [find_phone] finds it. *)
Theorem add_phone_twice (phone : str) (r : Record_) :
  validate_phone phone = true ->
  phones (snd (add_phone phone (snd (add_phone phone r))))
  = phones r ++ [phone; phone]
  /\ find_phone phone (snd (add_phone phone r)) = Some phone.
Proof.
  intros Hv. unfold add_phone, Phone_new. rewrite Hv. cbn. split.
  - now rewrite <- app_assoc.
  - unfold find_phone. cbn. apply find_present, in_or_app. right. now left.
Qed.

Lemma add_phone_twice_witness :
  phones (snd (add_phone (u "0501234567")
                         (snd (add_phone (u "0501234567") alice))))
  = phones alice ++ [u "0501234567"; u "0501234567"]
  /\ find_phone (u "0501234567") (snd (add_phone (u "0501234567") alice))
     = Some (u "0501234567").
Proof.
  apply (add_phone_twice (u "0501234567") alice). reflexivity.
Defined.

(** ** The [change] command *)

(** On a known contact, [change] answers that the phone was changed when
    the new phone is valid (every copy of the old one gone, the new one
    at the end); when the new phone is not valid it answers with the
    validation message, and the old phone is gone all the same: the
    removal done before the check stays. *)
Theorem change_contact_outcome (n old new : str) (rest : list str)
        (r : Record_) (book : AddressBook) :
  find n book = Some r ->
  change_contact (n :: old :: new :: rest) book =
  if validate_phone new
  then (u "Телефонний номер для " ++ n ++ u " змінено.",
        dict_set n
          (with_phones r
             (filter (fun p => negb (str_eqb p old)) (phones r) ++ [new]))
          book)
  else (u "Номер телефону повинен містити 10 цифр",
        dict_set n
          (with_phones r (filter (fun p => negb (str_eqb p old)) (phones r)))
          book).
Proof.
  intros Hfind. unfold change_contact, input_error, change_contact_body.
  cbn [List.length Nat.ltb Nat.leb]. rewrite Hfind.
  unfold call_on, edit_phone, add_phone, remove_phone, Phone_new, with_phones.
  cbn [name phones birthday].
  destruct (validate_phone new); cbv beta iota delta [negb bind];
    rewrite (dict_update_found n _ r book Hfind); reflexivity.
Qed.

Lemma change_contact_outcome_witness :
  change_contact [u "Alice"; u "0501234567"; u "12"] sample_book =
  (u "Номер телефону повинен містити 10 цифр",
   dict_set (u "Alice") (with_phones alice [u "0509999999"]) sample_book).
Proof.
  apply (change_contact_outcome (u "Alice") (u "0501234567") (u "12") []
           alice sample_book).
  reflexivity.
Defined.

(** ** Writing a date and reading it back *)

Lemma in_ascii_digits (ok : N -> bool) (c : N) :
  forallb ok ascii_digits = true -> is_ascii_digit c = true -> ok c = true.
Proof.
  intros Hall Hc. unfold is_ascii_digit in Hc. bool_hyps.
  apply (forallb_N_range ok 10 0x30); [exact Hall|lia|lia].
Qed.

Lemma two_digits_padded (a b : N) :
  is_ascii_digit a = true -> is_ascii_digit b = true ->
  pad2 (field_value [a; b]) = [a; b].
Proof.
  intros Ha Hb.
  set (ok := fun a =>
               forallb (fun b => str_eqb (pad2 (field_value [a; b])) [a; b])
                       ascii_digits).
  assert (forallb ok ascii_digits = true) as Hall
      by (vm_compute; reflexivity).
  pose proof (in_ascii_digits ok a Hall Ha) as H1. unfold ok in H1.
  pose proof (in_ascii_digits _ b H1 Hb) as H2. cbv beta in H2.
  now apply str_eqb_eq.
Qed.

Lemma four_digits_printed (a b c d : N) :
  is_ascii_digit a = true -> is_ascii_digit b = true ->
  is_ascii_digit c = true -> is_ascii_digit d = true ->
  (1000 <= field_value [a; b; c; d])%Z ->
  str_of_Z (field_value [a; b; c; d]) = [a; b; c; d].
Proof.
  intros Ha Hb Hc Hd.
  set (ok := fun a => forallb (fun b => forallb (fun c => forallb (fun d =>
               implb (1000 <=? field_value [a; b; c; d])%Z
                     (str_eqb (str_of_Z (field_value [a; b; c; d]))
                              [a; b; c; d]))
               ascii_digits) ascii_digits) ascii_digits).
  assert (forallb ok ascii_digits = true) as Hall
      by (vm_compute; reflexivity).
  pose proof (in_ascii_digits ok a Hall Ha) as H1. unfold ok in H1.
  pose proof (in_ascii_digits _ b H1 Hb) as H2. cbv beta in H2.
  pose proof (in_ascii_digits _ c H2 Hc) as H3. cbv beta in H3.
  pose proof (in_ascii_digits _ d H3 Hd) as H4. cbv beta in H4.
  intros Hy. apply Z.leb_le in Hy. rewrite Hy in H4.
  now apply str_eqb_eq.
Qed.

(** What a string that is DD.MM.YYYY to the letter and names a legal date
    is made of. *)
Lemma strict_form_parts (s : str) (dt : datetime) :
  claimed_birthday s = Some dt ->
  exists d1 d2 m1 m2 y1 y2 y3 y4,
    s = [d1; d2; dot; m1; m2; dot; y1; y2; y3; y4]
    /\ forallb is_ascii_digit [d1; d2; m1; m2; y1; y2; y3; y4] = true
    /\ legal_date (field_value [y1; y2; y3; y4]) (field_value [m1; m2])
                  (field_value [d1; d2]) = true
    /\ dt = DT (field_value [y1; y2; y3; y4]) (field_value [m1; m2])
               (field_value [d1; d2]) 0 0 0 0.
Proof.
  unfold claimed_birthday, DD_MM_YYYY.
  destruct s as [|d1 [|d2 [|p1 [|m1 [|m2 [|p2 [|y1 [|y2 [|y3 [|y4 [|z s]]]]]]]]]]];
    try discriminate.
  destruct (_ && _) eqn:Hform; [|discriminate].
  destruct (legal_date _ _ _) eqn:Hlegal; [|discriminate].
  intros [= <-].
  apply andb_true_iff in Hform as [Hform Hdig].
  apply andb_true_iff in Hform as [Hp1 Hp2].
  apply N.eqb_eq in Hp1, Hp2. subst p1 p2.
  exists d1, d2, m1, m2, y1, y2, y3, y4. auto.
Qed.

Lemma strict_form_accepted (s : str) (dt : datetime) :
  claimed_birthday s = Some dt -> Birthday_new s = Return dt.
Proof.
  intros H.
  destruct (strict_form_parts s dt H)
    as (d1 & d2 & m1 & m2 & y1 & y2 & y3 & y4 & -> & Hdig & Hlegal & ->).
  cbn [forallb] in Hdig. bool_hyps.
  rewrite (Birthday_new_on_date_text _ [d1; d2] [m1; m2] [y1; y2; y3; y4]).
  - now rewrite Hlegal.
  - unfold legal_date in Hlegal.
    apply andb_true_iff in Hlegal as [Hlegal Hd].
    apply andb_true_iff in Hlegal as [_ Hm].
    repeat split.
    + apply two_digits_day; try assumption.
      unfold in_range in *. apply andb_true_iff in Hd as [Hd1 Hd2].
      rewrite Hd1. cbn [andb]. apply Z.leb_le. apply Z.leb_le in Hd2.
      pose proof (days_in_month_le (field_value [y1; y2; y3; y4])
                                   (field_value [m1; m2])). lia.
    + now apply two_digits_month.
    + unfold year_field. cbn [List.length Nat.eqb forallb andb].
      now rewrite !is_ascii_digit_decimal.
Qed.

Lemma strftime_strict (s : str) (dt : datetime) :
  claimed_birthday s = Some dt -> (1000 <= year dt)%Z -> strftime dt = s.
Proof.
  intros H Hy.
  destruct (strict_form_parts s dt H)
    as (d1 & d2 & m1 & m2 & y1 & y2 & y3 & y4 & -> & Hdig & Hlegal & ->).
  cbn [forallb] in Hdig. bool_hyps. cbn [year] in Hy.
  unfold strftime. cbn [day month year].
  rewrite !two_digits_padded, four_digits_printed by assumption.
  reflexivity.
Qed.

(** The digits of a day, of a month and of a year as [strftime] writes
    them. *)
Lemma pad2_digits (z : Z) :
  (0 <= z <= 99)%Z ->
  exists a b, pad2 z = [a; b] /\ is_ascii_digit a = true
              /\ is_ascii_digit b = true /\ field_value [a; b] = z.
Proof.
  intros Hz.
  set (ok := fun n =>
               match pad2 (Z.of_N n) with
               | [a; b] => is_ascii_digit a && is_ascii_digit b
                           && (field_value [a; b] =? Z.of_N n)%Z
               | _ => false
               end).
  assert (forallb ok (N_range 0 100) = true) as Hall
      by (vm_compute; reflexivity).
  pose proof (forallb_N_range ok 100 0 (Z.to_N z) Hall) as H.
  unfold ok in H. rewrite Z2N.id in H by lia.
  assert (match pad2 z with
          | [a; b] => is_ascii_digit a && is_ascii_digit b
                      && (field_value [a; b] =? z)%Z
          | _ => false
          end = true) as H' by (apply H; lia).
  clear H. destruct (pad2 z) as [|a [|b [|c l]]]; try discriminate H'.
  apply andb_true_iff in H' as [H' Hv]. apply andb_true_iff in H' as [Ha Hb].
  apply Z.eqb_eq in Hv. exists a, b. auto.
Qed.

Lemma year_digits (z : Z) :
  (1000 <= z <= 9999)%Z ->
  exists a b c d,
    str_of_Z z = [a; b; c; d]
    /\ forallb is_ascii_digit [a; b; c; d] = true
    /\ field_value [a; b; c; d] = z.
Proof.
  intros Hz.
  set (ok := fun n =>
               match str_of_Z (Z.of_N n) with
               | [a; b; c; d] =>
                   forallb is_ascii_digit [a; b; c; d]
                   && (field_value [a; b; c; d] =? Z.of_N n)%Z
               | _ => false
               end).
  assert (forallb ok (N_range 1000 (90 * 100)) = true) as Hall
      by (vm_compute; reflexivity).
  assert (ok (Z.to_N z) = true) as H
      by (apply (forallb_N_range ok (90 * 100) 1000); [exact Hall|lia|lia]).
  unfold ok in H. rewrite Z2N.id in H by lia.
  destruct (str_of_Z z) as [|a [|b [|c [|d [|e l]]]]]; try discriminate H.
  apply andb_true_iff in H as [Hdig Hv]. apply Z.eqb_eq in Hv.
  exists a, b, c, d. auto.
Qed.

Lemma strftime_accepted (y m d : Z) :
  legal_date y m d = true -> (1000 <= y)%Z ->
  Birthday_new (strftime (DT y m d 0 0 0 0)) = Return (DT y m d 0 0 0 0).
Proof.
  intros Hlegal Hy. apply strict_form_accepted.
  pose proof Hlegal as Hl. unfold legal_date, in_range in Hl.
  apply andb_true_iff in Hl as [Hl Hd]. apply andb_true_iff in Hl as [Hyr Hm].
  apply andb_true_iff in Hd as [Hd1 Hd2].
  apply andb_true_iff in Hm as [Hm1 Hm2].
  apply andb_true_iff in Hyr as [_ Hy2].
  apply Z.leb_le in Hd1, Hd2, Hm1, Hm2, Hy2. unfold MAXYEAR in Hy2.
  pose proof (days_in_month_le y m) as Hdim.
  destruct (pad2_digits d) as (d1 & d2 & Ed & Hd1' & Hd2' & Vd); [lia|].
  destruct (pad2_digits m) as (m1 & m2 & Em & Hm1' & Hm2' & Vm); [lia|].
  destruct (year_digits y) as (y1 & y2 & y3 & y4 & Ey & Hyd & Vy); [lia|].
  unfold strftime. cbn [day month year]. rewrite Ed, Em, Ey.
  change (u ".") with [dot]. cbn [app].
  unfold claimed_birthday, DD_MM_YYYY. rewrite !N.eqb_refl.
  cbn [forallb] in Hyd |- *. rewrite Hd1', Hd2', Hm1', Hm2'. cbn [andb].
  rewrite Hyd. rewrite Vd, Vm, Vy, Hlegal. reflexivity.
Qed.

(** A date text in the strict form with a year of four significant digits
    is printed back as it was typed, and what [strftime] prints for a
    legal date from the year 1000 on is read back as that date. *)
Theorem birthday_text_round_trip :
  (forall s dt,
      claimed_birthday s = Some dt -> (1000 <= year dt)%Z ->
      Birthday_new s = Return dt /\ strftime dt = s)
  /\ (forall y m d,
         legal_date y m d = true -> (1000 <= y)%Z ->
         Birthday_new (strftime (DT y m d 0 0 0 0))
         = Return (DT y m d 0 0 0 0)).
Proof.
  split.
  - intros s dt H Hy. split;
      [now apply strict_form_accepted|now apply strftime_strict].
  - apply strftime_accepted.
Qed.

(** ** The birthday commands *)

(** [add-birthday] on a known contact with a date in the strict form
    (year from 1000 on) stores the date, and [show-birthday] then answers
    with the date as it was typed. *)
Theorem add_then_show_birthday (n text : str) (rest rest' : list str)
        (r : Record_) (dt : datetime) (book : AddressBook) :
  find n book = Some r ->
  claimed_birthday text = Some dt ->
  (1000 <= year dt)%Z ->
  let book' :=
    dict_set n {| name := name r; phones := phones r; birthday := Some dt |}
             book in
  add_birthday_cmd (n :: text :: rest) book
  = (u "День народження для " ++ n ++ u " додано.", book')
  /\ show_birthday (n :: rest') book'
     = (u "День народження " ++ n ++ u ": " ++ text ++ u ".", book').
Proof.
  intros Hfind Htext Hy book'. split.
  - unfold add_birthday_cmd, input_error, add_birthday_body.
    cbn [List.length Nat.ltb Nat.leb]. rewrite Hfind.
    unfold call_on, add_birthday.
    rewrite (strict_form_accepted text dt Htext).
    rewrite (dict_update_found n _ r book Hfind). reflexivity.
  - unfold show_birthday, input_error, show_birthday_body.
    cbn [List.length Nat.ltb Nat.leb].
    unfold book', find. rewrite dict_get_set_same. cbn [birthday].
    now rewrite (strftime_strict text dt Htext Hy).
Qed.

Lemma add_then_show_birthday_witness :
  let book' :=
    dict_set (u "Alice")
             {| name := name alice; phones := phones alice;
                birthday := Some (DT 2000 1 1 0 0 0 0) |} sample_book in
  add_birthday_cmd [u "Alice"; u "01.01.2000"] sample_book
  = (u "День народження для " ++ u "Alice" ++ u " додано.", book')
  /\ show_birthday [u "Alice"] book'
     = (u "День народження " ++ u "Alice" ++ u ": " ++ u "01.01.2000"
          ++ u ".", book').
Proof.
  apply (add_then_show_birthday (u "Alice") (u "01.01.2000") [] [] alice
           (DT 2000 1 1 0 0 0 0) sample_book).
  - reflexivity.
  - reflexivity.
  - cbn. lia.
Defined.

Lemma dict_set_found (k : str) (v : Record_) (d : AddressBook) :
  dict_get k d = Some v -> dict_set k v d = d.
Proof.
  induction d as [|[k' v'] d IH]; [discriminate|].
  cbn. destruct (str_eqb k' k).
  - now intros [= ->].
  - intros H. now rewrite IH.
Qed.

Lemma Birthday_new_raises (text : str) (e : exn) :
  Birthday_new text = Raise e -> e = bad_date.
Proof.
  unfold Birthday_new, validate_date.
  destruct (strptime text) as [dt|e'] eqn:Hs; cbn.
  - discriminate.
  - rewrite (strptime_raises text e' Hs). cbn. now intros [= <-].
Qed.

(** A text that [Birthday] refuses (no date, or no date of the calendar)
    leaves the contact as it was, and the answer is the validation
    message. *)
Theorem add_birthday_refused (n text : str) (rest : list str) (r : Record_)
        (book : AddressBook) :
  find n book = Some r ->
  is_return (Birthday_new text) = false ->
  add_birthday_cmd (n :: text :: rest) book = (exn_msg bad_date, book).
Proof.
  intros Hfind Hno.
  unfold add_birthday_cmd, input_error, add_birthday_body.
  cbn [List.length Nat.ltb Nat.leb]. rewrite Hfind.
  unfold call_on, add_birthday.
  destruct (Birthday_new text) as [b|e] eqn:Hb; [discriminate Hno|].
  rewrite (Birthday_new_raises text e Hb). cbn [bind exn_msg bad_date].
  f_equal. rewrite (dict_update_found n _ r book Hfind).
  now apply dict_set_found.
Qed.

Lemma add_birthday_refused_witness :
  add_birthday_cmd [u "Alice"; u "31.04.2000"] sample_book
  = (exn_msg bad_date, sample_book).
Proof.
  apply (add_birthday_refused (u "Alice") (u "31.04.2000") [] alice
           sample_book); reflexivity.
Defined.

(** ** Commands on a contact that is not there, or with too few words *)

(** [change], [phone], [add-birthday] and [show-birthday] on a name that
    is not in the book answer that the contact was not found and leave the
    book as it is. *)
Theorem commands_on_missing_contact (n : str) (book : AddressBook) :
  find n book = None ->
  (forall a b rest,
      change_contact (n :: a :: b :: rest) book = (not_found n, book))
  /\ (forall rest, show_phone (n :: rest) book = (not_found n, book))
  /\ (forall a rest,
         add_birthday_cmd (n :: a :: rest) book = (not_found n, book))
  /\ (forall rest, show_birthday (n :: rest) book = (not_found n, book)).
Proof.
  intros Hfind. repeat split; intros;
    unfold change_contact, show_phone, add_birthday_cmd, show_birthday,
      input_error, change_contact_body, show_phone_body, add_birthday_body,
      show_birthday_body;
    cbn [List.length Nat.ltb Nat.leb]; now rewrite Hfind.
Qed.

Lemma commands_on_missing_contact_witness :
  (forall a b rest,
      change_contact (u "Carol" :: a :: b :: rest) sample_book
      = (not_found (u "Carol"), sample_book))
  /\ (forall rest,
         show_phone (u "Carol" :: rest) sample_book
         = (not_found (u "Carol"), sample_book))
  /\ (forall a rest,
         add_birthday_cmd (u "Carol" :: a :: rest) sample_book
         = (not_found (u "Carol"), sample_book))
  /\ (forall rest,
         show_birthday (u "Carol" :: rest) sample_book
         = (not_found (u "Carol"), sample_book)).
Proof.
  apply (commands_on_missing_contact (u "Carol") sample_book). reflexivity.
Defined.

(** With fewer words than a command needs, the handler asks for them and
    touches nothing; it never gets as far as unpacking the arguments. *)
Theorem commands_with_too_few_arguments (book : AddressBook) :
  (forall args, (List.length args < 2)%nat ->
      add_contact args book
      = (u "Будь ласка, вкажіть ім'я та телефон.", book))
  /\ (forall args, (List.length args < 3)%nat ->
         change_contact args book
         = (u "Будь ласка, вкажіть ім'я, старий і новий телефон.", book))
  /\ (forall args, (List.length args < 1)%nat ->
         show_phone args book = (u "Будь ласка, вкажіть ім'я.", book))
  /\ (forall args, (List.length args < 2)%nat ->
         add_birthday_cmd args book
         = (u "Будь ласка, вкажіть ім'я та дату народження.", book))
  /\ (forall args, (List.length args < 1)%nat ->
         show_birthday args book = (u "Будь ласка, вкажіть ім'я.", book)).
Proof.
  repeat split; intros args Hlen;
    unfold add_contact, change_contact, show_phone, add_birthday_cmd,
      show_birthday, input_error, add_contact_body, change_contact_body,
      show_phone_body, add_birthday_body, show_birthday_body;
    apply Nat.ltb_lt in Hlen; now rewrite Hlen.
Qed.

(** ** Reading a line *)

Lemma forallb_rev {A} (ok : A -> bool) (l : list A) :
  forallb ok (rev l) = forallb ok l.
Proof.
  induction l as [|x l IH]; [reflexivity|]. cbn.
  rewrite forallb_app, IH. cbn. now rewrite andb_true_r, andb_comm.
Qed.

Lemma lstrip_all_space (s : str) :
  forallb is_space (lstrip s) = forallb is_space s.
Proof.
  induction s as [|c s IH]; [reflexivity|]. cbn.
  destruct (is_space c) eqn:E; [exact IH|]. cbn. now rewrite E.
Qed.

Lemma strip_all_space (s : str) :
  forallb is_space (strip s) = forallb is_space s.
Proof.
  unfold strip, rstrip.
  now rewrite forallb_rev, lstrip_all_space, forallb_rev, lstrip_all_space.
Qed.

Lemma split_from_nil (cur s : str) :
  split_from cur s = [] <-> cur = [] /\ forallb is_space s = true.
Proof.
  revert cur. induction s as [|c s IH]; intros cur; cbn.
  - destruct cur; split; try tauto; try discriminate.
    intros [H _]; discriminate H.
  - destruct (is_space c) eqn:E; cbn.
    + destruct cur as [|x cur].
      * rewrite IH. tauto.
      * split; [discriminate|]. intros [H _]; discriminate H.
    + rewrite IH. split; [|intros [_ H]; discriminate H].
      intros [H _]. destruct cur; discriminate H.
Qed.

Lemma split_from_tokens (cur s : str) :
  forallb (fun c => negb (is_space c)) cur = true ->
  Forall token (split_from cur s).
Proof.
  revert cur. induction s as [|c s IH]; intros cur Hcur; cbn.
  - destruct cur as [|x cur]; constructor; [|constructor].
    split; [discriminate|exact Hcur].
  - destruct (is_space c) eqn:E.
    + destruct cur as [|x cur]; [now apply IH|].
      constructor; [split; [discriminate|exact Hcur]|now apply IH].
    + apply IH. rewrite forallb_app, Hcur. cbn. now rewrite E.
Qed.

Lemma lower_no_capital (s : str) :
  forallb (fun c => negb (between 0x41 c 0x5a)) (lower s) = true.
Proof.
  unfold lower. induction s as [|c s IH]; [reflexivity|]. cbn [flat_map].
  rewrite forallb_app, IH, andb_true_r. unfold lower_char, between.
  destruct ((0x41 <=? c)%N && (c <=? 0x5a)%N) eqn:E.
  - apply andb_true_iff in E as [E1 E2]. apply N.leb_le in E1, E2.
    cbn [forallb]. rewrite andb_true_r. apply negb_true_iff.
    apply andb_false_iff. right. apply N.leb_gt. lia.
  - destruct (c =? 0x130)%N; [reflexivity|].
    destruct (c =? 0x212a)%N; [reflexivity|].
    cbn [forallb]. now rewrite E.
Qed.

(** [parse_input] raises exactly on the lines made of whitespace only
    (the empty line among them); on any other line it gives a command
    without capital ASCII letters and arguments that are non-empty words
    without whitespace. *)
Theorem parse_input_words (user_input : str) :
  (forallb is_space user_input = true ->
   parse_input user_input
   = Raise (Exn IndexError (u "list index out of range")))
  /\ (forallb is_space user_input = false ->
      exists part0 args,
        parse_input user_input = Return (lower part0, args)
        /\ Forall token (part0 :: args)
        /\ forallb (fun c => negb (between 0x41 c 0x5a)) (lower part0) = true).
Proof.
  unfold parse_input, split. split; intros H.
  - assert (split_from [] (strip user_input) = []) as ->; [|reflexivity].
    apply split_from_nil. now rewrite strip_all_space.
  - pose proof (split_from_tokens [] (strip user_input) eq_refl) as Htok.
    destruct (split_from [] (strip user_input)) as [|part0 args] eqn:E.
    + apply split_from_nil in E as [_ E]. rewrite strip_all_space in E.
      congruence.
    + exists part0, args. repeat split; try assumption.
      apply lower_no_capital.
Qed.

(** ** Leaving the program *)

(** [exit] and [close], in any case of the letters and whatever follows
    them, open the default file for writing.  Where that is a regular
    file, or no file yet, they write the pickled book to it, leave every
    other path alone, say goodbye and end the loop; where opening raises
    (a directory under that name, a file or a directory the process may
    not write, a missing parent directory), the exception leaves the
    loop. *)
Theorem exit_saves_the_book (P : Pickle) (today : datetime)
        (user_input : str) (w : world) :
  is_exit user_input = true ->
  (regular (fs w) default_filename = true ->
   exists w',
     main_iteration today user_input w = Return (Break, w')
     /\ book w' = book w
     /\ stdout w' = stdout w ++ [u "Введіть команду: "; u "До побачення!"]
     /\ fs w' default_filename = Some (File (pickle_dumps (book w)))
     /\ (forall path, path <> default_filename -> fs w' path = fs w path))
  /\ (forall e, open_wb default_filename (fs w) = Raise e ->
       main_iteration today user_input w = Raise e).
Proof.
  intros Hexit. unfold is_exit in Hexit. unfold main_iteration.
  destruct (parse_input user_input) as [[command args]|e]; [|discriminate].
  cbn [bind]. rewrite Hexit.
  unfold save_data. cbn [book fs print]. split.
  - intros Hreg.
    destruct (read_after_write default_filename (pickle_dumps (book w))
                               (fs w) Hreg) as (fs' & -> & _ & ->).
    cbn [bind]. eexists. split; [reflexivity|].
    cbn [book fs stdout print].
    split; [reflexivity|]. split; [now rewrite <- app_assoc|].
    split; [unfold fs_write; now rewrite str_eqb_refl|].
    intros path Hp. unfold fs_write. apply str_eqb_neq in Hp. now rewrite Hp.
  - intros e He. unfold write_file. now rewrite He.
Qed.

Lemma exit_saves_the_book_witness :
  (exists w',
     main_iteration (P := Framed.pickle) (DT 2024 2 26 9 30 0 0)
                    (u "  EXIT now") (World sample_book no_files [])
     = Return (Break, w')
     /\ book w' = sample_book
     /\ stdout w' = [] ++ [u "Введіть команду: "; u "До побачення!"]
     /\ fs w' default_filename
        = Some (File (P := Framed.pickle) (Framed.dumps sample_book))
     /\ (forall path, path <> default_filename -> fs w' path = no_files path))
  /\ main_iteration (P := Framed.pickle) (DT 2024 2 26 9 30 0 0)
                    (u "close")
                    (World sample_book (fun _ => Some locked) [])
     = Raise permission_denied.
Proof.
  split.
  - apply (proj1 (exit_saves_the_book Framed.pickle (DT 2024 2 26 9 30 0 0)
                    (u "  EXIT now") (World sample_book no_files [])
                    eq_refl)).
    reflexivity.
  - apply (proj2 (exit_saves_the_book Framed.pickle (DT 2024 2 26 9 30 0 0)
                    (u "close")
                    (World sample_book (fun _ => Some locked) [])
                    eq_refl)).
    reflexivity.
Defined.

(** ** What the commands leave alone *)

Lemma dict_set_keeps (k n : str) (v : Record_) (d : AddressBook) :
  dict_get k d <> None -> dict_get k (dict_set n v d) <> None.
Proof.
  intros H. destruct (list_eq_dec N.eq_dec k n) as [->|Hne].
  - rewrite dict_get_set_same. discriminate.
  - now rewrite dict_get_set_other.
Qed.

Lemma call_on_book (key : str) (record : Record_)
      (method : Record_ -> result unit * Record_) (book : AddressBook) :
  snd (call_on key record method book)
  = dict_update key (snd (method record)) book.
Proof. unfold call_on. now destruct (method record). Qed.

(** The book after each of the three commands that write: the book as it
    was, or the book with the record under the first word set (twice for
    a new contact: once when it is filed, once when the phone is added). *)
Lemma written_book (args : list str) (book : AddressBook) :
  let written b' :=
    b' = book
    \/ exists n rest v,
        args = n :: rest
        /\ (b' = dict_set n v book
            \/ exists v0, b' = dict_set n v (dict_set n v0 book)) in
  written (snd (add_contact args book))
  /\ written (snd (change_contact args book))
  /\ written (snd (add_birthday_cmd args book)).
Proof.
  cbv zeta. unfold add_contact, change_contact, add_birthday_cmd.
  rewrite !snd_input_error.
  unfold add_contact_body, change_contact_body, add_birthday_body.
  repeat split.
  - destruct (List.length args <? 2)%nat; [now left|].
    destruct args as [|n [|phone rest]]; try now left.
    destruct (find n book) as [r|] eqn:Hf.
    + pose proof (call_on_book n r (add_phone phone) book) as H.
      rewrite (dict_update_found n _ r book Hf) in H.
      destruct (call_on n r (add_phone phone) book) as [res b']. cbn [snd] in *.
      right. exists n, (phone :: rest). eexists. split; [reflexivity|].
      left. exact H.
    + destruct (Record_new n) as [r|e] eqn:Hnew; [|now left].
      assert (key_of r = n) as Hkey.
      { unfold Record_new, Name_new in Hnew. destruct n; [discriminate|].
        cbn in Hnew. now injection Hnew as <-. }
      pose proof (call_on_book (key_of r) r (add_phone phone)
                               (add_record r book)) as H.
      unfold add_record in H. rewrite dict_update_filed in H.
      fold (add_record r book) in H.
      destruct (call_on (key_of r) r (add_phone phone) (add_record r book))
        as [res b']. cbn [snd] in *.
      right. exists n, (phone :: rest). eexists. split; [reflexivity|].
      right. exists r. unfold add_record in H. rewrite Hkey in H. exact H.
  - destruct (List.length args <? 3)%nat; [now left|].
    destruct args as [|n [|old [|new rest]]]; try now left.
    destruct (find n book) as [r|] eqn:Hf; [|now left].
    pose proof (call_on_book n r (edit_phone old new) book) as H.
    rewrite (dict_update_found n _ r book Hf) in H.
    destruct (call_on n r (edit_phone old new) book) as [res b']. cbn [snd] in *.
    right. exists n, (old :: new :: rest). eexists. split; [reflexivity|].
    left. exact H.
  - destruct (List.length args <? 2)%nat; [now left|].
    destruct args as [|n [|text rest]]; try now left.
    destruct (find n book) as [r|] eqn:Hf; [|now left].
    pose proof (call_on_book n r (add_birthday text) book) as H.
    rewrite (dict_update_found n _ r book Hf) in H.
    destruct (call_on n r (add_birthday text) book) as [res b']. cbn [snd] in *.
    right. exists n, (text :: rest). eexists. split; [reflexivity|].
    left. exact H.
Qed.

(** [add], [change] and [add-birthday] touch the contact named by their
    first word and no other. *)
Theorem commands_touch_one_contact (args : list str) (book : AddressBook)
        (k : str) :
  hd_error args <> Some k ->
  find k (snd (add_contact args book)) = find k book
  /\ find k (snd (change_contact args book)) = find k book
  /\ find k (snd (add_birthday_cmd args book)) = find k book.
Proof.
  intros Hk.
  assert (forall b',
             (b' = book
              \/ exists n rest v,
                 args = n :: rest
                 /\ (b' = dict_set n v book
                     \/ exists v0, b' = dict_set n v (dict_set n v0 book))) ->
             find k b' = find k book) as Hframe.
  { intros b' [->|(n & rest & v & -> & [->|(v0 & ->)])]; [reflexivity| |];
      assert (k <> n) by (cbn in Hk; congruence); unfold find;
      now rewrite !dict_get_set_other. }
  destruct (written_book args book) as (H1 & H2 & H3).
  repeat split; now apply Hframe.
Qed.

Lemma commands_touch_one_contact_witness :
  find (u "Bob") (snd (add_contact [u "Alice"; u "0671112233"] sample_book))
  = find (u "Bob") sample_book
  /\ find (u "Bob")
          (snd (change_contact [u "Alice"; u "0671112233"] sample_book))
     = find (u "Bob") sample_book
  /\ find (u "Bob")
          (snd (add_birthday_cmd [u "Alice"; u "0671112233"] sample_book))
     = find (u "Bob") sample_book.
Proof.
  apply (commands_touch_one_contact [u "Alice"; u "0671112233"] sample_book
           (u "Bob")).
  discriminate.
Defined.

(** No command removes a contact: a name found before a command is found
    after it, whatever the command and its arguments. *)
Theorem commands_never_remove (today : datetime) (args : list str)
        (book : AddressBook) (k : str) :
  find k book <> None ->
  find k (snd (add_contact args book)) <> None
  /\ find k (snd (change_contact args book)) <> None
  /\ find k (snd (add_birthday_cmd args book)) <> None
  /\ find k (snd (show_phone args book)) <> None
  /\ find k (snd (show_birthday args book)) <> None
  /\ find k (snd (birthdays today args book)) <> None
  /\ find k (snd (show_all_contacts book)) <> None.
Proof.
  intros Hk.
  assert (forall b',
             (b' = book
              \/ exists n rest v,
                 args = n :: rest
                 /\ (b' = dict_set n v book
                     \/ exists v0, b' = dict_set n v (dict_set n v0 book))) ->
             find k b' <> None) as Hkeep.
  { intros b' [->|(n & rest & v & -> & [->|(v0 & ->)])]; [exact Hk| |];
      unfold find in *; now repeat apply dict_set_keeps. }
  destruct (written_book args book) as (H1 & H2 & H3).
  destruct (reading_commands_keep_book today args book)
    as (R1 & R2 & R3 & R4).
  rewrite R1, R2, R3, R4. repeat split; auto.
Qed.

Lemma commands_never_remove_witness :
  find (u "Bob") (snd (add_contact [u "Bob"; u "x"] sample_book)) <> None
  /\ find (u "Bob") (snd (change_contact [u "Bob"; u "x"] sample_book))
     <> None
  /\ find (u "Bob") (snd (add_birthday_cmd [u "Bob"; u "x"] sample_book))
     <> None
  /\ find (u "Bob") (snd (show_phone [u "Bob"; u "x"] sample_book)) <> None
  /\ find (u "Bob") (snd (show_birthday [u "Bob"; u "x"] sample_book))
     <> None
  /\ find (u "Bob")
          (snd (birthdays (DT 2024 2 26 9 30 0 0) [u "Bob"; u "x"]
                          sample_book)) <> None
  /\ find (u "Bob") (snd (show_all_contacts sample_book)) <> None.
Proof.
  apply (commands_never_remove (DT 2024 2 26 9 30 0 0) [u "Bob"; u "x"]
           sample_book (u "Bob")).
  discriminate.
Defined.

(** ** What the birthday query never lists *)

Lemma le_anchored (today : datetime) (mb db h mi sec us : Z) :
  Datetime.le today (DT (year today) mb db h mi sec us) = true ->
  (month today < mb \/ (month today = mb /\ day today <= db))%Z.
Proof.
  unfold Datetime.le, fields. cbn [cmp year month day].
  rewrite Z.compare_refl.
  destruct (Z.compare_spec (month today) mb) as [Hm|Hm|Hm];
    [|now left|discriminate].
  destruct (Z.compare_spec (day today) db) as [Hd|Hd|Hd];
    [right; lia|right; lia|discriminate].
Qed.

Lemma upcoming_loop_listed (today upcoming : datetime)
      (records : list Record_) (acc names : list str) :
  upcoming_loop today upcoming records acc = Return names ->
  forall nm, List.In nm names ->
    List.In nm acc
    \/ exists r b, List.In r records /\ name r = nm
                   /\ birthday r = Some b /\ not_before today b.
Proof.
  revert acc. induction records as [|r records IH]; intros acc; cbn.
  - intros [= <-] nm Hin. now left.
  - destruct (birthday r) as [b|] eqn:Hb.
    + destruct (replace_year b (year today)) as [a|e] eqn:Ha;
        [|discriminate]. cbn [bind].
      destruct (Datetime.le today a) eqn:Hle; cbn [andb].
      * destruct (Datetime.lt a upcoming).
        -- intros H nm Hin. destruct (IH _ H nm Hin) as [Hacc|Hrec].
           ++ apply in_app_or in Hacc as [Hacc|[<-|[]]]; [now left|].
              right. exists r, b. repeat split; auto.
              unfold replace_year in Ha. apply new_return in Ha. subst a.
              now apply le_anchored in Hle.
           ++ right. destruct Hrec as (r' & b' & Hin' & Hrest).
              exists r', b'. auto.
        -- intros H nm Hin. destruct (IH _ H nm Hin) as [Hacc|Hrec];
             [now left|].
           right. destruct Hrec as (r' & b' & Hin' & Hrest).
           exists r', b'. auto.
      * intros H nm Hin. destruct (IH _ H nm Hin) as [Hacc|Hrec];
          [now left|].
        right. destruct Hrec as (r' & b' & Hin' & Hrest).
        exists r', b'. auto.
    + intros H nm Hin. destruct (IH _ H nm Hin) as [Hacc|Hrec];
        [now left|].
      right. destruct Hrec as (r' & b' & Hin' & Hrest).
      exists r', b'. auto.
Qed.

(** Every name the query lists belongs to a record whose birthday does
    not come before today in the calendar year: a birthday early in
    January is never listed in late December, even within the next seven
    days, since it is looked for in the current year only. *)
Theorem upcoming_never_before_today (today : datetime) (days : Z)
        (book : AddressBook) (names : list str) :
  get_upcoming_birthdays today days book = Return names ->
  forall nm, List.In nm names ->
    exists r b, List.In r (values book) /\ name r = nm
                /\ birthday r = Some b /\ not_before today b.
Proof.
  unfold get_upcoming_birthdays.
  destruct (add_days today days) as [upcoming|e]; [|discriminate].
  cbn [bind]. intros H nm Hin.
  destruct (upcoming_loop_listed _ _ _ _ _ H nm Hin) as [[]|Hrec].
  exact Hrec.
Qed.

Lemma upcoming_never_before_today_witness :
  exists r b, List.In r (values sample_book) /\ name r = u "Alice"
              /\ birthday r = Some b
              /\ not_before (DT 2024 2 26 9 30 0 0) b.
Proof.
  apply (upcoming_never_before_today (DT 2024 2 26 9 30 0 0) 7 sample_book
           [u "Bob"; u "Alice"]).
  - reflexivity.
  - right. left. reflexivity.
Defined.

Example new_year_birthday_missed :
  get_upcoming_birthdays
    (DT 2024 12 29 9 30 0 0) 7
    [(u "Eve", {| name := u "Eve"; phones := [];
                  birthday := Some (DT 1995 1 2 0 0 0 0) |})]
  = Return [].
Proof. reflexivity. Qed.

Lemma upcoming_loop_no_birthday (today upcoming : datetime)
      (records : list Record_) (acc : list str) :
  (forall r, List.In r records -> birthday r = None) ->
  upcoming_loop today upcoming records acc = Return acc.
Proof.
  induction records as [|r records IH]; intros H; cbn; [reflexivity|].
  rewrite (H r (or_introl eq_refl)). apply IH.
  intros r' Hin. apply H. now right.
Qed.

(** With no birthday in the book (an empty book among others), the
    [birthdays] command answers that there is none in the coming week. *)
Theorem birthdays_nothing_to_list (today : datetime) (args : list str)
        (book : AddressBook) :
  is_return (add_days today 7) = true ->
  (forall r, List.In r (values book) -> birthday r = None) ->
  birthdays today args book
  = (u "Немає днів народження на наступному тижні.", book).
Proof.
  intros Hup Hnone. unfold birthdays, input_error, birthdays_body,
    get_upcoming_birthdays.
  destruct (add_days today 7) as [upcoming|e]; [|discriminate Hup].
  cbn [bind]. now rewrite upcoming_loop_no_birthday.
Qed.

Lemma birthdays_nothing_to_list_witness :
  birthdays (DT 2024 2 26 9 30 0 0) []
            [(u "Carol",
              {| name := u "Carol"; phones := [u "0671112233"];
                 birthday := None |})]
  = (u "Немає днів народження на наступному тижні.",
     [(u "Carol",
       {| name := u "Carol"; phones := [u "0671112233"];
          birthday := None |})]).
Proof.
  apply (birthdays_nothing_to_list (DT 2024 2 26 9 30 0 0) []).
  - reflexivity.
  - intros r [<-|[]]. reflexivity.
Defined.

(** ** A whole session *)






(** ** [add] then [phone] *)

(** After [add] with a valid phone, [phone] for the same name lists the
    phones the contact had before (none for a new contact) and then the
    new one, separated by a comma and a space. *)
Theorem add_then_show_phone (n phone : str) (rest rest' : list str)
        (book : AddressBook) :
  n <> [] ->
  validate_phone phone = true ->
  fst (show_phone (n :: rest') (snd (add_contact (n :: phone :: rest) book)))
  = join (u ", ")
         (match find n book with
          | Some r => phones r
          | None => []
          end ++ [phone]).
Proof.
  intros Hn Hv. rewrite add_contact_args.
  unfold input_error, call_on, add_phone, Phone_new, Record_new, Name_new,
    add_record, key_of, find.
  rewrite Hv. cbn [negb].
  destruct (dict_get n book) as [r|] eqn:Hfind.
  - cbn [bind snd name phones birthday].
    unfold show_phone, input_error, show_phone_body, find.
    cbn [List.length Nat.ltb Nat.leb].
    rewrite (dict_update_found n _ r book Hfind).
    now rewrite dict_get_set_same.
  - destruct n as [|c n']; [congruence|].
    cbn [bind snd name phones birthday].
    unfold show_phone, input_error, show_phone_body, find.
    cbn [List.length Nat.ltb Nat.leb].
    rewrite dict_update_filed. now rewrite dict_get_set_same.
Qed.

Lemma add_then_show_phone_witness :
  fst (show_phone [u "Alice"]
         (snd (add_contact [u "Alice"; u "0671112233"] sample_book)))
  = join (u ", ") (phones alice ++ [u "0671112233"]).
Proof.
  apply (add_then_show_phone (u "Alice") (u "0671112233") [] [] sample_book).
  - discriminate.
  - reflexivity.
Defined.
